(** * SVGAPlayer-Web-Lite: the off-screen canvas renderer

    A shallow embedding of [src/player/offscreen.canvas.render.ts]:
    [render], [resetShapeStyles], [drawBezier], [drawBezierElement],
    [drawEllipse] and [drawRect], together with the small part of
    JavaScript they rely on (numbers, truthiness, string splitting,
    [Number(...)]) and the list of calls a 2D context receives.

    Idealisations, fixed once and for all:
    - a JavaScript number is [NaN], an infinity, or an exact rational;
      binary64 rounding and the sign of zero are not represented;
    - strings are ASCII strings.

    Two more hold for [render] and are lifted by [render_plain]:
    - an object used as a dictionary is a finite map over its own keys
      (no property is inherited from a prototype);
    - the 2D context accepts every call (none of them throws).
    [render_plain] reads the dictionaries as plain objects and lets the
    context throw; the two coincide when no image key in use names an
    inherited property and the context throws on none of the calls. *)

From Stdlib Require Import ZArith QArith Qminmax Lqa Lia.
From Stdlib Require Import String Ascii List Bool.
From stdpp Require Import base option gmap strings.
Import ListNotations.

Local Open Scope string_scope.
Local Open Scope list_scope.

(** ** JavaScript numbers *)

Module JS.

Inductive number : Type :=
| NaN
| Infinity (negative : bool)
| Num (q : Q).

Definition Qis_zero (q : Q) : bool := (Qnum q =? 0)%Z.
Definition Qis_neg (q : Q) : bool := (Qnum q <? 0)%Z.

(** [ToBoolean] on a number: false for zero and [NaN]. *)
Definition truthy (x : number) : bool :=
  match x with
  | NaN => false
  | Infinity _ => true
  | Num q => negb (Qis_zero q)
  end.

Definition neg (x : number) : number :=
  match x with
  | NaN => NaN
  | Infinity s => Infinity (negb s)
  | Num q => Num (- q)
  end.

Definition add (x y : number) : number :=
  match x, y with
  | NaN, _ | _, NaN => NaN
  | Infinity s, Infinity t => if Bool.eqb s t then Infinity s else NaN
  | Infinity s, Num _ | Num _, Infinity s => Infinity s
  | Num p, Num q => Num (p + q)
  end.

Definition sub (x y : number) : number := add x (neg y).

Definition mul (x y : number) : number :=
  match x, y with
  | NaN, _ | _, NaN => NaN
  | Infinity s, Infinity t => Infinity (xorb s t)
  | Infinity s, Num q | Num q, Infinity s =>
      if Qis_zero q then NaN else Infinity (xorb s (Qis_neg q))
  | Num p, Num q => Num (p * q)
  end.

Definition div (x y : number) : number :=
  match x, y with
  | NaN, _ | _, NaN => NaN
  | Infinity _, Infinity _ => NaN
  | Infinity s, Num q => Infinity (xorb s (Qis_neg q))
  | Num _, Infinity _ => Num 0
  | Num p, Num q =>
      if Qis_zero q
      then (if Qis_zero p then NaN else Infinity (Qis_neg p))
      else Num (p / q)
  end.

(** [x < y]: false as soon as one side is [NaN]. *)
Definition lt (x y : number) : bool :=
  match x, y with
  | NaN, _ | _, NaN => false
  | Infinity s, Infinity t => s && negb t
  | Infinity s, Num _ => s
  | Num _, Infinity t => negb t
  | Num p, Num q => negb (Qle_bool q p)
  end.

(** [x <= y] *)
Definition le (x y : number) : bool :=
  match x, y with
  | NaN, _ | _, NaN => false
  | Infinity s, Infinity t => s || negb t
  | Infinity s, Num _ => s
  | Num _, Infinity t => negb t
  | Num p, Num q => Qle_bool p q
  end.

(** [Math.min] and [Math.max] of two arguments. *)
Definition min (x y : number) : number :=
  match x, y with
  | NaN, _ | _, NaN => NaN
  | _, _ => if lt y x then y else x
  end.

Definition max (x y : number) : number :=
  match x, y with
  | NaN, _ | _, NaN => NaN
  | _, _ => if lt x y then y else x
  end.

(** Same numeric value (used to state results up to the representation
    of a rational). *)
Definition same (x y : number) : Prop :=
  match x, y with
  | NaN, NaN => True
  | Infinity s, Infinity t => s = t
  | Num p, Num q => p == q
  | _, _ => False
  end.

(** A property that may be [undefined]: [v || d]. *)
Definition or_default (v : option number) (d : number) : number :=
  match v with
  | Some x => if truthy x then x else d
  | None => d
  end.

(** [v || undefined]. *)
Definition or_undefined (v : option number) : option number :=
  match v with
  | Some x => if truthy x then Some x else None
  | None => None
  end.

Definition truthy_opt (v : option number) : bool :=
  match v with Some x => truthy x | None => false end.

(** ** Strings *)

Definition str_or (s : option string) (d : string) : string :=
  match s with
  | Some (String c r) => String c r
  | _ => d
  end.

Definition str_or_undefined (s : option string) : option string :=
  match s with
  | Some (String c r) => Some (String c r)
  | _ => None
  end.

Definition is_letter (c : ascii) : bool :=
  let n := nat_of_ascii c in
  ((65 <=? n) && (n <=? 90) || (97 <=? n) && (n <=? 122))%nat.

Definition is_digit (c : ascii) : bool :=
  let n := nat_of_ascii c in ((48 <=? n) && (n <=? 57))%nat.

(** White space recognised by [trim] and by [Number]: TAB, LF, VT, FF, CR
    and the space. *)
Definition is_space (c : ascii) : bool :=
  let n := nat_of_ascii c in ((9 <=? n) && (n <=? 13) || (n =? 32))%nat.

Fixpoint trim_start (s : string) : string :=
  match s with
  | String c r => if is_space c then trim_start r else s
  | EmptyString => EmptyString
  end.

Fixpoint str_rev_onto (s acc : string) : string :=
  match s with
  | String c r => str_rev_onto r (String c acc)
  | EmptyString => acc
  end.

Definition str_rev (s : string) : string := str_rev_onto s EmptyString.

Definition trim (s : string) : string :=
  str_rev (trim_start (str_rev (trim_start s))).

(** [s.split(sep)] for a non-empty separator: cut at every leftmost,
    non-overlapping occurrence.  [skip] counts the characters of a
    separator still to be dropped, [cur] is the piece being read, reversed. *)
Fixpoint split_go (sep s : string) (skip : nat) (cur : string) : list string :=
  match s with
  | EmptyString => [str_rev cur]
  | String c r =>
      match skip with
      | S k => split_go sep r k cur
      | O =>
          if String.prefix sep s
          then str_rev cur :: split_go sep r (String.length sep - 1) EmptyString
          else split_go sep r O (String c cur)
      end
  end.

Definition split (sep s : string) : list string := split_go sep s O EmptyString.

(** ** [Number(s)]

    The numeric string grammar: optional white space around an optionally
    signed decimal literal (digits with an optional fraction and an
    optional exponent, or [Infinity]) or an unsigned binary, octal or
    hexadecimal integer; the empty string is [0]; anything else is [NaN]. *)

Definition digit_value (radix : Z) (c : ascii) : option Z :=
  let n := Z.of_nat (nat_of_ascii c) in
  let v := if is_digit c then Some (n - 48)%Z
           else if ((97 <=? n) && (n <=? 102))%Z then Some (n - 87)%Z
           else if ((65 <=? n) && (n <=? 70))%Z then Some (n - 55)%Z
           else None in
  match v with
  | Some d => if (d <? radix)%Z then Some d else None
  | None => None
  end.

(** The value of a string of digits in the given radix; [acc] is the value
    read so far. *)
Fixpoint digits_value (radix : Z) (s : string) (acc : Z) : option Z :=
  match s with
  | EmptyString => Some acc
  | String c r =>
      match digit_value radix c with
      | Some d => digits_value radix r (radix * acc + d)%Z
      | None => None
      end
  end.

Definition nonempty_digits (radix : Z) (s : string) : option Z :=
  match s with
  | EmptyString => None
  | _ => digits_value radix s 0
  end.

(** Splits at the first character satisfying [p], which is dropped. *)
Fixpoint cut_at (p : ascii -> bool) (s : string) : string * option string :=
  match s with
  | EmptyString => (EmptyString, None)
  | String c r =>
      if p c then (EmptyString, Some r)
      else let '(i, f) := cut_at p r in (String c i, f)
  end.

(** Digits with an optional fraction, at least one digit in all. *)
Definition mantissa (s : string) : option Q :=
  let '(i, f) := cut_at (fun c => Ascii.eqb c ".") s in
  let f := match f with Some f => f | None => EmptyString end in
  match i, f with
  | EmptyString, EmptyString => None
  | _, _ =>
      match digits_value 10 i 0, digits_value 10 f 0 with
      | Some iv, Some fv =>
          let scale := (10 ^ Z.of_nat (String.length f))%Z in
          Some (Qmake (iv * scale + fv) (Z.to_pos scale))
      | _, _ => None
      end
  end.

(** An optionally signed, non-empty string of decimal digits. *)
Definition exponent (s : string) : option Z :=
  match s with
  | String c r =>
      if Ascii.eqb c "-" then option_map Z.opp (nonempty_digits 10 r)
      else if Ascii.eqb c "+" then nonempty_digits 10 r
      else nonempty_digits 10 s
  | EmptyString => None
  end.

Definition unsigned_decimal (s : string) : option number :=
  if String.eqb s "Infinity" then Some (Infinity false)
  else
    let '(m, e) := cut_at (fun c => Ascii.eqb c "e" || Ascii.eqb c "E") s in
    match mantissa m, e with
    | Some q, None => Some (Num (Qred q))
    | Some q, Some e =>
        match exponent e with
        | Some k => Some (Num (Qred (q * Qpower 10 k)))
        | None => None
        end
    | None, _ => None
    end.

Definition non_decimal (s : string) : option number :=
  match s with
  | String "0" (String c r) =>
      let radix :=
        if Ascii.eqb c "x" || Ascii.eqb c "X" then Some 16%Z
        else if Ascii.eqb c "o" || Ascii.eqb c "O" then Some 8%Z
        else if Ascii.eqb c "b" || Ascii.eqb c "B" then Some 2%Z
        else None in
      match radix with
      | Some radix =>
          match nonempty_digits radix r with
          | Some v => Some (Num (inject_Z v))
          | None => None
          end
      | None => None
      end
  | _ => None
  end.

Definition Number (s : string) : number :=
  match trim s with
  | EmptyString => Num 0
  | String c r =>
      match non_decimal (String c r) with
      | Some v => v
      | None =>
          let signed :=
            if Ascii.eqb c "-" then option_map neg (unsigned_decimal r)
            else if Ascii.eqb c "+" then unsigned_decimal r
            else unsigned_decimal (String c r) in
          match signed with
          | Some (Num q) => Num (Qred q)
          | Some v => v
          | None => NaN
          end
      end
  end.

(** [Number(args[i])]: a missing element is [undefined], hence [NaN]. *)
Definition arg (args : list string) (i : nat) : number :=
  match nth_error args i with
  | Some s => Number s
  | None => NaN
  end.

End JS.

Declare Scope js_scope.
Delimit Scope js_scope with js.
Infix "+" := JS.add : js_scope.
Infix "-" := JS.sub : js_scope.
Infix "*" := JS.mul : js_scope.
Infix "/" := JS.div : js_scope.
Infix "<" := JS.lt : js_scope.
Infix "<=" := JS.le : js_scope.

Export JS (number, NaN, Infinity, Num).

(** ** The movie model, as far as the renderer reads it *)

Module Transform.
Record t := mk { a : option number; b : option number; c : option number;
                 d : option number; tx : option number; ty : option number }.
End Transform.

Module Layout.
Record t := mk { x : number; y : number; width : number; height : number }.
End Layout.

Module RGBA.
Record t := mk { r : number; g : number; b : number; a : number }.
End RGBA.

(** [IParseStyles] *)
Module Styles.
Record t := mk {
  fill : option RGBA.t;
  stroke : option RGBA.t;
  fillStr : option string;
  strokeStr : option string;
  strokeWidth : option number;
  lineCapStr : option string;
  lineJoinStr : option string;
  miterLimit : option number;
  lineDashI : option number;
  lineDashII : option number;
  lineDashIII : option number }.
End Styles.

Module ShapeType.
Inductive t := SHAPE | RECT | ELLIPSE | KEEP.
End ShapeType.

Module ShapeArgs.
Record t := mk { d : option string }.
End ShapeArgs.

Module RectArgs.
Record t := mk { x : option number; y : option number;
                 width : option number; height : option number;
                 cornerRadius : option number }.
End RectArgs.

Module EllipseArgs.
Record t := mk { x : option number; y : option number;
                 radiusX : option number; radiusY : option number }.
End EllipseArgs.

Module ShapeEntity.
Record t := mk {
  type : ShapeType.t;
  shape : option ShapeArgs.t;
  rect : option RectArgs.t;
  ellipse : option EllipseArgs.t;
  transform : option Transform.t;
  styles : option Styles.t }.
End ShapeEntity.

Module FrameEntity.
Record t := mk {
  alpha : number;
  transform : Transform.t;
  layout : Layout.t;
  clipPath : option string;
  shapes : option (list ShapeEntity.t) }.
End FrameEntity.

Module SpriteEntity.
Record t := mk { imageKey : option string; frames : list FrameEntity.t }.
End SpriteEntity.

Module VideoEntity.
Record t := mk { sprites : list SpriteEntity.t }.
End VideoEntity.

(** [IBezierPath], [EllipsePath], [RectPath]: plain holders of the
    constructor arguments. *)
Module BezierPath.
Record t := mk { _d : string;
                 _transform : option Transform.t;
                 _styles : option Styles.t }.
End BezierPath.

Module EllipsePath.
Record t := mk { _x : number; _y : number; _radiusX : number; _radiusY : number;
                 _transform : option Transform.t;
                 _styles : option Styles.t }.
End EllipsePath.

Module RectPath.
Record t := mk { _x : number; _y : number; _width : number; _height : number;
                 _cornerRadius : number;
                 _transform : option Transform.t;
                 _styles : option Styles.t }.
End RectPath.

(** What [drawImage] accepts.  The constructor records which of the
    [instanceof] tests of [render] the object passes and the two numbers
    that test makes [render] read; [handle] tells objects apart. *)
Inductive CanvasImageSource :=
| HTMLImageElement (handle : string) (naturalWidth naturalHeight : number)
| HTMLVideoElement (handle : string) (videoWidth videoHeight : number)
| SVGImageElement (handle : string) (width_baseVal height_baseVal : number)
| OtherSource (handle : string) (width height : number).

(** [DynamicElement]: a bare drawable, or an object with a [fit] property. *)
Inductive DynamicElement :=
| Bare (source : CanvasImageSource)
| WithFit (source : CanvasImageSource) (fit : option string).

(** ** The 2D context: the calls it receives *)

Module Ctx.
Inductive call :=
| save
| restore
| set_globalAlpha (v : number)
| transform (a b c d e f : number)
| clip
| drawImage3 (image : CanvasImageSource) (dx dy : number)
| drawImage5 (image : CanvasImageSource) (dx dy dw dh : number)
| set_strokeStyle (v : string)
| set_lineWidth (v : option number)
| set_lineCap (v : option string)
| set_lineJoin (v : option string)
| set_miterLimit (v : option number)
| set_fillStyle (v : string)
| setLineDash (segments : list number)
| beginPath
| moveTo (x y : number)
| lineTo (x y : number)
| bezierCurveTo (cp1x cp1y cp2x cp2y x y : number)
| quadraticCurveTo (cpx cpy x y : number)
| arcTo (x1 y1 x2 y2 radius : number)
| closePath
| fill
| stroke.
End Ctx.

Inductive exn := TypeError (message : string).

(** Calls issued so far, and either the exception that stopped the
    computation or its value. *)
Definition Draw (A : Type) : Type := (list Ctx.call * (exn + A))%type.

#[global] Instance Draw_ret : MRet Draw := fun A x => ([], inr x).

#[global] Instance Draw_bind : MBind Draw := fun A B f m =>
  match m with
  | (t, inl e) => (t, inl e)
  | (t, inr x) => let '(t', r) := f x in (t ++ t', r)
  end.

#[global] Instance Draw_throw : MThrow exn Draw := fun A e => ([], inl e).

(** A call on the context, taken to return.  A context that throws on a
    call stops the script there; [executed] cuts the calls at that point. *)
Definition emit (c : Ctx.call) : Draw unit := ([c], inr tt).

Definition calls {A} (m : Draw A) : list Ctx.call := fst m.
Definition completion {A} (m : Draw A) : exn + A := snd m.

(** [list.forEach(f)] *)
Fixpoint forEach {A} (l : list A) (f : A -> Draw unit) : Draw unit :=
  match l with
  | [] => mret tt
  | x :: r => f x ;; forEach r f
  end.

Definition skip : Draw unit := mret tt.

(** ** The renderer *)

Local Open Scope js_scope.

Definition validMethods : string := "MLHVCSQRZmlhvcsqrz".

(** [validMethods.indexOf(firstLetter) >= 0] for a one-character string. *)
Fixpoint indexOf_ge_0 (s : string) (c : ascii) : bool :=
  match s with
  | EmptyString => false
  | String c' r => Ascii.eqb c' c || indexOf_ge_0 r c
  end.

(** [context.transform(t.a || 1, t.b || 0, t.c || 0, t.d || 1, t.tx || 0,
    t.ty || 0)]: the call of lines 35-42, 205-212, 420-427 and 468-475. *)
Definition context_transform (t : Transform.t) : Draw unit :=
  emit (Ctx.transform
          (JS.or_default (Transform.a t) (Num 1))
          (JS.or_default (Transform.b t) (Num 0))
          (JS.or_default (Transform.c t) (Num 0))
          (JS.or_default (Transform.d t) (Num 1))
          (JS.or_default (Transform.tx t) (Num 0))
          (JS.or_default (Transform.ty t) (Num 0))).

Definition resetShapeStyles (styles : Styles.t) : Draw unit :=
  emit (Ctx.set_strokeStyle (JS.str_or (Styles.strokeStr styles) "transparent")) ;;
  emit (Ctx.set_lineWidth (JS.or_undefined (Styles.strokeWidth styles))) ;;
  emit (Ctx.set_lineCap (JS.str_or_undefined (Styles.lineCapStr styles))) ;;
  emit (Ctx.set_lineJoin (JS.str_or_undefined (Styles.lineJoinStr styles))) ;;
  emit (Ctx.set_miterLimit (JS.or_undefined (Styles.miterLimit styles))) ;;
  emit (Ctx.set_fillStyle (JS.str_or (Styles.fillStr styles) "transparent")) ;;
  if JS.truthy_opt (Styles.lineDashI styles)
     || JS.truthy_opt (Styles.lineDashII styles)
     || JS.truthy_opt (Styles.lineDashIII styles)
  then emit (Ctx.setLineDash [JS.or_default (Styles.lineDashI styles) (Num 0);
                              JS.or_default (Styles.lineDashII styles) (Num 0);
                              JS.or_default (Styles.lineDashIII styles) (Num 0)])
  else skip.

(** [obj._styles && resetShapeStyles(context, obj._styles)] *)
Definition resetShapeStyles_if (styles : option Styles.t) : Draw unit :=
  match styles with
  | Some st => resetShapeStyles st
  | None => skip
  end.

(** The closing test of the three drawing functions (lines 230-234,
    453-457, 501-505). *)
Definition fill_or_stroke (styles : option Styles.t) : Draw unit :=
  match styles with
  | Some st =>
      match Styles.fill st with
      | Some _ => emit Ctx.fill
      | None =>
          match Styles.stroke st with
          | Some _ => emit Ctx.stroke
          | None => skip
          end
      end
  | None => skip
  end.

Module CurrentPoint.
Record t := mk { x : number; y : number;
                 x1 : number; y1 : number; x2 : number; y2 : number }.
Definition zero : t := mk (Num 0) (Num 0) (Num 0) (Num 0) (Num 0) (Num 0).
End CurrentPoint.

(** The guard of the [S] and [s] cases. *)
Definition has_control_points (p : CurrentPoint.t) : bool :=
  JS.truthy (CurrentPoint.x1 p) && JS.truthy (CurrentPoint.y1 p)
  && JS.truthy (CurrentPoint.x2 p) && JS.truthy (CurrentPoint.y2 p).

(** Returns the updated [currentPoint]. *)
Definition drawBezierElement (currentPoint : CurrentPoint.t) (method : ascii)
    (args : list string) : Draw CurrentPoint.t :=
  let 'CurrentPoint.mk x y x1 y1 x2 y2 := currentPoint in
  let n := JS.arg args in
  let move x y := emit (Ctx.moveTo x y) ;; mret (CurrentPoint.mk x y x1 y1 x2 y2) in
  let line x y := emit (Ctx.lineTo x y) ;; mret (CurrentPoint.mk x y x1 y1 x2 y2) in
  let cubic x1 y1 x2 y2 x y :=
    emit (Ctx.bezierCurveTo x1 y1 x2 y2 x y) ;; mret (CurrentPoint.mk x y x1 y1 x2 y2) in
  let quadratic x1 y1 x y :=
    emit (Ctx.quadraticCurveTo x1 y1 x y) ;; mret (CurrentPoint.mk x y x1 y1 x2 y2) in
  if Ascii.eqb method "M" then move (n 0%nat) (n 1%nat)
  else if Ascii.eqb method "m" then move (x + n 0%nat) (y + n 1%nat)
  else if Ascii.eqb method "L" then line (n 0%nat) (n 1%nat)
  else if Ascii.eqb method "l" then line (x + n 0%nat) (y + n 1%nat)
  else if Ascii.eqb method "H" then line (n 0%nat) y
  else if Ascii.eqb method "h" then line (x + n 0%nat) y
  else if Ascii.eqb method "V" then line x (n 0%nat)
  else if Ascii.eqb method "v" then line x (y + n 0%nat)
  else if Ascii.eqb method "C" then
    cubic (n 0%nat) (n 1%nat) (n 2%nat) (n 3%nat) (n 4%nat) (n 5%nat)
  else if Ascii.eqb method "c" then
    cubic (x + n 0%nat) (y + n 1%nat) (x + n 2%nat) (y + n 3%nat)
          (x + n 4%nat) (y + n 5%nat)
  else if Ascii.eqb method "S" then
    if has_control_points currentPoint
    then cubic (x - x2 + x) (y - y2 + y) (n 0%nat) (n 1%nat) (n 2%nat) (n 3%nat)
    else quadratic (n 0%nat) (n 1%nat) (n 2%nat) (n 3%nat)
  else if Ascii.eqb method "s" then
    if has_control_points currentPoint
    then cubic (x - x2 + x) (y - y2 + y) (x + n 0%nat) (y + n 1%nat)
               (x + n 2%nat) (y + n 3%nat)
    else quadratic (x + n 0%nat) (y + n 1%nat) (x + n 2%nat) (y + n 3%nat)
  else if Ascii.eqb method "Q" then
    quadratic (n 0%nat) (n 1%nat) (n 2%nat) (n 3%nat)
  else if Ascii.eqb method "q" then
    quadratic (x + n 0%nat) (y + n 1%nat) (x + n 2%nat) (y + n 3%nat)
  else if Ascii.eqb method "A" then mret currentPoint
  else if Ascii.eqb method "a" then mret currentPoint
  else if Ascii.eqb method "Z" || Ascii.eqb method "z" then
    emit Ctx.closePath ;; mret currentPoint
  else mret currentPoint.

(** [.replace(/([a-zA-Z])/g, '|||$1 ')] *)
Fixpoint mark_letters (s : string) : string :=
  match s with
  | EmptyString => EmptyString
  | String c r =>
      if JS.is_letter c
      then String "|" (String "|" (String "|" (String c (String " " (mark_letters r)))))
      else String c (mark_letters r)
  end.

(** [.replace(/,/g, ' ')] *)
Fixpoint commas_to_spaces (s : string) : string :=
  match s with
  | EmptyString => EmptyString
  | String c r => String (if Ascii.eqb c "," then " "%char else c) (commas_to_spaces r)
  end.

(** The callback of [d.split('|||').forEach], with [currentPoint] threaded:
    [firstLetter] is [segment.substr(0, 1)] and [rest] is
    [segment.substr(1)]. *)
Definition drawSegment (currentPoint : CurrentPoint.t) (segment : string)
    : Draw CurrentPoint.t :=
  match segment with
  | EmptyString => mret currentPoint
  | String firstLetter rest =>
      if indexOf_ge_0 validMethods firstLetter
      then
        let args := JS.split " " (JS.trim rest) in
        drawBezierElement currentPoint firstLetter args
      else mret currentPoint
  end.

Fixpoint drawSegments (currentPoint : CurrentPoint.t) (segments : list string)
    : Draw CurrentPoint.t :=
  match segments with
  | [] => mret currentPoint
  | segment :: rest =>
      p ← drawSegment currentPoint segment; drawSegments p rest
  end.

Definition drawBezier (obj : BezierPath.t) : Draw unit :=
  emit Ctx.save ;;
  resetShapeStyles_if (BezierPath._styles obj) ;;
  match BezierPath._transform obj with
  | Some t => context_transform t
  | None => skip
  end ;;
  emit Ctx.beginPath ;;
  let d := commas_to_spaces (mark_letters (BezierPath._d obj)) in
  drawSegments CurrentPoint.zero (JS.split "|||" d) ;;
  fill_or_stroke (BezierPath._styles obj) ;;
  emit Ctx.restore.

Definition kappa : number := Num 0.5522848.

Definition drawEllipse (obj : EllipsePath.t) : Draw unit :=
  emit Ctx.save ;;
  resetShapeStyles_if (EllipsePath._styles obj) ;;
  match EllipsePath._transform obj with
  | Some t => context_transform t
  | None => skip
  end ;;
  let x := EllipsePath._x obj - EllipsePath._radiusX obj in
  let y := EllipsePath._y obj - EllipsePath._radiusY obj in
  let w := EllipsePath._radiusX obj * Num 2 in
  let h := EllipsePath._radiusY obj * Num 2 in
  let ox := (w / Num 2) * kappa in
  let oy := (h / Num 2) * kappa in
  let xe := x + w in
  let ye := y + h in
  let xm := x + w / Num 2 in
  let ym := y + h / Num 2 in
  emit Ctx.beginPath ;;
  emit (Ctx.moveTo x ym) ;;
  emit (Ctx.bezierCurveTo x (ym - oy) (xm - ox) y xm y) ;;
  emit (Ctx.bezierCurveTo (xm + ox) y xe (ym - oy) xe ym) ;;
  emit (Ctx.bezierCurveTo xe (ym + oy) (xm + ox) ye xm ye) ;;
  emit (Ctx.bezierCurveTo (xm - ox) ye x (ym + oy) x ym) ;;
  fill_or_stroke (EllipsePath._styles obj) ;;
  emit Ctx.restore.

(** The radius [drawRect] passes to [arcTo] (lines 482-490). *)
Definition effective_radius (width height cornerRadius : number) : number :=
  let radius := cornerRadius in
  let radius := if width < Num 2 * radius then width / Num 2 else radius in
  let radius := if height < Num 2 * radius then height / Num 2 else radius in
  radius.

Definition drawRect (obj : RectPath.t) : Draw unit :=
  emit Ctx.save ;;
  resetShapeStyles_if (RectPath._styles obj) ;;
  match RectPath._transform obj with
  | Some t => context_transform t
  | None => skip
  end ;;
  let x := RectPath._x obj in
  let y := RectPath._y obj in
  let width := RectPath._width obj in
  let height := RectPath._height obj in
  let radius := effective_radius width height (RectPath._cornerRadius obj) in
  emit Ctx.beginPath ;;
  emit (Ctx.moveTo (x + radius) y) ;;
  emit (Ctx.arcTo (x + width) y (x + width) (y + height) radius) ;;
  emit (Ctx.arcTo (x + width) (y + height) x (y + height) radius) ;;
  emit (Ctx.arcTo x (y + height) x y radius) ;;
  emit (Ctx.arcTo x y (x + width) y radius) ;;
  emit Ctx.closePath ;;
  fill_or_stroke (RectPath._styles obj) ;;
  emit Ctx.restore.

(** [key && dict[key]] on the own keys of [dict]: an absent or empty key
    finds nothing.  Properties that a plain object inherits from its
    prototype are not seen here; [find_key] sees them. *)
Definition lookup_key {V} (key : option string) (dict : gmap string V) : option V :=
  match key with
  | Some (String c r) => dict !! String c r
  | _ => None
  end.

(** The source and the fit of a dynamic element (lines 57-60). *)
Definition source_and_fit (dynamicElement : DynamicElement)
    : CanvasImageSource * option string :=
  match dynamicElement with
  | WithFit source fit => (source, fit)
  | Bare source => (source, Some "none")
  end.

(** [sourceWidth] and [sourceHeight] (lines 61-74). *)
Definition source_size (source : CanvasImageSource) : number * number :=
  match source with
  | HTMLImageElement _ naturalWidth naturalHeight => (naturalWidth, naturalHeight)
  | HTMLVideoElement _ videoWidth videoHeight => (videoWidth, videoHeight)
  | SVGImageElement _ w h => (w, h)
  | OtherSource _ width height => (width, height)
  end.

Definition fit_is (fit : option string) (name : string) : bool :=
  match fit with
  | Some s => String.eqb s name
  | None => false
  end.

(** Lines 56-125, once the dynamic element has been found. *)
Definition drawDynamicElement (layout : Layout.t) (dynamicElement : DynamicElement)
    : Draw unit :=
  let '(source, fit) := source_and_fit dynamicElement in
  let '(sourceWidth, sourceHeight) := source_size source in
  if fit_is fit "contain" then
    let wRatio := Layout.width layout / sourceWidth in
    let hRatio := Layout.height layout / sourceHeight in
    let ratio := JS.min wRatio hRatio in
    let width := ratio * sourceWidth in
    let height := ratio * sourceHeight in
    emit (Ctx.drawImage5 source
            ((Layout.width layout - width) / Num 2)
            ((Layout.height layout - height) / Num 2)
            width height)
  else if fit_is fit "cover" then
    let wRatio := Layout.width layout / sourceWidth in
    let hRatio := Layout.height layout / sourceHeight in
    let ratio := JS.max wRatio hRatio in
    let width := ratio * sourceWidth in
    let height := ratio * sourceHeight in
    emit (Ctx.drawImage5 source
            ((Layout.width layout - width) / Num 2)
            ((Layout.height layout - height) / Num 2)
            width height)
  else if fit_is fit "fill" then
    emit (Ctx.drawImage5 source (Num 0) (Num 0)
            (Layout.width layout) (Layout.height layout))
  else
    emit (Ctx.drawImage3 source
            ((Layout.width layout - sourceWidth) / Num 2)
            ((Layout.height layout - sourceHeight) / Num 2)).

(** The callback of [frameItem.shapes.forEach] (lines 128-171). *)
Definition drawShape (shape : ShapeEntity.t) : Draw unit :=
  let transform := ShapeEntity.transform shape in
  let styles := ShapeEntity.styles shape in
  match ShapeEntity.type shape, ShapeEntity.shape shape,
        ShapeEntity.ellipse shape, ShapeEntity.rect shape with
  | ShapeType.SHAPE, Some {| ShapeArgs.d := Some (String c r) |}, _, _ =>
      drawBezier (BezierPath.mk (String c r) transform styles)
  | ShapeType.ELLIPSE, _, Some e, _ =>
      drawEllipse
        (EllipsePath.mk
           (JS.or_default (EllipseArgs.x e) (Num 0))
           (JS.or_default (EllipseArgs.y e) (Num 0))
           (JS.or_default (EllipseArgs.radiusX e) (Num 0))
           (JS.or_default (EllipseArgs.radiusY e) (Num 0))
           transform styles)
  | ShapeType.RECT, _, _, Some r =>
      drawRect
        (RectPath.mk
           (JS.or_default (RectArgs.x r) (Num 0))
           (JS.or_default (RectArgs.y r) (Num 0))
           (JS.or_default (RectArgs.width r) (Num 0))
           (JS.or_default (RectArgs.height r) (Num 0))
           (JS.or_default (RectArgs.cornerRadius r) (Num 0))
           transform styles)
  | _, _, _, _ => skip
  end.

(** Lines 44-53: the bitmap of the sprite, under its clip path. *)
Definition drawBitmap (frameItem : FrameEntity.t) (img : option CanvasImageSource)
    : Draw unit :=
  match img with
  | Some img =>
      match FrameEntity.clipPath frameItem with
      | Some (String c r) =>
          drawBezier (BezierPath.mk (String c r) None None) ;;
          emit Ctx.clip
      | _ => skip
      end ;;
      emit (Ctx.drawImage3 img (Num 0) (Num 0))
  | None => skip
  end.

(** The callback of [videoItem.sprites.forEach] (lines 26-173);
    [currentFrame] is an index into [sprite.frames].  Reading [alpha] off
    a frame that does not exist raises a [TypeError]. *)
Definition renderSprite (bitmapCache : gmap string CanvasImageSource)
    (dynamicElements : gmap string DynamicElement) (currentFrame : nat)
    (sprite : SpriteEntity.t) : Draw unit :=
  match nth_error (SpriteEntity.frames sprite) currentFrame with
  | None => mthrow (TypeError "Cannot read properties of undefined (reading 'alpha')")
  | Some frameItem =>
      if FrameEntity.alpha frameItem < Num 0.05 then skip
      else
        emit Ctx.save ;;
        emit (Ctx.set_globalAlpha (FrameEntity.alpha frameItem)) ;;
        context_transform (FrameEntity.transform frameItem) ;;
        drawBitmap frameItem (lookup_key (SpriteEntity.imageKey sprite) bitmapCache) ;;
        match lookup_key (SpriteEntity.imageKey sprite) dynamicElements with
        | Some dynamicElement =>
            drawDynamicElement (FrameEntity.layout frameItem) dynamicElement
        | None => skip
        end ;;
        match FrameEntity.shapes frameItem with
        | Some shapes => forEach shapes drawShape
        | None => skip
        end ;;
        emit Ctx.restore
  end.

(** A canvas: what [getContext('2d')] yields, [None] for [null], otherwise
    the context, identified with the calls it has received. *)
Module Canvas.
Record t := mk { context2d : option (list Ctx.call) }.
End Canvas.

(** What a call of [render] leaves behind: the returned canvas (absent
    when [render] throws), the canvas object after the call, and the lines
    written with [console.error]. *)
Module Rendered.
Record t := mk {
  returned : exn + Canvas.t;
  canvas : Canvas.t;
  console_error : list string }.
End Rendered.

Definition render (canvas : Canvas.t) (bitmapCache : gmap string CanvasImageSource)
    (dynamicElements : gmap string DynamicElement) (videoItem : VideoEntity.t)
    (currentFrame : nat) : Rendered.t :=
  match Canvas.context2d canvas with
  | None =>
      Rendered.mk (inr canvas) canvas ["svga render fail, 2d context null"]
  | Some received =>
      let run := forEach (VideoEntity.sprites videoItem)
                         (renderSprite bitmapCache dynamicElements currentFrame) in
      let canvas' := Canvas.mk (Some (received ++ calls run)) in
      Rendered.mk
        (match completion run with inl e => inl e | inr _ => inr canvas' end)
        canvas' []
  end.

(** The calls [render] issues when the canvas has a context. *)
Definition render_calls (bitmapCache : gmap string CanvasImageSource)
    (dynamicElements : gmap string DynamicElement) (videoItem : VideoEntity.t)
    (currentFrame : nat) : list Ctx.call :=
  calls (forEach (VideoEntity.sprites videoItem)
                 (renderSprite bitmapCache dynamicElements currentFrame)).

(** ** The drawing state of the surface

    [render] only issues calls; what they do is up to the 2D context.  To
    speak about scoping, the discipline every 2D context follows is made
    explicit: [save] pushes the drawing state and [restore] pops it; the
    clipping region belongs to the drawing state, the current path does
    not (which is what lets [render] build the clip path inside
    [drawBezier]'s own [save] ... [restore] and call [clip] after it);
    [clip] narrows the clipping region by the current path.  A clipping
    region is kept as the list of the paths that [clip] has intersected,
    newest first, and every painting call is recorded with the region in
    force when it is issued. *)

Module Surface.

Definition path_t := list Ctx.call.
Definition region := list path_t.

Record t := mk {
  clips : region;
  saved : list region;
  path : path_t;
  painted : list (Ctx.call * region) }.

Definition init : t := mk [] [] [] [].

Definition builds_path (c : Ctx.call) : bool :=
  match c with
  | Ctx.moveTo _ _ | Ctx.lineTo _ _ | Ctx.bezierCurveTo _ _ _ _ _ _
  | Ctx.quadraticCurveTo _ _ _ _ | Ctx.arcTo _ _ _ _ _ | Ctx.closePath => true
  | _ => false
  end.

Definition paints (c : Ctx.call) : bool :=
  match c with
  | Ctx.fill | Ctx.stroke | Ctx.drawImage3 _ _ _ | Ctx.drawImage5 _ _ _ _ _ => true
  | _ => false
  end.

Definition step (s : t) (c : Ctx.call) : t :=
  match c with
  | Ctx.save => mk (clips s) (clips s :: saved s) (path s) (painted s)
  | Ctx.restore =>
      match saved s with
      | top :: rest => mk top rest (path s) (painted s)
      | [] => s
      end
  | Ctx.clip => mk (path s :: clips s) (saved s) (path s) (painted s)
  | Ctx.beginPath => mk (clips s) (saved s) [] (painted s)
  | _ =>
      if builds_path c
      then mk (clips s) (saved s) (path s ++ [c]) (painted s)
      else if paints c
      then mk (clips s) (saved s) (path s) (painted s ++ [(c, clips s)])
      else s
  end.

Definition run (s : t) (cs : list Ctx.call) : t := fold_left step cs s.

(** Calls that leave the stack of drawing states and the clipping
    region alone. *)
Definition flat (c : Ctx.call) : bool :=
  match c with
  | Ctx.save | Ctx.restore | Ctx.clip => false
  | _ => true
  end.

(** A run of calls that leaves the clipping region and the stack of
    saved states as it found them, and paints under the region it found. *)
Definition transparent (cs : list Ctx.call) : Prop :=
  forall s,
    clips (run s cs) = clips s /\
    saved (run s cs) = saved s /\
    painted (run s cs) =
      painted s ++ List.map (fun c => (c, clips s)) (List.filter paints cs).

End Surface.

(** ** Predicates on calls used in the statements *)

Definition is_fill_or_stroke (c : Ctx.call) : bool :=
  match c with
  | Ctx.fill | Ctx.stroke => true
  | _ => false
  end.

(** A [transform] call whose [a] and [d] are numbers other than zero. *)
Definition transform_ok (c : Ctx.call) : bool :=
  match c with
  | Ctx.transform a _ _ d _ _ => JS.truthy a && JS.truthy d
  | _ => true
  end.

(** The calls that draw the shapes of a frame. *)
Definition shapes_calls (frameItem : FrameEntity.t) : list Ctx.call :=
  match FrameEntity.shapes frameItem with
  | Some shapes => calls (forEach shapes drawShape)
  | None => []
  end.

(** The path calls of a clip path: what [drawBezier] issues between
    [beginPath] and [restore] for a path without styles. *)
Definition path_calls (d : string) : list Ctx.call :=
  calls (drawSegments CurrentPoint.zero
           (JS.split "|||" (commas_to_spaces (mark_letters d)))).

(** Assignments to the style properties of the context. *)
Definition sets_style (c : Ctx.call) : bool :=
  match c with
  | Ctx.set_strokeStyle _ | Ctx.set_lineWidth _ | Ctx.set_lineCap _
  | Ctx.set_lineJoin _ | Ctx.set_miterLimit _ | Ctx.set_fillStyle _
  | Ctx.setLineDash _ => true
  | _ => false
  end.

(** The calls of the optional [context.transform] of a shape. *)
Definition transform_calls (t : option Transform.t) : list Ctx.call :=
  match t with
  | Some t => calls (context_transform t)
  | None => []
  end.

(** What the closing test of a drawing function issues. *)
Definition paint_calls (styles : option Styles.t) : list Ctx.call :=
  calls (fill_or_stroke styles).

(** The calls that draw the dynamic element of a sprite, if it has one. *)
Definition override_calls (dynamicElements : gmap string DynamicElement)
    (sprite : SpriteEntity.t) (frameItem : FrameEntity.t) : list Ctx.call :=
  match lookup_key (SpriteEntity.imageKey sprite) dynamicElements with
  | Some dynamicElement =>
      calls (drawDynamicElement (FrameEntity.layout frameItem) dynamicElement)
  | None => []
  end.

(** The calls that blit the cached bitmap of a sprite, if it has one. *)
Definition bitmap_calls (bitmapCache : gmap string CanvasImageSource)
    (sprite : SpriteEntity.t) (frameItem : FrameEntity.t) : list Ctx.call :=
  calls (drawBitmap frameItem (lookup_key (SpriteEntity.imageKey sprite) bitmapCache)).

Definition without_clipPath (frameItem : FrameEntity.t) : FrameEntity.t :=
  FrameEntity.mk (FrameEntity.alpha frameItem) (FrameEntity.transform frameItem)
                 (FrameEntity.layout frameItem) None (FrameEntity.shapes frameItem).

(** ** Sample inputs *)

Module Sample.

Definition no_fields : Transform.t := Transform.mk None None None None None None.

(** A transform whose every field is present, with [a = d = 0]. *)
Definition squashed : Transform.t :=
  Transform.mk (Some (Num 0)) (Some (Num 0)) (Some (Num 0)) (Some (Num 0))
               (Some (Num 5)) (Some (Num 7)).

Definition layout : Layout.t := Layout.mk (Num 0) (Num 0) (Num 100) (Num 50).

Definition avatar : CanvasImageSource := HTMLImageElement "avatar.png" (Num 40) (Num 40).

Definition fontCanvas : CanvasImageSource := OtherSource "fontCanvas" (Num 200) (Num 30).

Definition frame (alpha : number) (transform : Transform.t) : FrameEntity.t :=
  FrameEntity.mk alpha transform layout None None.

Definition red : Styles.t :=
  Styles.mk (Some (RGBA.mk (Num 1) (Num 0) (Num 0) (Num 1))) None
            (Some "rgba(255, 0, 0, 1)") None None None None None None None None.

(** A filled square, ten by ten. *)
Definition square : ShapeEntity.t :=
  ShapeEntity.mk ShapeType.RECT None
    (Some (RectArgs.mk None None (Some (Num 10)) (Some (Num 10)) None))
    None None (Some red).

(** A frame with a triangular clip path and the filled square. *)
Definition clipped_frame : FrameEntity.t :=
  FrameEntity.mk (Num 1) no_fields layout (Some "M0 0 L4 0 L4 4 Z") (Some [square]).

(** A sprite that is invisible on frame 0, and one without a bitmap. *)
Definition hidden_sprite : SpriteEntity.t :=
  SpriteEntity.mk (Some "banner") [frame (Num 0.01) no_fields].

Definition plain_sprite : SpriteEntity.t :=
  SpriteEntity.mk None [frame (Num 1) squashed].

Definition banner_sprite : SpriteEntity.t :=
  SpriteEntity.mk (Some "banner") [frame (Num 1) no_fields].

Definition clipped_sprite : SpriteEntity.t :=
  SpriteEntity.mk (Some "banner") [clipped_frame].

Definition unclipped_sprite : SpriteEntity.t :=
  SpriteEntity.mk (Some "banner") [without_clipPath clipped_frame].

Definition bitmaps : gmap string CanvasImageSource := {[ "banner" := avatar ]}.

Definition overrides : gmap string DynamicElement := {[ "banner" := Bare fontCanvas ]}.

(** A rectangle ten by four whose declared corner radius is five. *)
Definition pill_args : RectArgs.t :=
  RectArgs.mk None None (Some (Num 10)) (Some (Num 4)) (Some (Num 5)).

Definition pill : ShapeEntity.t :=
  ShapeEntity.mk ShapeType.RECT None (Some pill_args) None None (Some red).

End Sample.

(** ** Further notions used in the statements *)

(** The sprite has a frame at the index ([sprite.frames[currentFrame]] is
    not [undefined]). *)
Definition has_frame (currentFrame : nat) (sprite : SpriteEntity.t) : bool :=
  match nth_error (SpriteEntity.frames sprite) currentFrame with
  | Some _ => true
  | None => false
  end.

(** The test of line 29 succeeds: the sprite has a frame at the index and
    its alpha is below the threshold. *)
Definition invisible (currentFrame : nat) (sprite : SpriteEntity.t) : bool :=
  match nth_error (SpriteEntity.frames sprite) currentFrame with
  | Some frameItem => FrameEntity.alpha frameItem < Num 0.05
  | None => false
  end.

(** Calls that leave the stack of saved drawing states as they found it. *)
Definition keeps_stack (cs : list Ctx.call) : Prop :=
  forall s, Surface.saved (Surface.run s cs) = Surface.saved s.

(** Calls after which both the clipping region and the stack of saved
    states are what they were. *)
Definition restores_state (cs : list Ctx.call) : Prop :=
  forall s,
    Surface.clips (Surface.run s cs) = Surface.clips s /\
    Surface.saved (Surface.run s cs) = Surface.saved s.


(** A global alpha that passed the visibility test of line 29. *)
Definition alpha_ok (c : Ctx.call) : bool :=
  match c with
  | Ctx.set_globalAlpha v => negb (v < Num 0.05)
  | _ => true
  end.

Definition is_clip (c : Ctx.call) : bool :=
  match c with Ctx.clip => true | _ => false end.

(** No ASCII letter occurs in the string. *)
Fixpoint letter_free (s : string) : bool :=
  match s with
  | EmptyString => true
  | String c r => negb (JS.is_letter c) && letter_free r
  end.

(** The shape carries the payload its type tag announces (the three
    conditions of lines 129-157). *)
Definition has_payload (shape : ShapeEntity.t) : bool :=
  match ShapeEntity.type shape with
  | ShapeType.SHAPE =>
      match ShapeEntity.shape shape with
      | Some {| ShapeArgs.d := Some (String _ _) |} => true
      | _ => false
      end
  | ShapeType.ELLIPSE =>
      match ShapeEntity.ellipse shape with Some _ => true | None => false end
  | ShapeType.RECT =>
      match ShapeEntity.rect shape with Some _ => true | None => false end
  | ShapeType.KEEP => false
  end.

(** The sprite has no usable image key: none, or the empty string. *)
Definition keyless (sprite : SpriteEntity.t) : bool :=
  match SpriteEntity.imageKey sprite with
  | Some (String _ _) => false
  | _ => true
  end.

(** No vertical bar occurs in the string. *)
Fixpoint pipe_free (s : string) : bool :=
  match s with
  | EmptyString => true
  | String c r => negb (Ascii.eqb c "|") && pipe_free r
  end.

(** Path data written as a list of commands: each command is its letter
    followed by the text of its arguments. *)
Fixpoint path_text (commands : list (ascii * string)) : string :=
  match commands with
  | [] => EmptyString
  | (letter, arguments) :: rest => String letter (arguments ++ path_text rest)
  end.

(** A command of path data: a letter, then text without letters and
    without vertical bars. *)
Definition command_ok (command : ascii * string) : bool :=
  JS.is_letter (fst command) && letter_free (snd command) && pipe_free (snd command).

(** The commands of path data interpreted one by one: a letter of
    [validMethods] goes to [drawBezierElement] with the argument text cut
    at spaces and commas, any other letter is passed over. *)
Fixpoint interpret_commands (currentPoint : CurrentPoint.t)
    (commands : list (ascii * string)) : Draw CurrentPoint.t :=
  match commands with
  | [] => mret currentPoint
  | (letter, arguments) :: rest =>
      p ← (if indexOf_ge_0 validMethods letter
           then drawBezierElement currentPoint letter
                  (JS.split " " (JS.trim (commas_to_spaces arguments)))
           else mret currentPoint);
      interpret_commands p rest
  end.



Definition pending_image : CanvasImageSource :=
  HTMLImageElement "pending.png" (Num 0) (Num 0).

(** The commands that write a control point into [currentPoint]. *)
Definition writes_control_point (letter : ascii) : bool :=
  indexOf_ge_0 "CcSsQq" letter.

(** ** Plain objects and a context that may throw *)

(** The property names every plain object inherits from [Object.prototype]. *)
Definition object_prototype_name (key : string) : bool :=
  existsb (String.eqb key)
    ["constructor"; "hasOwnProperty"; "isPrototypeOf"; "propertyIsEnumerable";
     "toLocaleString"; "toString"; "valueOf"; "__proto__";
     "__defineGetter__"; "__defineSetter__";
     "__lookupGetter__"; "__lookupSetter__"].

(** What [key && dict[key]] yields on an object whose prototype chain
    provides the names [inherited]: an own entry, an inherited value (a
    function or a prototype object, truthy and not drawable), or nothing. *)
Inductive found (V : Type) : Type :=
| Own (v : V)
| Inherited
| Missing.

Arguments Own {V} v.
Arguments Inherited {V}.
Arguments Missing {V}.

Definition find_key {V} (inherited : string -> bool) (key : option string)
    (dict : gmap string V) : found V :=
  match key with
  | Some (String c r) =>
      match dict !! String c r with
      | Some v => Own v
      | None => if inherited (String c r) then Inherited else Missing
      end
  | _ => Missing
  end.

(** Lines 46-51: the clip of the sprite. *)
Definition drawClip (frameItem : FrameEntity.t) : Draw unit :=
  match FrameEntity.clipPath frameItem with
  | Some (String c r) =>
      drawBezier (BezierPath.mk (String c r) None None) ;;
      emit Ctx.clip
  | _ => skip
  end.

(** Stands for the message of the browser. *)
Definition not_an_image : string := "drawImage: the provided value is not an image".

(** The callback of [videoItem.sprites.forEach] on plain objects.  An
    inherited value passes the tests of lines 45 and 56; [drawImage] then
    refuses it with a [TypeError], for the bitmap after the clip has been
    set (lines 46-52), for the dynamic element at lines 118-122 (it has no
    [fit], and its size is [undefined]). *)
Definition renderSprite_plain (inherited : string -> bool)
    (bitmapCache : gmap string CanvasImageSource)
    (dynamicElements : gmap string DynamicElement) (currentFrame : nat)
    (sprite : SpriteEntity.t) : Draw unit :=
  match nth_error (SpriteEntity.frames sprite) currentFrame with
  | None => mthrow (TypeError "Cannot read properties of undefined (reading 'alpha')")
  | Some frameItem =>
      if FrameEntity.alpha frameItem < Num 0.05 then skip
      else
        emit Ctx.save ;;
        emit (Ctx.set_globalAlpha (FrameEntity.alpha frameItem)) ;;
        context_transform (FrameEntity.transform frameItem) ;;
        match find_key inherited (SpriteEntity.imageKey sprite) bitmapCache with
        | Own img => drawBitmap frameItem (Some img)
        | Inherited => drawClip frameItem ;; mthrow (TypeError not_an_image)
        | Missing => skip
        end ;;
        match find_key inherited (SpriteEntity.imageKey sprite) dynamicElements with
        | Own dynamicElement =>
            drawDynamicElement (FrameEntity.layout frameItem) dynamicElement
        | Inherited => mthrow (TypeError not_an_image)
        | Missing => skip
        end ;;
        match FrameEntity.shapes frameItem with
        | Some shapes => forEach shapes drawShape
        | None => skip
        end ;;
        emit Ctx.restore
  end.

(** The calls that take effect when the context throws on the calls that
    satisfy [rejects]: those before the first such call. *)
Fixpoint executed (rejects : Ctx.call -> bool) (cs : list Ctx.call) : list Ctx.call :=
  match cs with
  | [] => []
  | c :: rest => if rejects c then [] else c :: executed rejects rest
  end.

(** The first call the context throws on. *)
Fixpoint first_rejected (rejects : Ctx.call -> bool) (cs : list Ctx.call)
    : option Ctx.call :=
  match cs with
  | [] => None
  | c :: rest => if rejects c then Some c else first_rejected rejects rest
  end.

(** What stops [render]: a [TypeError] raised while the script runs (a
    frame that does not exist, a value that is no image handed to
    [drawImage]), or the exception the context raises on one of the calls
    of the trace. *)
Inductive thrown :=
| Script (e : exn)
| Context (c : Ctx.call).

Module RenderedPlain.
Record t := mk {
  returned : thrown + Canvas.t;
  canvas : Canvas.t;
  console_error : list string }.
End RenderedPlain.

(** [render] on plain objects and with a context that throws on the calls
    in [rejects].  Nothing is caught (there is no [try] in the source), so
    the first exception ends the call. *)
Definition render_plain (inherited : string -> bool) (rejects : Ctx.call -> bool)
    (canvas : Canvas.t) (bitmapCache : gmap string CanvasImageSource)
    (dynamicElements : gmap string DynamicElement) (videoItem : VideoEntity.t)
    (currentFrame : nat) : RenderedPlain.t :=
  match Canvas.context2d canvas with
  | None =>
      RenderedPlain.mk (inr canvas) canvas ["svga render fail, 2d context null"]
  | Some received =>
      let run := forEach (VideoEntity.sprites videoItem)
                         (renderSprite_plain inherited bitmapCache dynamicElements
                                             currentFrame) in
      let canvas' := Canvas.mk (Some (received ++ executed rejects (calls run))) in
      RenderedPlain.mk
        (match first_rejected rejects (calls run) with
         | Some c => inl (Context c)
         | None =>
             match completion run with
             | inl e => inl (Script e)
             | inr _ => inr canvas'
             end
         end)
        canvas' []
  end.

(** The sprite is drawn at the index: it has a frame there, with an alpha
    that is not below the threshold. *)
Definition visible (currentFrame : nat) (sprite : SpriteEntity.t) : bool :=
  match nth_error (SpriteEntity.frames sprite) currentFrame with
  | Some frameItem => negb (FrameEntity.alpha frameItem < Num 0.05)
  | None => false
  end.

(** The image key of the sprite names a property that the bitmap cache or
    the dynamic elements inherit and do not hold themselves. *)
Definition stray_key (inherited : string -> bool)
    (bitmapCache : gmap string CanvasImageSource)
    (dynamicElements : gmap string DynamicElement) (sprite : SpriteEntity.t) : bool :=
  match find_key inherited (SpriteEntity.imageKey sprite) bitmapCache,
        find_key inherited (SpriteEntity.imageKey sprite) dynamicElements with
  | Inherited, _ | _, Inherited => true
  | _, _ => false
  end.

(** The sprite is drawn at the index and its key is a stray one: what it
    hands to [drawImage] is refused. *)
Definition refused (inherited : string -> bool)
    (bitmapCache : gmap string CanvasImageSource)
    (dynamicElements : gmap string DynamicElement) (currentFrame : nat)
    (sprite : SpriteEntity.t) : bool :=
  visible currentFrame sprite && stray_key inherited bitmapCache dynamicElements sprite.

(** Two of the calls the HTML standard makes a 2D context throw on:
    [arcTo] with a negative radius ([IndexSizeError]) and [drawImage] of a
    canvas whose width or height is zero ([InvalidStateError]). *)
Definition html_rejects (c : Ctx.call) : bool :=
  match c with
  | Ctx.arcTo _ _ _ _ radius => radius < Num 0
  | Ctx.drawImage3 (OtherSource _ w h) _ _
  | Ctx.drawImage5 (OtherSource _ w h) _ _ _ _ =>
      negb (JS.truthy w) || negb (JS.truthy h)
  | _ => false
  end.

(** Calls other than [save] and [restore]. *)
Definition stack_free (c : Ctx.call) : bool :=
  match c with
  | Ctx.save | Ctx.restore => false
  | _ => true
  end.

(** Calls in which every [restore] closes a [save] of the same calls, and
    every [save] is closed. *)
Inductive nested : list Ctx.call -> Prop :=
| nested_nil : nested []
| nested_call c cs : stack_free c = true -> nested cs -> nested (c :: cs)
| nested_block inner cs :
    nested inner -> nested cs -> nested (Ctx.save :: inner ++ Ctx.restore :: cs).

(** A sequence of [save] ... [restore] blocks with nothing in between. *)
Inductive blocks : list Ctx.call -> Prop :=
| blocks_nil : blocks []
| blocks_cons inner rest :
    nested inner -> blocks rest -> blocks (Ctx.save :: inner ++ Ctx.restore :: rest).

(** A rectangle ten by four with a negative corner radius, a frame that
    clips its bitmap and draws that rectangle, and a sprite whose image
    key is the name of a property of [Object.prototype]. *)
Definition dented : ShapeEntity.t :=
  ShapeEntity.mk ShapeType.RECT None
    (Some (RectArgs.mk None None (Some (Num 10)) (Some (Num 4)) (Some (Num (-3)))))
    None None (Some Sample.red).

Definition dented_sprite : SpriteEntity.t :=
  SpriteEntity.mk (Some "banner")
    [FrameEntity.mk (Num 1) Sample.no_fields Sample.layout
                    (Some "M0 0 L4 0 L4 4 Z") (Some [dented])].

Definition constructor_sprite : SpriteEntity.t :=
  SpriteEntity.mk (Some "constructor") [Sample.clipped_frame].

(** The transform with its [a], or its [d], set to a number. *)
Definition with_a (a : number) (t : Transform.t) : Transform.t :=
  Transform.mk (Some a) (Transform.b t) (Transform.c t) (Transform.d t)
               (Transform.tx t) (Transform.ty t).

Definition with_d (d : number) (t : Transform.t) : Transform.t :=
  Transform.mk (Transform.a t) (Transform.b t) (Transform.c t) (Some d)
               (Transform.tx t) (Transform.ty t).

(** A layout that does not sit at the origin. *)
Definition offset_layout : Layout.t :=
  Layout.mk (Num 10) (Num 20) (Num 100) (Num 50).

(** Case analysis on every [Qle_bool] test in sight. *)
Ltac q_cases Qle_bool_false :=
  repeat match goal with
         | |- context [Qle_bool ?p ?q] =>
             let E := fresh "E" in
             destruct (Qle_bool p q) eqn:E;
             [apply Qle_bool_iff in E | apply Qle_bool_false in E]
         | H : context [Qle_bool ?p ?q] |- _ =>
             let E := fresh "E" in
             destruct (Qle_bool p q) eqn:E;
             [apply Qle_bool_iff in E | apply Qle_bool_false in E]
         end.

(** Evaluates the arithmetic of [JS] on numbers whose shape is known. *)
Ltac js_eval :=
  cbv [JS.lt JS.le JS.add JS.sub JS.neg JS.mul JS.div JS.min JS.max JS.same
       JS.Qis_zero JS.Qis_neg] in *;
  cbn [Qnum Qden Z.eqb Z.ltb Z.compare xorb negb andb orb Bool.eqb] in *.

(** * Properties *)

(** ** The [Draw] monad *)

Lemma calls_bind {A B} (m : Draw A) (f : A -> Draw B) :
  calls (m ≫= f) =
  calls m ++ match completion m with inr x => calls (f x) | inl _ => [] end.
Proof.
  destruct m as [t [e | x]]; cbn.
  - now rewrite app_nil_r.
  - now destruct (f x).
Qed.

Lemma completion_bind {A B} (m : Draw A) (f : A -> Draw B) :
  completion (m ≫= f) =
  match completion m with inr x => completion (f x) | inl e => inl e end.
Proof.
  destruct m as [t [e | x]]; cbn; [reflexivity | now destruct (f x)].
Qed.

Lemma Draw_eq {A} (m : Draw A) : m = (calls m, completion m).
Proof. now destruct m. Qed.

Lemma bind_returns {A B} (m : Draw A) (f : A -> Draw B) x :
  completion m = inr x ->
  m ≫= f = (calls m ++ calls (f x), completion (f x)).
Proof.
  intros H. rewrite (Draw_eq (m ≫= f)), calls_bind, completion_bind, H.
  reflexivity.
Qed.

Lemma bind_emit {B} c (k : Draw B) :
  (emit c ;; k) = (c :: calls k, completion k).
Proof. unfold emit; cbn. now destruct k. Qed.

Lemma forEach_app {A} (l1 l2 : list A) (f : A -> Draw unit) :
  forEach (l1 ++ l2) f = (forEach l1 f ;; forEach l2 f).
Proof.
  induction l1 as [| x l1 IH]; cbn [forEach app].
  - cbn. now destruct (forEach l2 f).
  - rewrite IH. destruct (f x) as [t [e | []]]; cbn; [reflexivity |].
    destruct (forEach l1 f) as [t1 [e1 | []]]; cbn; [reflexivity |].
    destruct (forEach l2 f) as [t2 r2]. now rewrite app_assoc.
Qed.

(** When no callback throws, [forEach] issues the callbacks' calls one
    after the other. *)
Lemma forEach_returns {A} (l : list A) (f : A -> Draw unit) :
  (forall x, In x l -> completion (f x) = inr tt) ->
  forEach l f = (concat (map (fun x => calls (f x)) l), inr tt).
Proof.
  induction l as [| x l IH]; intros H; cbn [forEach map concat]; [reflexivity |].
  rewrite (bind_returns _ _ tt) by (apply H; now left).
  rewrite IH by (intros y Hy; apply H; now right). reflexivity.
Qed.

(** A property of every call of [m] and of every continuation holds of
    every call of the composition. *)
Lemma Forall_calls_bind {A B} (P : Ctx.call -> Prop) (m : Draw A) (f : A -> Draw B) :
  Forall P (calls m) -> (forall x, Forall P (calls (f x))) ->
  Forall P (calls (m ≫= f)).
Proof.
  intros Hm Hf. rewrite calls_bind. apply Forall_app. split; [exact Hm |].
  destruct (completion m); [constructor | apply Hf].
Qed.

Lemma Forall_calls_forEach {A} (P : Ctx.call -> Prop) (l : list A) (f : A -> Draw unit) :
  (forall x, Forall P (calls (f x))) -> Forall P (calls (forEach l f)).
Proof.
  intros Hf. induction l as [| x l IH]; cbn [forEach]; [constructor |].
  apply Forall_calls_bind; [apply Hf | intros _; exact IH].
Qed.

(** ** The drawing functions never throw, and what they issue *)

Lemma resetShapeStyles_returns st : completion (resetShapeStyles st) = inr tt.
Proof.
  unfold resetShapeStyles. rewrite !bind_emit. cbn.
  now destruct (_ || _)%bool.
Qed.

Lemma resetShapeStyles_if_returns st : completion (resetShapeStyles_if st) = inr tt.
Proof. destruct st; [apply resetShapeStyles_returns | reflexivity]. Qed.

Lemma fill_or_stroke_returns st : completion (fill_or_stroke st) = inr tt.
Proof.
  destruct st as [st |]; [| reflexivity]. cbn.
  destruct (Styles.fill st); [reflexivity |]. now destruct (Styles.stroke st).
Qed.

Lemma drawBezierElement_returns p m args :
  exists p', completion (drawBezierElement p m args) = inr p'.
Proof.
  destruct p as [x y x1 y1 x2 y2]. unfold drawBezierElement.
  repeat match goal with
         | |- context [if ?b then _ else _] => destruct b
         end; cbn; eauto.
Qed.

Lemma drawSegment_returns p seg :
  exists p', completion (drawSegment p seg) = inr p'.
Proof.
  destruct seg as [| c rest]; cbn [drawSegment]; [now exists p |].
  destruct (indexOf_ge_0 validMethods c);
    [apply drawBezierElement_returns | now exists p].
Qed.

Lemma drawSegments_returns segs : forall p,
  exists p', completion (drawSegments p segs) = inr p'.
Proof.
  induction segs as [| seg segs IH]; intros p; cbn [drawSegments].
  - now exists p.
  - destruct (drawSegment_returns p seg) as [p1 H1].
    destruct (IH p1) as [p2 H2]. exists p2.
    now rewrite completion_bind, H1.
Qed.

Lemma drawBezier_eq obj :
  drawBezier obj =
  (Ctx.save :: calls (resetShapeStyles_if (BezierPath._styles obj))
     ++ transform_calls (BezierPath._transform obj)
     ++ Ctx.beginPath :: path_calls (BezierPath._d obj)
     ++ paint_calls (BezierPath._styles obj) ++ [Ctx.restore],
   inr tt).
Proof.
  unfold drawBezier, path_calls, paint_calls.
  destruct (drawSegments_returns
              (JS.split "|||" (commas_to_spaces (mark_letters (BezierPath._d obj))))
              CurrentPoint.zero) as [p Hp].
  rewrite bind_emit. f_equal.
  - f_equal. rewrite calls_bind, resetShapeStyles_if_returns. f_equal.
    assert (Ht : forall t : option Transform.t,
               completion (match t with Some t => context_transform t | None => skip end)
               = inr tt) by (now intros [t |]).
    rewrite calls_bind, Ht. f_equal; [now destruct (BezierPath._transform obj) |].
    rewrite bind_emit. cbn [calls fst]. f_equal.
    rewrite calls_bind, Hp. f_equal.
    rewrite calls_bind, fill_or_stroke_returns. reflexivity.
  - rewrite completion_bind, resetShapeStyles_if_returns, completion_bind.
    destruct (BezierPath._transform obj); cbn [completion snd context_transform emit skip mret Draw_ret];
      rewrite bind_emit; cbn [completion snd];
      rewrite completion_bind, Hp, completion_bind, fill_or_stroke_returns;
      reflexivity.
Qed.

Lemma resetShapeStyles_if_sets_style st :
  Forall (fun c => sets_style c = true) (calls (resetShapeStyles_if st)).
Proof.
  destruct st as [st |]; [| constructor]. cbn [resetShapeStyles_if].
  unfold resetShapeStyles. rewrite !bind_emit. cbn [calls fst].
  repeat (constructor; [reflexivity |]).
  destruct (_ || _)%bool; repeat constructor.
Qed.

Lemma drawBezierElement_builds_path p m args :
  Forall (fun c => Surface.builds_path c = true) (calls (drawBezierElement p m args)).
Proof.
  destruct p as [x y x1 y1 x2 y2]. unfold drawBezierElement.
  repeat match goal with
         | |- context [if ?b then _ else _] => destruct b
         end; cbn; repeat constructor.
Qed.

Lemma drawSegments_builds_path segs : forall p,
  Forall (fun c => Surface.builds_path c = true) (calls (drawSegments p segs)).
Proof.
  induction segs as [| seg segs IH]; intros p; cbn [drawSegments]; [constructor |].
  apply Forall_calls_bind; [| intros p'; apply IH].
  destruct seg as [| c rest]; cbn [drawSegment]; [constructor |].
  destruct (indexOf_ge_0 validMethods c);
    [apply drawBezierElement_builds_path | constructor].
Qed.

Lemma path_calls_builds_path d :
  Forall (fun c => Surface.builds_path c = true) (path_calls d).
Proof. apply drawSegments_builds_path. Qed.

Lemma drawEllipse_eq obj :
  exists body, Forall (fun c => Surface.builds_path c = true) body /\
  drawEllipse obj =
  (Ctx.save :: calls (resetShapeStyles_if (EllipsePath._styles obj))
     ++ transform_calls (EllipsePath._transform obj)
     ++ Ctx.beginPath :: body
     ++ paint_calls (EllipsePath._styles obj) ++ [Ctx.restore],
   inr tt).
Proof.
  eexists. split; cycle 1.
  - unfold drawEllipse, paint_calls.
    rewrite bind_emit, (bind_returns _ _ tt) by apply resetShapeStyles_if_returns.
    cbn [calls completion fst snd].
    assert (Ht : forall t : option Transform.t,
               completion (match t with Some t => context_transform t | None => skip end)
               = inr tt) by (now intros [t |]).
    rewrite (bind_returns _ _ tt) by apply Ht.
    rewrite !bind_emit. cbn [calls completion fst snd].
    rewrite (bind_returns _ _ tt) by apply fill_or_stroke_returns.
    cbn [calls completion fst snd emit].
    f_equal. f_equal. f_equal.
    f_equal; [now destruct (EllipsePath._transform obj) |].
    change (?a :: ?b :: ?c :: ?d :: ?e :: ?f :: ?r) with (a :: [b; c; d; e; f] ++ r).
    reflexivity.
  - repeat constructor.
Qed.

Lemma drawRect_eq obj :
  let x := RectPath._x obj in
  let y := RectPath._y obj in
  let width := RectPath._width obj in
  let height := RectPath._height obj in
  let radius := effective_radius width height (RectPath._cornerRadius obj) in
  drawRect obj =
  (Ctx.save :: calls (resetShapeStyles_if (RectPath._styles obj))
     ++ transform_calls (RectPath._transform obj)
     ++ Ctx.beginPath ::
        [Ctx.moveTo (x + radius) y;
         Ctx.arcTo (x + width) y (x + width) (y + height) radius;
         Ctx.arcTo (x + width) (y + height) x (y + height) radius;
         Ctx.arcTo x (y + height) x y radius;
         Ctx.arcTo x y (x + width) y radius;
         Ctx.closePath]
     ++ paint_calls (RectPath._styles obj) ++ [Ctx.restore],
   inr tt).
Proof.
  intros x y width height radius. unfold drawRect, paint_calls.
  rewrite bind_emit, (bind_returns _ _ tt) by apply resetShapeStyles_if_returns.
  cbn [calls completion fst snd].
  assert (Ht : forall t : option Transform.t,
             completion (match t with Some t => context_transform t | None => skip end)
             = inr tt) by (now intros [t |]).
  rewrite (bind_returns _ _ tt) by apply Ht.
  rewrite !bind_emit. cbn [calls completion fst snd].
  rewrite (bind_returns _ _ tt) by apply fill_or_stroke_returns.
  cbn [calls completion fst snd emit].
  f_equal. f_equal. f_equal.
  f_equal. now destruct (RectPath._transform obj).
Qed.

(** A shape either draws nothing, or issues one [save] ... [restore] block
    holding style assignments, at most one transform, a path and at most
    one painting call. *)
Lemma drawShape_block shape :
  drawShape shape = ([], inr tt) \/
  exists st tr body,
    Forall (fun c => Surface.builds_path c = true) body /\
    drawShape shape =
    (Ctx.save :: calls (resetShapeStyles_if st) ++ transform_calls tr
       ++ Ctx.beginPath :: body ++ paint_calls st ++ [Ctx.restore],
     inr tt).
Proof.
  unfold drawShape.
  destruct (ShapeEntity.type shape).
  - destruct (ShapeEntity.shape shape) as [[[[| c r] |]] |]; try (now left).
    right. do 3 eexists. rewrite drawBezier_eq. cbn [BezierPath._d BezierPath._styles BezierPath._transform].
    split; [apply path_calls_builds_path | reflexivity].
  - destruct (ShapeEntity.rect shape) as [r |].
    + right. do 3 eexists. rewrite drawRect_eq.
      cbn [RectPath._styles RectPath._transform].
      split; [| reflexivity]. repeat constructor.
    + left. now destruct (ShapeEntity.shape shape) as [[[[| ? ?] |]] |], (ShapeEntity.ellipse shape).
  - destruct (ShapeEntity.ellipse shape) as [e |].
    + right.
      match goal with
      | |- context [drawEllipse ?o] => destruct (drawEllipse_eq o) as (body & Hb & ->)
      end.
      cbn [EllipsePath._styles EllipsePath._transform].
      do 3 eexists. split; [exact Hb | reflexivity].
    + left. now destruct (ShapeEntity.shape shape) as [[[[| ? ?] |]] |].
  - left. now destruct (ShapeEntity.shape shape) as [[[[| ? ?] |]] |],
            (ShapeEntity.ellipse shape), (ShapeEntity.rect shape).
Qed.

Lemma drawShape_returns shape : completion (drawShape shape) = inr tt.
Proof.
  destruct (drawShape_block shape) as [-> | (st & tr & body & _ & ->)]; reflexivity.
Qed.

Lemma drawShapes_returns shapes : completion (forEach shapes drawShape) = inr tt.
Proof.
  rewrite forEach_returns; [reflexivity |]. intros; apply drawShape_returns.
Qed.

(** What [render] does to a canvas that has a context. *)
Lemma render_with_context received bc de video cf :
  Rendered.canvas (render (Canvas.mk (Some received)) bc de video cf) =
  Canvas.mk (Some (received ++ render_calls bc de video cf)).
Proof. reflexivity. Qed.

(** ** No 2D context *)

(** C9. When [getContext('2d')] yields [null], [render] returns the canvas
    it was given, the canvas is unchanged (no call reaches any context),
    nothing is thrown, and one line is written with [console.error]. *)
Theorem render_without_context canvas bc de video cf :
  Canvas.context2d canvas = None ->
  render canvas bc de video cf =
  Rendered.mk (inr canvas) canvas ["svga render fail, 2d context null"].
Proof. intros H. unfold render. now rewrite H. Qed.

(** C9 on a canvas without a context. *)
Lemma render_without_context_witness :
  Canvas.context2d (Canvas.mk None) = None /\
  render (Canvas.mk None) ∅ ∅
         (VideoEntity.mk [SpriteEntity.mk (Some "banner") []]) 3 =
  Rendered.mk (inr (Canvas.mk None)) (Canvas.mk None)
              ["svga render fail, 2d context null"].
Proof.
  split; [reflexivity |].
  apply (render_without_context (Canvas.mk None)). reflexivity.
Defined.


(** ** Invisible sprites *)

Lemma renderSprite_invisible bc de cf sprite frameItem :
  nth_error (SpriteEntity.frames sprite) cf = Some frameItem ->
  (FrameEntity.alpha frameItem < Num 0.05) = true ->
  renderSprite bc de cf sprite = ([], inr tt).
Proof. intros Hf Ha. unfold renderSprite. now rewrite Hf, Ha. Qed.

(** C6. A sprite whose frame has [alpha < 0.05] issues no call at all, and
    the sprites are processed in list order: the calls of a sprite list
    holding such a sprite are the calls of the sprites before it followed
    (unless one of those threw) by the calls of the sprites after it. *)
Theorem invisible_sprite_is_skipped bc de cf sprite frameItem before after :
  nth_error (SpriteEntity.frames sprite) cf = Some frameItem ->
  (FrameEntity.alpha frameItem < Num 0.05) = true ->
  renderSprite bc de cf sprite = ([], inr tt) /\
  render_calls bc de (VideoEntity.mk (before ++ sprite :: after)) cf =
    render_calls bc de (VideoEntity.mk before) cf ++
    match completion (forEach before (renderSprite bc de cf)) with
    | inr _ => render_calls bc de (VideoEntity.mk after) cf
    | inl _ => []
    end.
Proof.
  intros Hf Ha.
  pose proof (renderSprite_invisible bc de cf sprite frameItem Hf Ha) as Hs.
  split; [exact Hs |].
  unfold render_calls. cbn [VideoEntity.sprites].
  rewrite forEach_app, calls_bind. f_equal.
  destruct (completion (forEach before (renderSprite bc de cf))); [reflexivity |].
  cbn [forEach]. rewrite calls_bind, Hs. reflexivity.
Qed.

(** ** Fill or stroke *)

Lemma paint_calls_cases st :
  paint_calls st =
  match st with
  | Some s =>
      match Styles.fill s, Styles.stroke s with
      | Some _, _ => [Ctx.fill]
      | None, Some _ => [Ctx.stroke]
      | None, None => []
      end
  | None => []
  end.
Proof.
  destruct st as [s |]; [| reflexivity]. unfold paint_calls. cbn.
  destruct (Styles.fill s); [reflexivity |]. now destruct (Styles.stroke s).
Qed.

Lemma sets_style_not_paint cs :
  Forall (fun c => sets_style c = true) cs ->
  Forall (fun c => is_fill_or_stroke c = false) cs.
Proof. intros H. eapply Forall_impl; [exact H |]. now intros []. Qed.

Lemma builds_path_not_paint cs :
  Forall (fun c => Surface.builds_path c = true) cs ->
  Forall (fun c => is_fill_or_stroke c = false) cs.
Proof. intros H. eapply Forall_impl; [exact H |]. now intros []. Qed.

Lemma transform_calls_not_paint tr :
  Forall (fun c => is_fill_or_stroke c = false) (transform_calls tr).
Proof. destruct tr; repeat constructor. Qed.

(** Everything a drawing function issues before its closing test. *)
Lemma block_prefix_not_paint st tr body :
  Forall (fun c => Surface.builds_path c = true) body ->
  Forall (fun c => is_fill_or_stroke c = false)
         (Ctx.save :: calls (resetShapeStyles_if st) ++ transform_calls tr
            ++ Ctx.beginPath :: body).
Proof.
  intros Hb. constructor; [reflexivity |].
  apply Forall_app; split;
    [apply sets_style_not_paint, resetShapeStyles_if_sets_style |].
  apply Forall_app; split; [apply transform_calls_not_paint |].
  constructor; [reflexivity | now apply builds_path_not_paint].
Qed.

Lemma block_assoc (A B body paint : list Ctx.call) :
  Ctx.save :: A ++ B ++ Ctx.beginPath :: body ++ paint ++ [Ctx.restore] =
  (Ctx.save :: A ++ B ++ Ctx.beginPath :: body) ++ paint ++ [Ctx.restore].
Proof. cbn [app]. now rewrite <- !app_assoc. Qed.

(** C7. Each of [drawBezier], [drawEllipse] and [drawRect] issues, after
    the calls that set styles, transform and path (none of which is a fill
    or a stroke), [fill] alone when the style has a fill, otherwise
    [stroke] alone when it has a stroke, otherwise neither; [restore]
    follows. *)
Theorem fill_else_stroke_after_path (st : option Styles.t) (tr : option Transform.t) :
  let paint :=
    match st with
    | Some s =>
        match Styles.fill s, Styles.stroke s with
        | Some _, _ => [Ctx.fill]
        | None, Some _ => [Ctx.stroke]
        | None, None => []
        end
    | None => []
    end in
  (forall d, exists pre,
      Forall (fun c => is_fill_or_stroke c = false) pre /\
      calls (drawBezier (BezierPath.mk d tr st)) = pre ++ paint ++ [Ctx.restore]) /\
  (forall x y rx ry, exists pre,
      Forall (fun c => is_fill_or_stroke c = false) pre /\
      calls (drawEllipse (EllipsePath.mk x y rx ry tr st)) = pre ++ paint ++ [Ctx.restore]) /\
  (forall x y w h r, exists pre,
      Forall (fun c => is_fill_or_stroke c = false) pre /\
      calls (drawRect (RectPath.mk x y w h r tr st)) = pre ++ paint ++ [Ctx.restore]).
Proof.
  intros paint.
  assert (Hp : paint_calls st = paint) by apply paint_calls_cases.
  split; [| split].
  - intros d. rewrite drawBezier_eq.
    cbn [calls fst BezierPath._d BezierPath._styles BezierPath._transform].
    rewrite block_assoc, Hp. eexists. split; [| reflexivity].
    apply block_prefix_not_paint, path_calls_builds_path.
  - intros x y rx ry.
    destruct (drawEllipse_eq (EllipsePath.mk x y rx ry tr st)) as (body & Hb & ->).
    cbn [calls fst EllipsePath._styles EllipsePath._transform].
    rewrite block_assoc, Hp. eexists. split; [| reflexivity].
    now apply block_prefix_not_paint.
  - intros x y w h r. rewrite drawRect_eq.
    cbn [calls fst RectPath._styles RectPath._transform].
    rewrite block_assoc, Hp. eexists. split; [| reflexivity].
    apply block_prefix_not_paint. repeat constructor.
Qed.

(** ** Transforms *)

Lemma or_default_truthy v d : JS.truthy d = true -> JS.truthy (JS.or_default v d) = true.
Proof.
  intros Hd. destruct v as [x |]; cbn; [| exact Hd].
  destruct (JS.truthy x) eqn:E; [exact E | exact Hd].
Qed.

Lemma or_default_zero z d : z == 0 -> JS.or_default (Some (Num z)) d = d.
Proof.
  intros Hz. cbn. unfold JS.Qis_zero.
  destruct z as [n p]. unfold Qeq in Hz. cbn in *.
  replace n with 0%Z by lia. reflexivity.
Qed.

Lemma context_transform_ok t :
  Forall (fun c => transform_ok c = true) (calls (context_transform t)).
Proof.
  repeat constructor. cbn. now rewrite !or_default_truthy.
Qed.

Lemma transform_calls_ok tr :
  Forall (fun c => transform_ok c = true) (transform_calls tr).
Proof. destruct tr; [apply context_transform_ok | constructor]. Qed.

Lemma drawShape_transform_ok shape :
  Forall (fun c => transform_ok c = true) (calls (drawShape shape)).
Proof.
  destruct (drawShape_block shape) as [-> | (st & tr & body & Hb & ->)];
    [constructor |].
  cbn [calls fst]. constructor; [reflexivity |].
  apply Forall_app; split.
  { eapply Forall_impl; [apply resetShapeStyles_if_sets_style |]. now intros []. }
  apply Forall_app; split; [apply transform_calls_ok |].
  constructor; [reflexivity |].
  apply Forall_app; split.
  { eapply Forall_impl; [exact Hb |]. now intros []. }
  apply Forall_app; split; [| repeat constructor].
  rewrite paint_calls_cases.
  destruct st as [s |]; [| constructor].
  destruct (Styles.fill s), (Styles.stroke s); repeat constructor.
Qed.

Lemma drawBitmap_transform_ok frameItem img :
  Forall (fun c => transform_ok c = true) (calls (drawBitmap frameItem img)).
Proof.
  destruct img as [img |]; [| constructor]. cbn [drawBitmap].
  apply Forall_calls_bind; [| intros _; repeat constructor].
  destruct (FrameEntity.clipPath frameItem) as [[| c r] |]; try constructor.
  apply Forall_calls_bind; [| intros _; repeat constructor].
  rewrite drawBezier_eq. cbn [calls fst BezierPath._d BezierPath._styles BezierPath._transform
                              resetShapeStyles_if skip mret Draw_ret transform_calls app].
  constructor; [reflexivity |]. constructor; [reflexivity |].
  apply Forall_app; split; [| repeat constructor].
  eapply Forall_impl; [apply path_calls_builds_path |]. now intros [].
Qed.

Lemma drawDynamicElement_transform_ok layout de :
  Forall (fun c => transform_ok c = true) (calls (drawDynamicElement layout de)).
Proof.
  unfold drawDynamicElement.
  destruct (source_and_fit de) as [source fit], (source_size source) as [sw sh].
  repeat match goal with
         | |- context [if ?b then _ else _] => destruct b
         end; repeat constructor.
Qed.

Lemma renderSprite_transform_ok bc de cf sprite :
  Forall (fun c => transform_ok c = true) (calls (renderSprite bc de cf sprite)).
Proof.
  unfold renderSprite.
  destruct (nth_error (SpriteEntity.frames sprite) cf) as [frameItem |]; [| constructor].
  destruct (FrameEntity.alpha frameItem < Num 0.05); [constructor |].
  apply Forall_calls_bind; [repeat constructor | intros _].
  apply Forall_calls_bind; [repeat constructor | intros _].
  apply Forall_calls_bind; [apply context_transform_ok | intros _].
  apply Forall_calls_bind; [apply drawBitmap_transform_ok | intros _].
  apply Forall_calls_bind; [| intros _].
  { destruct (lookup_key _ de); [apply drawDynamicElement_transform_ok | constructor]. }
  apply Forall_calls_bind; [| intros _; repeat constructor].
  destruct (FrameEntity.shapes frameItem); [| constructor].
  apply Forall_calls_forEach, drawShape_transform_ok.
Qed.

(** ** The calls of a visible sprite *)

Lemma drawBezier_returns obj : completion (drawBezier obj) = inr tt.
Proof. now rewrite drawBezier_eq. Qed.

Lemma drawBitmap_returns frameItem img : completion (drawBitmap frameItem img) = inr tt.
Proof.
  destruct img as [img |]; [| reflexivity]. cbn [drawBitmap].
  rewrite completion_bind.
  destruct (FrameEntity.clipPath frameItem) as [[| c r] |]; try reflexivity.
  now rewrite completion_bind, drawBezier_returns.
Qed.

Lemma drawDynamicElement_returns layout de :
  completion (drawDynamicElement layout de) = inr tt.
Proof.
  unfold drawDynamicElement.
  destruct (source_and_fit de) as [source fit], (source_size source) as [sw sh].
  repeat match goal with
         | |- context [if ?b then _ else _] => destruct b
         end; reflexivity.
Qed.

Lemma renderSprite_visible bc de cf sprite frameItem :
  nth_error (SpriteEntity.frames sprite) cf = Some frameItem ->
  (FrameEntity.alpha frameItem < Num 0.05) = false ->
  renderSprite bc de cf sprite =
  (Ctx.save :: Ctx.set_globalAlpha (FrameEntity.alpha frameItem)
     :: calls (context_transform (FrameEntity.transform frameItem))
     ++ bitmap_calls bc sprite frameItem
     ++ override_calls de sprite frameItem
     ++ shapes_calls frameItem ++ [Ctx.restore],
   inr tt).
Proof.
  intros Hf Ha. unfold renderSprite. rewrite Hf, Ha.
  rewrite !bind_emit. cbn [calls completion fst snd].
  rewrite (bind_returns _ _ tt) by reflexivity.
  rewrite (bind_returns _ _ tt) by apply drawBitmap_returns.
  assert (Hd : completion
                 match lookup_key (SpriteEntity.imageKey sprite) de with
                 | Some dynamicElement =>
                     drawDynamicElement (FrameEntity.layout frameItem) dynamicElement
                 | None => skip
                 end = inr tt).
  { destruct (lookup_key _ de); [apply drawDynamicElement_returns | reflexivity]. }
  rewrite (bind_returns _ _ tt) by exact Hd.
  assert (Hs : completion
                 match FrameEntity.shapes frameItem with
                 | Some shapes => forEach shapes drawShape
                 | None => skip
                 end = inr tt).
  { destruct (FrameEntity.shapes frameItem); [apply drawShapes_returns | reflexivity]. }
  rewrite (bind_returns _ _ tt) by exact Hs.
  cbn [calls completion fst snd emit].
  unfold bitmap_calls, override_calls, shapes_calls.
  repeat f_equal.
  - now destruct (lookup_key _ de).
  - now destruct (FrameEntity.shapes frameItem).
Qed.

(** ** The transform of a frame *)

(** C5, as stated, fails: a frame whose transform has every field
    present, with [a = d = 0], is not applied as given; the surface
    receives [1] for [a] and for [d]. *)
Lemma present_zero_scale_is_not_passed_through :
  calls (renderSprite ∅ ∅ 0
           (SpriteEntity.mk None [Sample.frame (Num 1) Sample.squashed])) =
    [Ctx.save; Ctx.set_globalAlpha (Num 1);
     Ctx.transform (Num 1) (Num 0) (Num 0) (Num 1) (Num 5) (Num 7);
     Ctx.restore] /\
  ~ In (Ctx.transform (Num 0) (Num 0) (Num 0) (Num 0) (Num 5) (Num 7))
       (calls (renderSprite ∅ ∅ 0
                 (SpriteEntity.mk None [Sample.frame (Num 1) Sample.squashed]))).
Proof.
  assert (H : calls (renderSprite ∅ ∅ 0
                       (SpriteEntity.mk None [Sample.frame (Num 1) Sample.squashed])) =
              [Ctx.save; Ctx.set_globalAlpha (Num 1);
               Ctx.transform (Num 1) (Num 0) (Num 0) (Num 1) (Num 5) (Num 7);
               Ctx.restore]) by (vm_compute; reflexivity).
  split; [exact H |]. rewrite H. cbn [In].
  intros [E | [E | [E | [E | []]]]]; discriminate E.
Qed.

(** C5, amended.  For a visible sprite the surface receives, right after
    [save] and the global alpha, one [transform] call; each of its six
    arguments is the default ([1] for [a] and [d], [0] for the others)
    when the field is absent, the field's own value when the field is
    present and is a number other than zero, and the default again when
    the field is present but zero or [NaN]. *)
Theorem frame_transform_defaults bc de cf sprite frameItem :
  nth_error (SpriteEntity.frames sprite) cf = Some frameItem ->
  (FrameEntity.alpha frameItem < Num 0.05) = false ->
  let t := FrameEntity.transform frameItem in
  let applied (field : option number) (default value : number) :=
    (field = None -> value = default) /\
    (forall v, field = Some v -> JS.truthy v = true -> value = v) /\
    (forall v, field = Some v -> JS.truthy v = false -> value = default) in
  exists a b c d tx ty rest,
    calls (renderSprite bc de cf sprite) =
      Ctx.save :: Ctx.set_globalAlpha (FrameEntity.alpha frameItem)
        :: Ctx.transform a b c d tx ty :: rest /\
    applied (Transform.a t) (Num 1) a /\ applied (Transform.b t) (Num 0) b /\
    applied (Transform.c t) (Num 0) c /\ applied (Transform.d t) (Num 1) d /\
    applied (Transform.tx t) (Num 0) tx /\ applied (Transform.ty t) (Num 0) ty.
Proof.
  intros Hf Ha t applied.
  rewrite (renderSprite_visible bc de cf sprite frameItem Hf Ha).
  cbn [calls fst context_transform emit app].
  do 7 eexists. split; [reflexivity |].
  assert (Hap : forall field default, applied field default (JS.or_default field default)).
  { intros field default. split; [now intros -> |].
    split; intros v -> Hv; cbn; now rewrite Hv. }
  repeat split; apply Hap.
Qed.

(** C5 (amended) on a frame whose transform has only [d] and [ty]. *)
Lemma frame_transform_defaults_witness :
  exists a b c d tx ty rest,
    calls (renderSprite ∅ ∅ 0
             (SpriteEntity.mk None
                [Sample.frame (Num 1)
                   (Transform.mk None None None (Some (Num 2)) None (Some (Num 7)))])) =
      Ctx.save :: Ctx.set_globalAlpha (Num 1) :: Ctx.transform a b c d tx ty :: rest /\
    a = Num 1 /\ b = Num 0 /\ c = Num 0 /\ d = Num 2 /\ tx = Num 0 /\ ty = Num 7.
Proof.
  destruct (frame_transform_defaults ∅ ∅ 0
              (SpriteEntity.mk None
                 [Sample.frame (Num 1)
                    (Transform.mk None None None (Some (Num 2)) None (Some (Num 7)))])
              _ eq_refl eq_refl)
    as (a & b & c & d & tx & ty & rest & Hc
        & [Ha _] & [Hb _] & [Hcc _] & [_ [Hd _]] & [Htx _] & [_ [Hty _]]).
  exists a, b, c, d, tx, ty, rest. split; [exact Hc |].
  repeat split.
  - exact (Ha eq_refl).
  - exact (Hb eq_refl).
  - exact (Hcc eq_refl).
  - exact (Hd (Num 2) eq_refl eq_refl).
  - exact (Htx eq_refl).
  - exact (Hty (Num 7) eq_refl eq_refl).
Defined.

(** ** A zero scale *)

(** C10. A transform component that is present and equal to zero, in a
    position whose default is not zero, is replaced by the default: the
    call made for a transform with [a = 0] (or [d = 0]) carries [1] there,
    and is the very call made for the same transform with [a = 1] (or
    [d = 1]); a transform whose six components are numbers other than
    zero is passed to the surface as it is.  That call is what the
    surface receives at each of the four places: for a visible sprite
    right after [save] and the global alpha, for a path, an ellipse and a
    rectangle right after [save] and the style assignments, before
    [beginPath].  Consequently no [transform] call that [render] issues,
    for a sprite or for a shape, has an [a] or a [d] equal to zero. *)
Theorem zero_scale_replaced_by_default :
  (forall (t : Transform.t), exists a b c d e f,
      calls (context_transform t) = [Ctx.transform a b c d e f] /\
      (forall z, Transform.a t = Some (Num z) -> z == 0 -> a = Num 1) /\
      (forall z, Transform.d t = Some (Num z) -> z == 0 -> d = Num 1)) /\
  (forall bc de video cf,
      Forall (fun c => transform_ok c = true) (render_calls bc de video cf)) /\
  (forall t z, z == 0 ->
      (Transform.a t = Some (Num z) ->
       context_transform t = context_transform (with_a (Num 1) t)) /\
      (Transform.d t = Some (Num z) ->
       context_transform t = context_transform (with_d (Num 1) t))) /\
  (forall a b c d tx ty,
      JS.truthy a = true -> JS.truthy b = true -> JS.truthy c = true ->
      JS.truthy d = true -> JS.truthy tx = true -> JS.truthy ty = true ->
      calls (context_transform
               (Transform.mk (Some a) (Some b) (Some c) (Some d) (Some tx) (Some ty))) =
        [Ctx.transform a b c d tx ty]) /\
  (forall bc de cf sprite frameItem,
      nth_error (SpriteEntity.frames sprite) cf = Some frameItem ->
      (FrameEntity.alpha frameItem < Num 0.05) = false ->
      exists rest,
        calls (renderSprite bc de cf sprite) =
          Ctx.save :: Ctx.set_globalAlpha (FrameEntity.alpha frameItem)
            :: calls (context_transform (FrameEntity.transform frameItem)) ++ rest) /\
  (forall t st,
      (forall d, exists rest,
          calls (drawBezier (BezierPath.mk d (Some t) st)) =
            Ctx.save :: calls (resetShapeStyles_if st)
              ++ calls (context_transform t) ++ Ctx.beginPath :: rest) /\
      (forall x y rx ry, exists rest,
          calls (drawEllipse (EllipsePath.mk x y rx ry (Some t) st)) =
            Ctx.save :: calls (resetShapeStyles_if st)
              ++ calls (context_transform t) ++ Ctx.beginPath :: rest) /\
      (forall x y w h r, exists rest,
          calls (drawRect (RectPath.mk x y w h r (Some t) st)) =
            Ctx.save :: calls (resetShapeStyles_if st)
              ++ calls (context_transform t) ++ Ctx.beginPath :: rest)).
Proof.
  split; [| split; [| split; [| split; [| split]]]].
  - intros t. do 6 eexists. split; [reflexivity |].
    split; intros z Hz Hz0; rewrite Hz; now apply or_default_zero.
  - intros bc de video cf. unfold render_calls.
    apply Forall_calls_forEach, renderSprite_transform_ok.
  - intros t z Hz0. split; intros Hz; unfold context_transform, with_a, with_d;
      cbn [Transform.a Transform.b Transform.c Transform.d Transform.tx Transform.ty];
      rewrite Hz, (or_default_zero z _ Hz0); reflexivity.
  - intros a b c d tx ty Ha Hb Hc Hd Htx Hty. cbn.
    now rewrite Ha, Hb, Hc, Hd, Htx, Hty.
  - intros bc de cf sprite frameItem Hf Ha.
    rewrite (renderSprite_visible bc de cf sprite frameItem Hf Ha).
    eexists. reflexivity.
  - intros t st. split; [| split].
    + intros d. rewrite drawBezier_eq. eexists. reflexivity.
    + intros x y rx ry.
      destruct (drawEllipse_eq (EllipsePath.mk x y rx ry (Some t) st))
        as (body & _ & ->).
      eexists. reflexivity.
    + intros x y w h r. rewrite drawRect_eq. eexists. reflexivity.
Qed.

(** ** Dynamic elements and bitmaps *)



(** ** Smooth cubic commands *)

(** C3, as stated, fails: after [C0 5 10 10 20 0] the cubic control point
    that [S] would reflect is [(10, 10)], non-zero in both coordinates, and
    yet [S] is drawn as a quadratic curve, because the first control point
    [(0, 5)] has a zero coordinate. *)
Lemma smooth_after_cubic_with_zero_x1_is_quadratic :
  calls (drawBezier (BezierPath.mk "M0 0 C0 5 10 10 20 0 S30 10 40 0" None None)) =
  [Ctx.save; Ctx.beginPath; Ctx.moveTo (Num 0) (Num 0);
   Ctx.bezierCurveTo (Num 0) (Num 5) (Num 10) (Num 10) (Num 20) (Num 0);
   Ctx.quadraticCurveTo (Num 30) (Num 10) (Num 40) (Num 0);
   Ctx.restore].
Proof. vm_compute. reflexivity. Qed.

(** ** Rounded rectangles *)

Lemma Qle_bool_false p q : Qle_bool p q = false -> (q < p)%Q.
Proof.
  intros H. apply Qnot_le_lt. intros Hle. apply Qle_bool_iff in Hle. congruence.
Qed.

Lemma or_default_not_NaN v d : d <> NaN -> JS.or_default v d <> NaN.
Proof.
  intros Hd. destruct v as [[| s | q] |]; cbn; try exact Hd; try discriminate.
  destruct (negb (JS.Qis_zero q)); [discriminate | exact Hd].
Qed.

Lemma effective_radius_clamped W H C :
  (Num 0 <= W) = true -> (Num 0 <= H) = true -> C <> NaN ->
  let R := effective_radius W H C in
  (Num 2 * R <= JS.min W H) = true /\
  ((JS.min W H / Num 2 < C) = true -> JS.same R (JS.min W H / Num 2)).
Proof.
  intros HW HH HC.
  destruct W as [| [] | w], H as [| [] | h]; try discriminate;
    destruct C as [| [] | c]; try congruence; clear HC;
    cbn in HW, HH; try apply Qle_bool_iff in HW; try apply Qle_bool_iff in HH.
  all: unfold effective_radius; js_eval.
  all: split; [| intros Hgt].
  all: q_cases Qle_bool_false; js_eval; q_cases Qle_bool_false.
  all: try discriminate; try reflexivity.
  all: try (apply Qle_bool_iff).
  all: unfold Qdiv in *; change (/ 2)%Q with (1 # 2)%Q in *.
  all: lra.
Qed.

(** C4. For a rect shape whose width and height are not negative, the
    four [arcTo] calls all carry one radius [R]; twice [R] does not exceed
    the smaller of width and height; and when the declared corner radius
    exceeds half of that smaller side, [R] is exactly that half. *)
Theorem rect_corner_radius_clamped shape r :
  ShapeEntity.type shape = ShapeType.RECT ->
  ShapeEntity.rect shape = Some r ->
  let x := JS.or_default (RectArgs.x r) (Num 0) in
  let y := JS.or_default (RectArgs.y r) (Num 0) in
  let width := JS.or_default (RectArgs.width r) (Num 0) in
  let height := JS.or_default (RectArgs.height r) (Num 0) in
  let cornerRadius := JS.or_default (RectArgs.cornerRadius r) (Num 0) in
  (Num 0 <= width) = true ->
  (Num 0 <= height) = true ->
  exists R before after,
    calls (drawShape shape) =
      before
      ++ [Ctx.beginPath;
          Ctx.moveTo (x + R) y;
          Ctx.arcTo (x + width) y (x + width) (y + height) R;
          Ctx.arcTo (x + width) (y + height) x (y + height) R;
          Ctx.arcTo x (y + height) x y R;
          Ctx.arcTo x y (x + width) y R;
          Ctx.closePath]
      ++ after /\
    Forall (fun c => Surface.builds_path c = false) before /\
    Forall (fun c => Surface.builds_path c = false) after /\
    (Num 2 * R <= JS.min width height) = true /\
    ((JS.min width height / Num 2 < cornerRadius) = true ->
     JS.same R (JS.min width height / Num 2)).
Proof.
  intros Ht Hr x y width height cornerRadius Hw Hh.
  assert (HC : cornerRadius <> NaN) by (apply or_default_not_NaN; discriminate).
  destruct (effective_radius_clamped width height cornerRadius Hw Hh HC) as [H2 Hexact].
  exists (effective_radius width height cornerRadius).
  assert (Hd : drawShape shape =
               drawRect (RectPath.mk x y width height cornerRadius
                           (ShapeEntity.transform shape) (ShapeEntity.styles shape))).
  { unfold drawShape. rewrite Ht, Hr.
    now destruct (ShapeEntity.shape shape) as [[[[| ? ?] |]] |], (ShapeEntity.ellipse shape). }
  rewrite Hd, drawRect_eq.
  cbn [calls fst RectPath._x RectPath._y RectPath._width RectPath._height
       RectPath._cornerRadius RectPath._styles RectPath._transform].
  exists (Ctx.save :: calls (resetShapeStyles_if (ShapeEntity.styles shape))
            ++ transform_calls (ShapeEntity.transform shape)),
         (paint_calls (ShapeEntity.styles shape) ++ [Ctx.restore]).
  split; [cbn [app]; now rewrite <- !app_assoc |].
  split; [| split; [| split; [exact H2 | exact Hexact]]].
  - constructor; [reflexivity |]. apply Forall_app; split.
    + eapply Forall_impl; [apply resetShapeStyles_if_sets_style |]. now intros [].
    + destruct (ShapeEntity.transform shape); repeat constructor.
  - apply Forall_app; split; [| repeat constructor].
    rewrite paint_calls_cases. destruct (ShapeEntity.styles shape) as [s |]; [| constructor].
    destruct (Styles.fill s), (Styles.stroke s); repeat constructor.
Qed.

(** ** Fit strategies of a dynamic element *)

Lemma Qis_zero_pos q : (0 < q)%Q -> JS.Qis_zero q = false.
Proof.
  destruct q as [n d]. unfold Qlt, JS.Qis_zero. cbn. intros H.
  apply Z.eqb_neq. lia.
Qed.

Lemma min_Num p q : exists m, JS.min (Num p) (Num q) = Num m /\ m == Qmin p q.
Proof.
  cbn. destruct (Qle_bool p q) eqn:E; cbn.
  - apply Qle_bool_iff in E. exists p. split; [reflexivity |].
    symmetry. now apply Q.min_l.
  - apply Qle_bool_false in E. exists q. split; [reflexivity |].
    symmetry. apply Q.min_r. lra.
Qed.

Lemma max_Num p q : exists m, JS.max (Num p) (Num q) = Num m /\ m == Qmax p q.
Proof.
  cbn. destruct (Qle_bool q p) eqn:E; cbn.
  - apply Qle_bool_iff in E. exists p. split; [reflexivity |].
    symmetry. now apply Q.max_l.
  - apply Qle_bool_false in E. exists q. split; [reflexivity |].
    symmetry. apply Q.max_r. lra.
Qed.

(** C8, as stated, fails for a layout that does not sit at the origin.
    In the layout at [(10, 20)], 100 by 50, a canvas of 200 by 30 without
    a fit is drawn at [(-50, 10)]: its centre is [(50, 25)], the centre of
    the box of the layout's size at the origin, and not [(60, 45)], the
    centre of the layout rectangle. *)
Lemma dynamic_element_is_centred_at_the_origin :
  Layout.x offset_layout = Num 10 /\ Layout.y offset_layout = Num 20 /\
  Layout.width offset_layout = Num 100 /\ Layout.height offset_layout = Num 50 /\
  source_size Sample.fontCanvas = (Num 200, Num 30) /\
  exists dx dy,
    calls (drawDynamicElement offset_layout (Bare Sample.fontCanvas)) =
      [Ctx.drawImage3 Sample.fontCanvas (Num dx) (Num dy)] /\
    dx == -50 /\ dy == 10 /\
    dx + 200 / 2 == 0 + 100 / 2 /\ dy + 30 / 2 == 0 + 50 / 2 /\
    ~ dx + 200 / 2 == 10 + 100 / 2 /\ ~ dy + 30 / 2 == 20 + 50 / 2.
Proof.
  repeat (split; [reflexivity |]).
  do 2 eexists. split; [vm_compute; reflexivity |].
  repeat split; try reflexivity; intros H; discriminate H.
Qed.

(** C8, amended.  With source dimensions [sw] by [sh] (positive numbers)
    and a layout of [lw] by [lh] at [(lx, ly)], the dynamic element is
    drawn in the box of [lw] by [lh] whose corner is the origin of the
    sprite's coordinates:
    - for [contain]: scaled by [min (lw / sw) (lh / sh)] in both
      directions and centred in that box;
    - for [cover]: scaled by [max (lw / sw) (lh / sh)] and centred in it;
    - for [fill]: at the origin, [lw] by [lh];
    - for [none], for an absent fit and for a bare drawable: at its own
      size (the three-argument [drawImage]), centred in it.
    The position of the layout is not read: whatever [lx] and [ly] are,
    the calls are the same, and the centre of what is drawn is the centre
    of the layout rectangle exactly when [lx] (horizontally) and [ly]
    (vertically) are zero. *)
Theorem dynamic_element_fit layout source sw sh lx ly lw lh :
  source_size source = (Num sw, Num sh) -> (0 < sw)%Q -> (0 < sh)%Q ->
  Layout.x layout = Num lx -> Layout.y layout = Num ly ->
  Layout.width layout = Num lw -> Layout.height layout = Num lh ->
  let centred_for (origin_x origin_y dx dy dw dh : Q) :=
    dx + dw / 2 == origin_x + lw / 2 /\ dy + dh / 2 == origin_y + lh / 2 in
  (exists dx dy dw dh,
      calls (drawDynamicElement layout (WithFit source (Some "contain"))) =
        [Ctx.drawImage5 source (Num dx) (Num dy) (Num dw) (Num dh)] /\
      dw == Qmin (lw / sw) (lh / sh) * sw /\ dh == Qmin (lw / sw) (lh / sh) * sh /\
      dx == (lw - dw) / 2 /\ dy == (lh - dh) / 2 /\
      centred_for 0%Q 0%Q dx dy dw dh /\
      (centred_for lx ly dx dy dw dh <-> lx == 0 /\ ly == 0)) /\
  (exists dx dy dw dh,
      calls (drawDynamicElement layout (WithFit source (Some "cover"))) =
        [Ctx.drawImage5 source (Num dx) (Num dy) (Num dw) (Num dh)] /\
      dw == Qmax (lw / sw) (lh / sh) * sw /\ dh == Qmax (lw / sw) (lh / sh) * sh /\
      dx == (lw - dw) / 2 /\ dy == (lh - dh) / 2 /\
      centred_for 0%Q 0%Q dx dy dw dh /\
      (centred_for lx ly dx dy dw dh <-> lx == 0 /\ ly == 0)) /\
  calls (drawDynamicElement layout (WithFit source (Some "fill"))) =
    [Ctx.drawImage5 source (Num 0) (Num 0) (Num lw) (Num lh)] /\
  (forall de,
      de = Bare source \/ de = WithFit source None \/ de = WithFit source (Some "none") ->
      exists dx dy,
        calls (drawDynamicElement layout de) = [Ctx.drawImage3 source (Num dx) (Num dy)] /\
        dx == (lw - sw) / 2 /\ dy == (lh - sh) / 2 /\
        centred_for 0%Q 0%Q dx dy sw sh /\
        (centred_for lx ly dx dy sw sh <-> lx == 0 /\ ly == 0)) /\
  (forall x y de,
      drawDynamicElement (Layout.mk x y (Num lw) (Num lh)) de =
      drawDynamicElement layout de).
Proof.
  intros Hs Hsw Hsh Hlx Hly Hlw Hlh centred_for.
  assert (Hcentre : forall dx dy dw dh,
             dx == (lw - dw) / 2 -> dy == (lh - dh) / 2 ->
             centred_for 0%Q 0%Q dx dy dw dh /\
             (centred_for lx ly dx dy dw dh <-> lx == 0 /\ ly == 0)).
  { intros dx dy dw dh Hdx Hdy. unfold centred_for.
    unfold Qdiv in *. change (/ 2)%Q with (1 # 2)%Q in *.
    split; [split; lra |]. split; intros [H1 H2]; split; lra. }
  split; [| split; [| split; [| split]]].
  - unfold drawDynamicElement. cbn [source_and_fit]. rewrite Hs, Hlw, Hlh.
    cbn [fit_is String.eqb Ascii.eqb Bool.eqb].
    cbn [JS.div]. rewrite (Qis_zero_pos sw Hsw), (Qis_zero_pos sh Hsh).
    destruct (min_Num (lw / sw) (lh / sh)) as (m & -> & Hm).
    cbn [JS.mul JS.sub JS.neg JS.add JS.div JS.Qis_zero Qnum Z.eqb calls emit fst].
    do 4 eexists. split; [reflexivity |].
    split; [now rewrite Hm |]. split; [now rewrite Hm |].
    split; [unfold Qminus; reflexivity |]. split; [unfold Qminus; reflexivity |].
    apply Hcentre; unfold Qminus; reflexivity.
  - unfold drawDynamicElement. cbn [source_and_fit]. rewrite Hs, Hlw, Hlh.
    cbn [fit_is String.eqb Ascii.eqb Bool.eqb].
    cbn [JS.div]. rewrite (Qis_zero_pos sw Hsw), (Qis_zero_pos sh Hsh).
    destruct (max_Num (lw / sw) (lh / sh)) as (m & -> & Hm).
    cbn [JS.mul JS.sub JS.neg JS.add JS.div JS.Qis_zero Qnum Z.eqb calls emit fst].
    do 4 eexists. split; [reflexivity |].
    split; [now rewrite Hm |]. split; [now rewrite Hm |].
    split; [unfold Qminus; reflexivity |]. split; [unfold Qminus; reflexivity |].
    apply Hcentre; unfold Qminus; reflexivity.
  - unfold drawDynamicElement. cbn [source_and_fit]. rewrite Hs, Hlw, Hlh.
    reflexivity.
  - intros de [-> | [-> | ->]];
      unfold drawDynamicElement; cbn [source_and_fit]; rewrite Hs, Hlw, Hlh;
      cbn [fit_is String.eqb Ascii.eqb Bool.eqb];
      cbn [JS.mul JS.sub JS.neg JS.add JS.div JS.Qis_zero Qnum Z.eqb calls emit fst];
      do 2 eexists; (split; [reflexivity |]);
      (split; [unfold Qminus; reflexivity |]);
      (split; [unfold Qminus; reflexivity |]);
      apply Hcentre; unfold Qminus; reflexivity.
  - intros x y de. unfold drawDynamicElement.
    cbn [Layout.width Layout.height]. now rewrite Hlw, Hlh.
Qed.

(** ** Clip paths and the shapes of a sprite *)

Lemma run_app s cs1 cs2 :
  Surface.run s (cs1 ++ cs2) = Surface.run (Surface.run s cs1) cs2.
Proof. apply fold_left_app. Qed.

Lemma transparent_nil : Surface.transparent [].
Proof. intros s. cbn. now rewrite app_nil_r. Qed.

Lemma transparent_app cs1 cs2 :
  Surface.transparent cs1 -> Surface.transparent cs2 ->
  Surface.transparent (cs1 ++ cs2).
Proof.
  intros H1 H2 s. rewrite run_app.
  destruct (H1 s) as (Hc1 & Hs1 & Hp1).
  destruct (H2 (Surface.run s cs1)) as (Hc2 & Hs2 & Hp2).
  rewrite Hc2, Hs2, Hp2, Hc1, Hs1, Hp1.
  repeat split. now rewrite List.filter_app, List.map_app, app_assoc.
Qed.

Lemma transparent_flat c : Surface.flat c = true -> Surface.transparent [c].
Proof.
  intros Hc s. destruct c; try discriminate Hc; cbn;
    repeat split; now rewrite ?app_nil_r.
Qed.

Lemma transparent_all_flat cs :
  Forall (fun c => Surface.flat c = true) cs -> Surface.transparent cs.
Proof.
  induction 1 as [| c cs Hc _ IH]; [apply transparent_nil |].
  apply (transparent_app [c] cs); [now apply transparent_flat | exact IH].
Qed.

(** A [save] ... [restore] block around transparent calls is transparent. *)
Lemma transparent_block cs :
  Surface.transparent cs -> Surface.transparent (Ctx.save :: cs ++ [Ctx.restore]).
Proof.
  intros H s. change (Ctx.save :: cs ++ [Ctx.restore]) with ([Ctx.save] ++ cs ++ [Ctx.restore]).
  rewrite !run_app. cbn [Surface.run fold_left Surface.step].
  set (s1 := Surface.mk _ _ _ _).
  destruct (H s1) as (Hc & Hs & Hp). fold (Surface.run s1 cs).
  rewrite Hs. subst s1. cbn [Surface.saved Surface.clips Surface.painted] in *.
  repeat split. rewrite Hp, !List.filter_app, !List.map_app. cbn.
  now rewrite app_nil_r.
Qed.

Lemma builds_path_flat cs :
  Forall (fun c => Surface.builds_path c = true) cs ->
  Forall (fun c => Surface.flat c = true) cs.
Proof. intros H. eapply Forall_impl; [exact H |]. now intros []. Qed.

Lemma sets_style_flat cs :
  Forall (fun c => sets_style c = true) cs ->
  Forall (fun c => Surface.flat c = true) cs.
Proof. intros H. eapply Forall_impl; [exact H |]. now intros []. Qed.

Lemma drawShape_transparent shape : Surface.transparent (calls (drawShape shape)).
Proof.
  destruct (drawShape_block shape) as [-> | (st & tr & body & Hb & ->)];
    [apply transparent_nil |].
  cbn [calls fst].
  replace (calls (resetShapeStyles_if st) ++ transform_calls tr
             ++ Ctx.beginPath :: body ++ paint_calls st ++ [Ctx.restore])
    with ((calls (resetShapeStyles_if st) ++ transform_calls tr
             ++ Ctx.beginPath :: body ++ paint_calls st) ++ [Ctx.restore])
    by (rewrite <- !app_assoc; cbn [app]; now rewrite <- !app_assoc).
  apply transparent_block, transparent_all_flat.
  apply Forall_app; split;
    [apply sets_style_flat, resetShapeStyles_if_sets_style |].
  apply Forall_app; split; [destruct tr; repeat constructor |].
  constructor; [reflexivity |].
  apply Forall_app; split; [now apply builds_path_flat |].
  rewrite paint_calls_cases. destruct st as [s |]; [| constructor].
  destruct (Styles.fill s), (Styles.stroke s); repeat constructor.
Qed.

Lemma drawShapes_transparent shapes :
  Surface.transparent (calls (forEach shapes drawShape)).
Proof.
  rewrite forEach_returns by (intros; apply drawShape_returns). cbn [calls fst].
  induction shapes as [| shape shapes IH]; cbn [map concat]; [apply transparent_nil |].
  apply transparent_app; [apply drawShape_transparent | exact IH].
Qed.

Lemma shapes_calls_transparent frameItem : Surface.transparent (shapes_calls frameItem).
Proof.
  unfold shapes_calls. destruct (FrameEntity.shapes frameItem);
    [apply drawShapes_transparent | apply transparent_nil].
Qed.

Lemma override_calls_transparent de sprite frameItem :
  Surface.transparent (override_calls de sprite frameItem).
Proof.
  unfold override_calls. destruct (lookup_key _ de) as [d |]; [| apply transparent_nil].
  apply transparent_all_flat. unfold drawDynamicElement.
  destruct (source_and_fit d) as [source fit], (source_size source) as [sw sh].
  repeat match goal with
         | |- context [if ?b then _ else _] => destruct b
         end; repeat constructor.
Qed.

Lemma run_path_builders s body :
  Forall (fun c => Surface.builds_path c = true) body ->
  Surface.run s body =
  Surface.mk (Surface.clips s) (Surface.saved s) (Surface.path s ++ body)
             (Surface.painted s).
Proof.
  intros H. revert s. induction H as [| c cs Hc _ IH]; intros s;
    cbn [Surface.run fold_left].
  - rewrite app_nil_r. now destruct s.
  - fold (Surface.run (Surface.step s c) cs). rewrite IH.
    destruct c; try discriminate Hc; cbn; now rewrite <- app_assoc.
Qed.

(** What is painted by transparent calls followed by a [restore]. *)
Lemma painted_before_restore s cs :
  Surface.transparent cs ->
  Surface.painted (Surface.run s (cs ++ [Ctx.restore])) =
  Surface.painted s
    ++ List.map (fun c => (c, Surface.clips s))
                (List.filter Surface.paints (cs ++ [Ctx.restore])).
Proof.
  intros H. destruct (H s) as (_ & _ & Hp).
  rewrite run_app, List.filter_app. cbn [List.filter Surface.paints].
  rewrite app_nil_r, <- Hp. cbn [Surface.run fold_left Surface.step].
  now destruct (Surface.saved (Surface.run s cs)).
Qed.

Lemma sprite_tail_transparent img de sprite frameItem :
  Surface.transparent
    (Ctx.drawImage3 img (Num 0) (Num 0)
       :: override_calls de sprite frameItem ++ shapes_calls frameItem).
Proof.
  apply (transparent_app [_]); [now apply transparent_flat |].
  apply transparent_app;
    [apply override_calls_transparent | apply shapes_calls_transparent].
Qed.

(** C2, as stated, fails: the square of the sample frame is filled while
    the triangular clip of its sprite is still the clipping region of the
    surface; without the clip path the same fill is painted unclipped. *)
Lemma shape_fill_is_clipped_by_sprite_clip :
  let triangle := [Ctx.moveTo (Num 0) (Num 0); Ctx.lineTo (Num 4) (Num 0);
                   Ctx.lineTo (Num 4) (Num 4); Ctx.closePath] in
  Surface.painted
    (Surface.run Surface.init
       (calls (renderSprite {[ "banner" := Sample.avatar ]} ∅ 0
                 (SpriteEntity.mk (Some "banner") [Sample.clipped_frame])))) =
    [(Ctx.drawImage3 Sample.avatar (Num 0) (Num 0), [triangle]);
     (Ctx.fill, [triangle])] /\
  Surface.painted
    (Surface.run Surface.init
       (calls (renderSprite {[ "banner" := Sample.avatar ]} ∅ 0
                 (SpriteEntity.mk (Some "banner")
                    [without_clipPath Sample.clipped_frame])))) =
    [(Ctx.drawImage3 Sample.avatar (Num 0) (Num 0), []);
     (Ctx.fill, [])].
Proof. split; vm_compute; reflexivity. Qed.

(** C2, amended.  Take a visible sprite with a cached bitmap and a clip
    path, and the same sprite with the clip path removed.  The calls of
    the two differ only by the block that builds and sets the clip: the
    calls that follow it, those of the shape list among them, are the
    same.  They are issued before the sprite's closing [restore], so on
    the surface every one of them that paints does so inside the clip
    path, whereas without the clip path it paints in the region the
    sprite found. *)
Theorem shapes_drawn_inside_sprite_clip bc de cf sprite sprite' frameItem img c r :
  nth_error (SpriteEntity.frames sprite) cf = Some frameItem ->
  nth_error (SpriteEntity.frames sprite') cf = Some (without_clipPath frameItem) ->
  SpriteEntity.imageKey sprite' = SpriteEntity.imageKey sprite ->
  (FrameEntity.alpha frameItem < Num 0.05) = false ->
  lookup_key (SpriteEntity.imageKey sprite) bc = Some img ->
  FrameEntity.clipPath frameItem = Some (String c r) ->
  let clip_path := path_calls (String c r) in
  let following :=
    Ctx.drawImage3 img (Num 0) (Num 0)
      :: override_calls de sprite frameItem ++ shapes_calls frameItem ++ [Ctx.restore] in
  exists opening,
    calls (renderSprite bc de cf sprite) =
      opening ++ (Ctx.save :: Ctx.beginPath :: clip_path ++ [Ctx.restore; Ctx.clip])
              ++ following /\
    calls (renderSprite bc de cf sprite') = opening ++ following /\
    forall s,
      Surface.painted (Surface.run s (calls (renderSprite bc de cf sprite))) =
        Surface.painted s
          ++ List.map (fun p => (p, clip_path :: Surface.clips s))
                      (List.filter Surface.paints following) /\
      Surface.painted (Surface.run s (calls (renderSprite bc de cf sprite'))) =
        Surface.painted s
          ++ List.map (fun p => (p, Surface.clips s))
                      (List.filter Surface.paints following).
Proof.
  intros Hf Hf' Hk Ha Hi Hc clip_path following.
  set (opening := [Ctx.save; Ctx.set_globalAlpha (FrameEntity.alpha frameItem)]
                    ++ calls (context_transform (FrameEntity.transform frameItem))).
  assert (H1 : calls (renderSprite bc de cf sprite) =
               opening ++ (Ctx.save :: Ctx.beginPath :: clip_path ++ [Ctx.restore; Ctx.clip])
                       ++ following).
  { rewrite (renderSprite_visible bc de cf sprite frameItem Hf Ha).
    unfold bitmap_calls. rewrite Hi. cbn [drawBitmap]. rewrite Hc.
    rewrite (bind_returns _ _ tt)
      by (now rewrite completion_bind, drawBezier_returns).
    rewrite (bind_returns _ _ tt) by apply drawBezier_returns.
    rewrite drawBezier_eq.
    cbn [calls fst emit BezierPath._d BezierPath._styles BezierPath._transform
         resetShapeStyles_if skip mret Draw_ret transform_calls paint_calls
         fill_or_stroke].
    subst opening following clip_path. cbn [app].
    now rewrite <- !app_assoc. }
  assert (H2 : calls (renderSprite bc de cf sprite') = opening ++ following).
  { rewrite (renderSprite_visible bc de cf sprite' (without_clipPath frameItem) Hf' Ha).
    unfold bitmap_calls, override_calls, shapes_calls. rewrite Hk, Hi.
    reflexivity. }
  exists opening. split; [exact H1 |]. split; [exact H2 |].
  intros s.
  pose proof (sprite_tail_transparent img de sprite frameItem) as Ht.
  assert (Hfol : following =
                 (Ctx.drawImage3 img (Num 0) (Num 0)
                    :: override_calls de sprite frameItem ++ shapes_calls frameItem)
                 ++ [Ctx.restore])
    by (subst following; cbn [app]; now rewrite <- app_assoc).
  split.
  - rewrite H1, !run_app. subst opening.
    cbn [Surface.run fold_left Surface.step app calls fst context_transform emit
         Surface.builds_path Surface.paints].
    change (Ctx.save :: Ctx.beginPath :: clip_path ++ [Ctx.restore; Ctx.clip])
      with ([Ctx.save; Ctx.beginPath] ++ clip_path ++ [Ctx.restore; Ctx.clip]).
    rewrite !fold_left_app. cbn [fold_left Surface.step].
    set (s0 := Surface.mk _ _ [] _).
    fold (Surface.run s0 clip_path).
    rewrite (run_path_builders s0 clip_path) by apply path_calls_builds_path.
    subst s0. cbn [Surface.clips Surface.saved Surface.path Surface.painted app].
    set (s3 := Surface.mk _ _ _ _). fold (Surface.run s3 following).
    rewrite Hfol. rewrite (painted_before_restore s3 _ Ht). reflexivity.
  - rewrite H2, !run_app. subst opening.
    cbn [Surface.run fold_left Surface.step app calls fst context_transform emit
         Surface.builds_path Surface.paints].
    set (s1 := Surface.mk _ _ _ _). fold (Surface.run s1 following).
    rewrite Hfol. rewrite (painted_before_restore s1 _ Ht). reflexivity.
Qed.

(** ** The theorems at sample inputs *)

(** C6 on a list of three sprites whose middle one has [alpha = 0.01]. *)
Lemma invisible_sprite_is_skipped_witness :
  nth_error (SpriteEntity.frames Sample.hidden_sprite) 0 =
    Some (Sample.frame (Num 0.01) Sample.no_fields) /\
  (Num 0.01 < Num 0.05) = true /\
  renderSprite Sample.bitmaps Sample.overrides 0 Sample.hidden_sprite = ([], inr tt) /\
  render_calls Sample.bitmaps Sample.overrides
    (VideoEntity.mk ([Sample.plain_sprite] ++ Sample.hidden_sprite :: [Sample.banner_sprite])) 0 =
  render_calls Sample.bitmaps Sample.overrides (VideoEntity.mk [Sample.plain_sprite]) 0 ++
  match completion (forEach [Sample.plain_sprite]
                      (renderSprite Sample.bitmaps Sample.overrides 0)) with
  | inr _ => render_calls Sample.bitmaps Sample.overrides
               (VideoEntity.mk [Sample.banner_sprite]) 0
  | inl _ => []
  end.
Proof.
  split; [reflexivity |]. split; [reflexivity |].
  apply (invisible_sprite_is_skipped Sample.bitmaps Sample.overrides 0
           Sample.hidden_sprite (Sample.frame (Num 0.01) Sample.no_fields)
           [Sample.plain_sprite] [Sample.banner_sprite]); reflexivity.
Defined.


(** C2 (amended) on the sample frame with the triangular clip path. *)
Lemma shapes_drawn_inside_sprite_clip_witness :
  lookup_key (SpriteEntity.imageKey Sample.clipped_sprite) Sample.bitmaps =
    Some Sample.avatar /\
  FrameEntity.clipPath Sample.clipped_frame = Some "M0 0 L4 0 L4 4 Z" /\
  exists opening,
    calls (renderSprite Sample.bitmaps ∅ 0 Sample.clipped_sprite) =
      opening
      ++ (Ctx.save :: Ctx.beginPath :: path_calls "M0 0 L4 0 L4 4 Z"
            ++ [Ctx.restore; Ctx.clip])
      ++ Ctx.drawImage3 Sample.avatar (Num 0) (Num 0)
           :: override_calls ∅ Sample.clipped_sprite Sample.clipped_frame
           ++ shapes_calls Sample.clipped_frame ++ [Ctx.restore] /\
    calls (renderSprite Sample.bitmaps ∅ 0 Sample.unclipped_sprite) =
      opening
      ++ Ctx.drawImage3 Sample.avatar (Num 0) (Num 0)
           :: override_calls ∅ Sample.clipped_sprite Sample.clipped_frame
           ++ shapes_calls Sample.clipped_frame ++ [Ctx.restore] /\
    forall s,
      Surface.painted
        (Surface.run s (calls (renderSprite Sample.bitmaps ∅ 0 Sample.clipped_sprite))) =
        Surface.painted s
          ++ List.map (fun p => (p, path_calls "M0 0 L4 0 L4 4 Z" :: Surface.clips s))
               (List.filter Surface.paints
                  (Ctx.drawImage3 Sample.avatar (Num 0) (Num 0)
                     :: override_calls ∅ Sample.clipped_sprite Sample.clipped_frame
                     ++ shapes_calls Sample.clipped_frame ++ [Ctx.restore])) /\
      Surface.painted
        (Surface.run s (calls (renderSprite Sample.bitmaps ∅ 0 Sample.unclipped_sprite))) =
        Surface.painted s
          ++ List.map (fun p => (p, Surface.clips s))
               (List.filter Surface.paints
                  (Ctx.drawImage3 Sample.avatar (Num 0) (Num 0)
                     :: override_calls ∅ Sample.clipped_sprite Sample.clipped_frame
                     ++ shapes_calls Sample.clipped_frame ++ [Ctx.restore])).
Proof.
  split; [vm_compute; reflexivity |]. split; [reflexivity |].
  apply (shapes_drawn_inside_sprite_clip Sample.bitmaps ∅ 0
           Sample.clipped_sprite Sample.unclipped_sprite Sample.clipped_frame
           Sample.avatar "M" "0 0 L4 0 L4 4 Z");
    reflexivity.
Defined.

(** C4 on a rectangle ten by four with a declared corner radius of five. *)
Lemma rect_corner_radius_clamped_witness :
  (Num 0 <= Num 10) = true /\ (Num 0 <= Num 4) = true /\
  (JS.min (Num 10) (Num 4) / Num 2 < Num 5) = true /\
  exists R before after,
    calls (drawShape Sample.pill) =
      before
      ++ [Ctx.beginPath;
          Ctx.moveTo (Num 0 + R) (Num 0);
          Ctx.arcTo (Num 0 + Num 10) (Num 0) (Num 0 + Num 10) (Num 0 + Num 4) R;
          Ctx.arcTo (Num 0 + Num 10) (Num 0 + Num 4) (Num 0) (Num 0 + Num 4) R;
          Ctx.arcTo (Num 0) (Num 0 + Num 4) (Num 0) (Num 0) R;
          Ctx.arcTo (Num 0) (Num 0) (Num 0 + Num 10) (Num 0) R;
          Ctx.closePath]
      ++ after /\
    Forall (fun c => Surface.builds_path c = false) before /\
    Forall (fun c => Surface.builds_path c = false) after /\
    (Num 2 * R <= JS.min (Num 10) (Num 4)) = true /\
    ((JS.min (Num 10) (Num 4) / Num 2 < Num 5) = true ->
     JS.same R (JS.min (Num 10) (Num 4) / Num 2)).
Proof.
  split; [reflexivity |]. split; [reflexivity |]. split; [reflexivity |].
  apply (rect_corner_radius_clamped Sample.pill Sample.pill_args); reflexivity.
Defined.

(** C8 (amended) on a 200 by 30 canvas without a fit, in the layout of
    100 by 50 at [(10, 20)]. *)
Lemma dynamic_element_fit_witness :
  source_size Sample.fontCanvas = (Num 200, Num 30) /\ (0 < 200)%Q /\ (0 < 30)%Q /\
  exists dx dy,
    calls (drawDynamicElement offset_layout (Bare Sample.fontCanvas)) =
      [Ctx.drawImage3 Sample.fontCanvas (Num dx) (Num dy)] /\
    dx == (100 - 200) / 2 /\ dy == (50 - 30) / 2 /\
    (dx + 200 / 2 == 0 + 100 / 2 /\ dy + 30 / 2 == 0 + 50 / 2) /\
    ((dx + 200 / 2 == 10 + 100 / 2 /\ dy + 30 / 2 == 20 + 50 / 2) <->
     10 == 0 /\ 20 == 0).
Proof.
  split; [reflexivity |]. split; [reflexivity |]. split; [reflexivity |].
  destruct (dynamic_element_fit offset_layout Sample.fontCanvas 200 30 10 20 100 50
              eq_refl eq_refl eq_refl eq_refl eq_refl eq_refl eq_refl)
    as (_ & _ & _ & Hnone & _).
  exact (Hnone (Bare Sample.fontCanvas) (or_introl eq_refl)).
Defined.

(** C10 on a transform with [a = d = 0]. *)
Lemma zero_scale_replaced_by_default_witness :
  exists a b c d e f,
    calls (context_transform Sample.squashed) = [Ctx.transform a b c d e f] /\
    a = Num 1 /\ d = Num 1.
Proof.
  destruct (proj1 zero_scale_replaced_by_default Sample.squashed)
    as (a & b & c & d & e & f & Hc & Ha & Hd).
  exists a, b, c, d, e, f. split; [exact Hc |]. split.
  - apply (Ha 0%Q); reflexivity.
  - apply (Hd 0%Q); reflexivity.
Defined.

(** ** Sanity checks of the JavaScript fragment and of the path language *)

Example Number_examples :
  JS.Number "10" = Num 10 /\ JS.Number "" = Num 0 /\
  JS.Number "-2.50" = Num (-5 # 2) /\ JS.Number ".5" = Num (1 # 2) /\
  JS.Number "5." = Num 5 /\ JS.Number "." = NaN /\
  JS.Number "0-5" = NaN /\ JS.Number " 7 " = Num 7 /\
  JS.Number "-" = NaN /\ JS.Number "+3" = Num 3 /\
  JS.Number "1e2" = Num 100 /\ JS.Number "25e-1" = Num (5 # 2) /\
  JS.Number "0x1F" = Num 31 /\ JS.Number "-Infinity" = Infinity true /\
  JS.Number "1e" = NaN /\ JS.Number "-0x1F" = NaN /\ JS.Number "1 2" = NaN.
Proof. vm_compute. repeat split. Qed.

Example split_examples :
  JS.split "|||" "|||M 0 0|||L 1 1" = [""; "M 0 0"; "L 1 1"] /\
  JS.split "|||" "" = [""] /\
  JS.split "|||" "a||||b" = ["a"; "|b"] /\
  JS.split " " "0  5" = ["0"; ""; "5"].
Proof. vm_compute. repeat split. Qed.

(** The path [M0 0 L10 0 L10 10 Z] is a closed polygon on three vertices;
    commas separate as well as spaces. *)
Example closed_triangle :
  path_calls "M0 0 L10 0 L10 10 Z" =
    [Ctx.moveTo (Num 0) (Num 0); Ctx.lineTo (Num 10) (Num 0);
     Ctx.lineTo (Num 10) (Num 10); Ctx.closePath] /\
  path_calls "M0,0L10,0L10,10Z" = path_calls "M0 0 L10 0 L10 10 Z".
Proof. vm_compute. repeat split. Qed.

(** [A] is not among [validMethods] and draws nothing; a letter outside
    the path language is skipped as well. *)
Example arcs_are_ignored :
  path_calls "M1 2 A5 5 0 0 1 9 9 X3 L4 4" =
    [Ctx.moveTo (Num 1) (Num 2); Ctx.lineTo (Num 4) (Num 4)].
Proof. vm_compute. reflexivity. Qed.

(** * Further properties of the renderer *)

(** ** Scoping: what a frame leaves behind on the surface *)

Lemma transparent_restores cs : Surface.transparent cs -> restores_state cs.
Proof. intros H s. destruct (H s) as (Hc & Hs & _). now split. Qed.

Lemma transparent_keeps_stack cs : Surface.transparent cs -> keeps_stack cs.
Proof. intros H s. now destruct (H s) as (_ & Hs & _). Qed.

Lemma keeps_stack_app cs1 cs2 :
  keeps_stack cs1 -> keeps_stack cs2 -> keeps_stack (cs1 ++ cs2).
Proof. intros H1 H2 s. now rewrite run_app, H2, H1. Qed.

Lemma restores_state_app cs1 cs2 :
  restores_state cs1 -> restores_state cs2 -> restores_state (cs1 ++ cs2).
Proof.
  intros H1 H2 s. rewrite run_app.
  destruct (H2 (Surface.run s cs1)) as [-> ->]. apply H1.
Qed.

(** Whatever happens to the clipping region between a [save] and the
    [restore] that matches it is undone. *)
Lemma restores_state_block inner :
  keeps_stack inner -> restores_state (Ctx.save :: inner ++ [Ctx.restore]).
Proof.
  intros H s.
  change (Ctx.save :: inner ++ [Ctx.restore]) with ([Ctx.save] ++ inner ++ [Ctx.restore]).
  rewrite !run_app. cbn [Surface.run fold_left Surface.step].
  set (s1 := Surface.mk _ _ _ _). fold (Surface.run s1 inner).
  rewrite (H s1). subst s1. cbn [Surface.saved]. now split.
Qed.

Lemma bitmap_calls_keeps_stack bc sprite frameItem :
  keeps_stack (bitmap_calls bc sprite frameItem).
Proof.
  unfold bitmap_calls.
  destruct (lookup_key (SpriteEntity.imageKey sprite) bc) as [img |];
    [| apply transparent_keeps_stack, transparent_nil].
  cbn [drawBitmap].
  destruct (FrameEntity.clipPath frameItem) as [[| c r] |];
    try solve [apply transparent_keeps_stack, transparent_all_flat; repeat constructor].
  rewrite (bind_returns _ _ tt) by (now rewrite completion_bind, drawBezier_returns).
  rewrite (bind_returns _ _ tt) by apply drawBezier_returns.
  rewrite drawBezier_eq.
  cbn [calls fst emit BezierPath._d BezierPath._styles BezierPath._transform
       resetShapeStyles_if skip mret Draw_ret transform_calls paint_calls
       fill_or_stroke app].
  match goal with
  | |- keeps_stack ?l =>
      replace l
        with ((Ctx.save :: (Ctx.beginPath :: path_calls (String c r)) ++ [Ctx.restore])
                ++ [Ctx.clip] ++ [Ctx.drawImage3 img (Num 0) (Num 0)])
        by (cbn [app]; now rewrite <- ?app_assoc)
  end.
  repeat apply keeps_stack_app.
  - apply transparent_keeps_stack, transparent_block, transparent_all_flat.
    constructor; [reflexivity |]. apply builds_path_flat, path_calls_builds_path.
  - intros s. reflexivity.
  - apply transparent_keeps_stack, transparent_all_flat. repeat constructor.
Qed.

Lemma renderSprite_restores_state bc de cf sprite :
  restores_state (calls (renderSprite bc de cf sprite)).
Proof.
  destruct (nth_error (SpriteEntity.frames sprite) cf) as [frameItem |] eqn:Hf;
    [| unfold renderSprite; rewrite Hf; apply transparent_restores, transparent_nil].
  destruct (FrameEntity.alpha frameItem < Num 0.05) eqn:Ha.
  - rewrite (renderSprite_invisible _ _ _ _ _ Hf Ha).
    apply transparent_restores, transparent_nil.
  - rewrite (renderSprite_visible _ _ _ _ _ Hf Ha). cbn [calls fst].
    replace (Ctx.set_globalAlpha (FrameEntity.alpha frameItem)
               :: calls (context_transform (FrameEntity.transform frameItem))
               ++ bitmap_calls bc sprite frameItem
               ++ override_calls de sprite frameItem
               ++ shapes_calls frameItem ++ [Ctx.restore])
      with ((Ctx.set_globalAlpha (FrameEntity.alpha frameItem)
               :: calls (context_transform (FrameEntity.transform frameItem))
               ++ bitmap_calls bc sprite frameItem
               ++ override_calls de sprite frameItem
               ++ shapes_calls frameItem) ++ [Ctx.restore])
      by (cbn [app]; now rewrite <- !app_assoc).
    apply restores_state_block.
    apply (keeps_stack_app [_]);
      [apply transparent_keeps_stack, transparent_flat; reflexivity |].
    apply keeps_stack_app;
      [apply transparent_keeps_stack, transparent_all_flat; repeat constructor |].
    apply keeps_stack_app; [apply bitmap_calls_keeps_stack |].
    apply keeps_stack_app; apply transparent_keeps_stack;
      [apply override_calls_transparent | apply shapes_calls_transparent].
Qed.

(** ** Missing frames *)

Lemma renderSprite_completion bc de cf sprite :
  completion (renderSprite bc de cf sprite) =
  if has_frame cf sprite then inr tt
  else inl (TypeError "Cannot read properties of undefined (reading 'alpha')").
Proof.
  unfold has_frame.
  destruct (nth_error (SpriteEntity.frames sprite) cf) as [frameItem |] eqn:Hf;
    [| unfold renderSprite; now rewrite Hf].
  destruct (FrameEntity.alpha frameItem < Num 0.05) eqn:Ha.
  - now rewrite (renderSprite_invisible _ _ _ _ _ Hf Ha).
  - now rewrite (renderSprite_visible _ _ _ _ _ Hf Ha).
Qed.


Lemma forEach_sprites_with_frames bc de cf sprites :
  forallb (has_frame cf) sprites = true ->
  forEach sprites (renderSprite bc de cf) =
  (concat (map (fun sprite => calls (renderSprite bc de cf sprite)) sprites), inr tt).
Proof.
  intros H. apply forEach_returns. intros sprite Hin.
  rewrite renderSprite_completion.
  rewrite forallb_forall in H. now rewrite (H sprite Hin).
Qed.

Lemma forEach_sprites_completion bc de cf sprites :
  completion (forEach sprites (renderSprite bc de cf)) =
  if forallb (has_frame cf) sprites then inr tt
  else inl (TypeError "Cannot read properties of undefined (reading 'alpha')").
Proof.
  induction sprites as [| sprite l IH]; [reflexivity |].
  cbn [forEach forallb]. rewrite completion_bind, renderSprite_completion.
  destruct (has_frame cf sprite); [exact IH | reflexivity].
Qed.


(** ** Invisible sprites, any number of them *)

(** X4. Dropping from the sprite list every sprite that is invisible at
    the index changes nothing: [render] returns, throws and draws the same.
    In particular a movie whose sprites are all invisible draws nothing. *)
Theorem render_ignores_invisible_sprites canvas bc de sprites cf :
  render canvas bc de (VideoEntity.mk sprites) cf =
  render canvas bc de
         (VideoEntity.mk (List.filter (fun sprite => negb (invisible cf sprite)) sprites))
         cf.
Proof.
  unfold render. cbn [VideoEntity.sprites].
  assert (H : forEach sprites (renderSprite bc de cf) =
              forEach (List.filter (fun sprite => negb (invisible cf sprite)) sprites)
                      (renderSprite bc de cf)).
  { induction sprites as [| sprite l IH]; [reflexivity |].
    cbn [List.filter forEach]. unfold invisible at 1.
    destruct (nth_error (SpriteEntity.frames sprite) cf) as [frameItem |] eqn:Hf.
    - destruct (FrameEntity.alpha frameItem < Num 0.05) eqn:Ha; cbn [negb].
      + rewrite (renderSprite_invisible _ _ _ _ _ Hf Ha), <- IH.
        cbn. now destruct (forEach l _).
      + cbn [forEach]. now rewrite IH.
    - cbn [negb forEach]. now rewrite IH. }
  now rewrite H.
Qed.

(** ** Image keys *)

Lemma drawShape_no_clip shape :
  Forall (fun c => is_clip c = false) (calls (drawShape shape)).
Proof.
  destruct (drawShape_block shape) as [-> | (st & tr & body & Hb & ->)];
    [constructor |].
  cbn [calls fst]. constructor; [reflexivity |].
  apply Forall_app; split.
  { eapply Forall_impl; [apply resetShapeStyles_if_sets_style |]. now intros []. }
  apply Forall_app; split; [destruct tr; repeat constructor |].
  constructor; [reflexivity |].
  apply Forall_app; split.
  { eapply Forall_impl; [exact Hb |]. now intros []. }
  apply Forall_app; split; [| repeat constructor].
  rewrite paint_calls_cases. destruct st as [s |]; [| constructor].
  destruct (Styles.fill s), (Styles.stroke s); repeat constructor.
Qed.

Lemma shapes_calls_no_clip frameItem :
  Forall (fun c => is_clip c = false) (shapes_calls frameItem).
Proof.
  unfold shapes_calls. destruct (FrameEntity.shapes frameItem); [| constructor].
  apply Forall_calls_forEach, drawShape_no_clip.
Qed.

Lemma override_calls_no_clip de sprite frameItem :
  Forall (fun c => is_clip c = false) (override_calls de sprite frameItem).
Proof.
  unfold override_calls. destruct (lookup_key _ de) as [d |]; [| constructor].
  unfold drawDynamicElement.
  destruct (source_and_fit d) as [source fit], (source_size source) as [sw sh].
  repeat match goal with
         | |- context [if ?b then _ else _] => destruct b
         end; repeat constructor.
Qed.

Lemma forEach_ext {A} (l : list A) (f g : A -> Draw unit) :
  Forall (fun x => f x = g x) l -> forEach l f = forEach l g.
Proof.
  induction 1 as [| x l Hx _ IH]; [reflexivity |].
  cbn [forEach]. now rewrite Hx, IH.
Qed.

Lemma lookup_key_insert_ne {V} (key : option string) (k : string) (v : V)
    (dict : gmap string V) :
  key <> Some k -> lookup_key key (<[k:=v]> dict) = lookup_key key dict.
Proof.
  intros Hne. destruct key as [[| c r] |]; try reflexivity.
  cbn [lookup_key]. apply lookup_insert_ne. congruence.
Qed.

(** X6. Entries of the bitmap cache and of the dynamic elements under a
    key that no sprite uses as its image key do not matter: adding (or
    overwriting) them leaves the result of [render] unchanged. *)
Theorem render_ignores_unused_keys canvas bc de video cf k img dynamicElement :
  Forall (fun sprite => SpriteEntity.imageKey sprite <> Some k)
         (VideoEntity.sprites video) ->
  render canvas (<[k:=img]> bc) (<[k:=dynamicElement]> de) video cf =
  render canvas bc de video cf.
Proof.
  intros H. unfold render.
  assert (E : forEach (VideoEntity.sprites video)
                      (renderSprite (<[k:=img]> bc) (<[k:=dynamicElement]> de) cf) =
              forEach (VideoEntity.sprites video) (renderSprite bc de cf)).
  { apply forEach_ext. eapply Forall_impl; [exact H |].
    intros sprite Hne. unfold renderSprite.
    now rewrite !lookup_key_insert_ne by exact Hne. }
  now rewrite E.
Qed.

(** X7. A visible sprite without a usable image key (none, or the empty
    string) draws its shapes and nothing else, whatever the bitmap cache
    and the dynamic elements hold, an entry under the empty key included. *)
Theorem keyless_sprite_draws_shapes_only bc de cf sprite frameItem :
  nth_error (SpriteEntity.frames sprite) cf = Some frameItem ->
  (FrameEntity.alpha frameItem < Num 0.05) = false ->
  keyless sprite = true ->
  renderSprite bc de cf sprite =
  (Ctx.save :: Ctx.set_globalAlpha (FrameEntity.alpha frameItem)
     :: calls (context_transform (FrameEntity.transform frameItem))
     ++ shapes_calls frameItem ++ [Ctx.restore],
   inr tt).
Proof.
  intros Hf Ha Hk. rewrite (renderSprite_visible _ _ _ _ _ Hf Ha).
  unfold bitmap_calls, override_calls, keyless in *.
  destruct (SpriteEntity.imageKey sprite) as [[| c r] |]; try discriminate Hk;
    reflexivity.
Qed.

(** ** What the fit strategies achieve *)

(** The call made for [contain] and for [cover], with the drawn size
    written over the rationals. *)
Lemma contain_call layout source sw sh lw lh :
  source_size source = (Num sw, Num sh) -> (0 < sw)%Q -> (0 < sh)%Q ->
  Layout.width layout = Num lw -> Layout.height layout = Num lh ->
  exists m,
    m == Qmin (lw / sw) (lh / sh) /\
    calls (drawDynamicElement layout (WithFit source (Some "contain"))) =
      [Ctx.drawImage5 source (Num ((lw + - (m * sw)) / 2)) (Num ((lh + - (m * sh)) / 2))
                      (Num (m * sw)) (Num (m * sh))].
Proof.
  intros Hs Hsw Hsh Hlw Hlh.
  unfold drawDynamicElement. cbn [source_and_fit]. rewrite Hs, Hlw, Hlh.
  cbn [fit_is String.eqb Ascii.eqb Bool.eqb].
  cbn [JS.div]. rewrite (Qis_zero_pos sw Hsw), (Qis_zero_pos sh Hsh).
  destruct (min_Num (lw / sw) (lh / sh)) as (m & -> & Hm).
  exists m. split; [exact Hm | reflexivity].
Qed.

Lemma cover_call layout source sw sh lw lh :
  source_size source = (Num sw, Num sh) -> (0 < sw)%Q -> (0 < sh)%Q ->
  Layout.width layout = Num lw -> Layout.height layout = Num lh ->
  exists m,
    m == Qmax (lw / sw) (lh / sh) /\
    calls (drawDynamicElement layout (WithFit source (Some "cover"))) =
      [Ctx.drawImage5 source (Num ((lw + - (m * sw)) / 2)) (Num ((lh + - (m * sh)) / 2))
                      (Num (m * sw)) (Num (m * sh))].
Proof.
  intros Hs Hsw Hsh Hlw Hlh.
  unfold drawDynamicElement. cbn [source_and_fit]. rewrite Hs, Hlw, Hlh.
  cbn [fit_is String.eqb Ascii.eqb Bool.eqb].
  cbn [JS.div]. rewrite (Qis_zero_pos sw Hsw), (Qis_zero_pos sh Hsh).
  destruct (max_Num (lw / sw) (lh / sh)) as (m & -> & Hm).
  exists m. split; [exact Hm | reflexivity].
Qed.

Lemma ratio_times l s : (0 < s)%Q -> (l / s * s == l)%Q.
Proof. intros H. field. lra. Qed.

(** X8. [contain] keeps the picture inside the box of the layout's width
    and height whose corner is the origin (the position of the layout is
    not read): the drawn width and height do not exceed the layout's, one
    of them equals it, the aspect ratio of the source is kept, the picture
    lies between [0] and [lw], and between [0] and [lh], and the margins
    left and right, and top and bottom, are equal.  It lies inside the
    layout rectangle itself, [lw] by [lh] at [(lx, ly)], exactly when [lx]
    and [ly] do not exceed those margins in absolute value; a layout at
    the origin is such a one. *)
Theorem contain_fits_inside layout source sw sh lx ly lw lh :
  source_size source = (Num sw, Num sh) -> (0 < sw)%Q -> (0 < sh)%Q ->
  Layout.x layout = Num lx -> Layout.y layout = Num ly ->
  Layout.width layout = Num lw -> Layout.height layout = Num lh ->
  exists dx dy dw dh,
    calls (drawDynamicElement layout (WithFit source (Some "contain"))) =
      [Ctx.drawImage5 source (Num dx) (Num dy) (Num dw) (Num dh)] /\
    (dw <= lw)%Q /\ (dh <= lh)%Q /\ (dw == lw \/ dh == lh) /\
    dw * sh == dh * sw /\
    dx + dw + dx == lw /\ dy + dh + dy == lh /\
    ((0 <= dx)%Q /\ (dx + dw <= lw)%Q /\ (0 <= dy)%Q /\ (dy + dh <= lh)%Q) /\
    (((lx <= dx)%Q /\ (dx + dw <= lx + lw)%Q /\ (ly <= dy)%Q /\ (dy + dh <= ly + lh)%Q)
     <-> ((- dx <= lx)%Q /\ (lx <= dx)%Q /\ (- dy <= ly)%Q /\ (ly <= dy)%Q)) /\
    (lx == 0 -> ly == 0 ->
     (lx <= dx)%Q /\ (dx + dw <= lx + lw)%Q /\ (ly <= dy)%Q /\ (dy + dh <= ly + lh)%Q).
Proof.
  intros Hs Hsw Hsh Hlx Hly Hlw Hlh.
  destruct (contain_call layout source sw sh lw lh Hs Hsw Hsh Hlw Hlh) as (m & Hm & ->).
  do 4 eexists. split; [reflexivity |].
  pose proof (ratio_times lw sw Hsw) as Hw.
  pose proof (ratio_times lh sh Hsh) as Hh.
  assert (Hml : (m <= lw / sw)%Q) by (rewrite Hm; apply Q.le_min_l).
  assert (Hmr : (m <= lh / sh)%Q) by (rewrite Hm; apply Q.le_min_r).
  assert (H1 : (m * sw <= lw)%Q).
  { rewrite <- Hw. apply Qmult_le_compat_r; [exact Hml | lra]. }
  assert (H2 : (m * sh <= lh)%Q).
  { rewrite <- Hh. apply Qmult_le_compat_r; [exact Hmr | lra]. }
  split; [exact H1 |]. split; [exact H2 |]. split.
  - destruct (Q.min_spec (lw / sw) (lh / sh)) as [[_ E] | [_ E]]; rewrite E in Hm.
    + left. now rewrite Hm.
    + right. now rewrite Hm.
  - split; [ring |]. split; [field |]. split; [field |].
    set (dw := (m * sw)%Q) in *. set (dh := (m * sh)%Q) in *.
    unfold Qdiv. change (/ 2)%Q with (1 # 2)%Q.
    split; [repeat split; lra |]. split; [| intros H0x H0y; repeat split; lra].
    split; intros (Ha & Hb & Hc & Hd); repeat split; lra.
Qed.

(** X9. [cover] makes the picture cover the box of the layout's width
    and height whose corner is the origin (the position of the layout is
    not read): the drawn width and height are at least the layout's, one
    of them equals it, the aspect ratio of the source is kept, the picture
    reaches from [0] or before to [lw] or beyond, and likewise to [lh], and
    the overflow is the same on opposite sides.  It covers the layout
    rectangle itself, [lw] by [lh] at [(lx, ly)], exactly when [lx] and
    [ly] do not exceed that overflow in absolute value; a layout at the
    origin is such a one. *)
Theorem cover_covers_layout layout source sw sh lx ly lw lh :
  source_size source = (Num sw, Num sh) -> (0 < sw)%Q -> (0 < sh)%Q ->
  Layout.x layout = Num lx -> Layout.y layout = Num ly ->
  Layout.width layout = Num lw -> Layout.height layout = Num lh ->
  exists dx dy dw dh,
    calls (drawDynamicElement layout (WithFit source (Some "cover"))) =
      [Ctx.drawImage5 source (Num dx) (Num dy) (Num dw) (Num dh)] /\
    (lw <= dw)%Q /\ (lh <= dh)%Q /\ (dw == lw \/ dh == lh) /\
    dw * sh == dh * sw /\
    dx + dw + dx == lw /\ dy + dh + dy == lh /\
    ((dx <= 0)%Q /\ (lw <= dx + dw)%Q /\ (dy <= 0)%Q /\ (lh <= dy + dh)%Q) /\
    (((dx <= lx)%Q /\ (lx + lw <= dx + dw)%Q /\ (dy <= ly)%Q /\ (ly + lh <= dy + dh)%Q)
     <-> ((dx <= lx)%Q /\ (lx <= - dx)%Q /\ (dy <= ly)%Q /\ (ly <= - dy)%Q)) /\
    (lx == 0 -> ly == 0 ->
     (dx <= lx)%Q /\ (lx + lw <= dx + dw)%Q /\ (dy <= ly)%Q /\ (ly + lh <= dy + dh)%Q).
Proof.
  intros Hs Hsw Hsh Hlx Hly Hlw Hlh.
  destruct (cover_call layout source sw sh lw lh Hs Hsw Hsh Hlw Hlh) as (m & Hm & ->).
  do 4 eexists. split; [reflexivity |].
  pose proof (ratio_times lw sw Hsw) as Hw.
  pose proof (ratio_times lh sh Hsh) as Hh.
  assert (Hml : (lw / sw <= m)%Q) by (rewrite Hm; apply Q.le_max_l).
  assert (Hmr : (lh / sh <= m)%Q) by (rewrite Hm; apply Q.le_max_r).
  assert (H1 : (lw <= m * sw)%Q).
  { rewrite <- Hw at 1. apply Qmult_le_compat_r; [exact Hml | lra]. }
  assert (H2 : (lh <= m * sh)%Q).
  { rewrite <- Hh at 1. apply Qmult_le_compat_r; [exact Hmr | lra]. }
  split; [exact H1 |]. split; [exact H2 |]. split.
  - destruct (Q.max_spec (lw / sw) (lh / sh)) as [[_ E] | [_ E]]; rewrite E in Hm.
    + right. now rewrite Hm.
    + left. now rewrite Hm.
  - split; [ring |]. split; [field |]. split; [field |].
    set (dw := (m * sw)%Q) in *. set (dh := (m * sh)%Q) in *.
    unfold Qdiv. change (/ 2)%Q with (1 # 2)%Q.
    split; [repeat split; lra |]. split; [| intros H0x H0y; repeat split; lra].
    split; intros (Ha & Hb & Hc & Hd); repeat split; lra.
Qed.

Lemma Qis_zero_eq q : q == 0 -> JS.Qis_zero q = true.
Proof.
  destruct q as [n d]. unfold Qeq, JS.Qis_zero. cbn. intros H.
  apply Z.eqb_eq. lia.
Qed.

(** X10. A source of size zero by zero (an image that has not loaded)
    under [contain] or [cover] is drawn with [NaN] for position and size,
    whatever the finite layout: the ratio is infinite or [NaN], and its
    product with the zero size is [NaN]. *)
Theorem zero_sized_source_is_drawn_at_NaN layout source sw sh lw lh fit :
  source_size source = (Num sw, Num sh) -> sw == 0 -> sh == 0 ->
  Layout.width layout = Num lw -> Layout.height layout = Num lh ->
  fit = "contain" \/ fit = "cover" ->
  calls (drawDynamicElement layout (WithFit source (Some fit))) =
    [Ctx.drawImage5 source NaN NaN NaN NaN].
Proof.
  intros Hs Hsw Hsh Hlw Hlh Hfit.
  unfold drawDynamicElement. cbn [source_and_fit]. rewrite Hs, Hlw, Hlh.
  cbn [JS.div]. rewrite (Qis_zero_eq sw Hsw), (Qis_zero_eq sh Hsh).
  destruct Hfit as [-> | ->]; cbn [fit_is String.eqb Ascii.eqb Bool.eqb];
    destruct (JS.Qis_zero lw), (JS.Qis_zero lh), (JS.Qis_neg lw), (JS.Qis_neg lh);
    cbn; rewrite ?(Qis_zero_eq sw Hsw), ?(Qis_zero_eq sh Hsh); reflexivity.
Qed.


(** ** The outline of an ellipse *)

(** X12. For an ellipse with centre [(cx, cy)] and radii [rx], [ry]
    (finite numbers), [drawEllipse] builds one closed outline of four
    cubic curves: it starts at the leftmost point, passes through the
    topmost, the rightmost and the bottommost point and ends where it
    started; the control points of every curve lie on the tangents at its
    two end points, at [k] times the radius from them, [k = 0.5522848]. *)
Theorem ellipse_outline cx cy rx ry tr st :
  let k := 0.5522848%Q in
  exists l t r b m n kx ky,
    l == cx - rx /\ r == cx + rx /\ t == cy - ry /\ b == cy + ry /\
    m == cx /\ n == cy /\ kx == k * rx /\ ky == k * ry /\
    exists x0 y0 a1 b1 c1 d1 x1 y1 a2 b2 c2 d2 x2 y2 a3 b3 c3 d3 x3 y3
           a4 b4 c4 d4 x4 y4,
      calls (drawEllipse (EllipsePath.mk (Num cx) (Num cy) (Num rx) (Num ry) tr st)) =
        (Ctx.save :: calls (resetShapeStyles_if st) ++ transform_calls tr)
        ++ [Ctx.beginPath;
            Ctx.moveTo (Num x0) (Num y0);
            Ctx.bezierCurveTo (Num a1) (Num b1) (Num c1) (Num d1) (Num x1) (Num y1);
            Ctx.bezierCurveTo (Num a2) (Num b2) (Num c2) (Num d2) (Num x2) (Num y2);
            Ctx.bezierCurveTo (Num a3) (Num b3) (Num c3) (Num d3) (Num x3) (Num y3);
            Ctx.bezierCurveTo (Num a4) (Num b4) (Num c4) (Num d4) (Num x4) (Num y4)]
        ++ paint_calls st ++ [Ctx.restore] /\
      (x0 == l /\ y0 == n) /\
      (a1 == l /\ b1 == n - ky /\ c1 == m - kx /\ d1 == t /\ x1 == m /\ y1 == t) /\
      (a2 == m + kx /\ b2 == t /\ c2 == r /\ d2 == n - ky /\ x2 == r /\ y2 == n) /\
      (a3 == r /\ b3 == n + ky /\ c3 == m + kx /\ d3 == b /\ x3 == m /\ y3 == b) /\
      (a4 == m - kx /\ b4 == b /\ c4 == l /\ d4 == n + ky /\ x4 == l /\ y4 == n).
Proof.
  intros k.
  exists (cx - rx)%Q, (cy - ry)%Q, (cx + rx)%Q, (cy + ry)%Q, cx, cy, (k * rx)%Q, (k * ry)%Q.
  repeat (split; [reflexivity |]).
  do 26 eexists. split.
  - unfold drawEllipse, paint_calls.
    rewrite bind_emit, (bind_returns _ _ tt) by apply resetShapeStyles_if_returns.
    cbn [calls completion fst snd].
    assert (Ht : forall t : option Transform.t,
               completion (match t with Some t => context_transform t | None => skip end)
               = inr tt) by (now intros [t |]).
    rewrite (bind_returns _ _ tt) by apply Ht.
    rewrite !bind_emit. cbn [calls completion fst snd].
    rewrite (bind_returns _ _ tt) by apply fill_or_stroke_returns.
    cbn [calls completion fst snd emit EllipsePath._x EllipsePath._y
         EllipsePath._radiusX EllipsePath._radiusY EllipsePath._transform
         EllipsePath._styles].
    unfold kappa.
    cbn [JS.sub JS.add JS.neg JS.mul JS.div JS.Qis_zero Qnum Z.eqb].
    cbn [app]. rewrite <- !app_assoc. cbn [app]. destruct tr; reflexivity.
  - subst k. repeat split; field.
Qed.

(** ** The corner radius, once more *)

(** X13. For finite sizes the clamp of [drawRect] only ever shrinks the
    radius, and it leaves the declared radius untouched when twice the
    radius fits into both the width and the height. *)
Theorem corner_radius_only_shrinks (w h r : Q) :
  (effective_radius (Num w) (Num h) (Num r) <= Num r) = true /\
  ((2 * r <= w)%Q -> (2 * r <= h)%Q ->
   effective_radius (Num w) (Num h) (Num r) = Num r).
Proof.
  unfold effective_radius; js_eval. split; [| intros Hw Hh].
  all: q_cases Qle_bool_false; js_eval; q_cases Qle_bool_false.
  all: try reflexivity; try discriminate.
  all: try (apply Qle_bool_iff).
  all: unfold Qdiv in *; change (/ 2)%Q with (1 # 2)%Q in *.
  all: try lra.
Qed.

(** X13 on a rectangle ten by four with a declared radius of one. *)
Lemma corner_radius_only_shrinks_witness :
  (2 * 1 <= 10)%Q /\ (2 * 1 <= 4)%Q /\
  effective_radius (Num 10) (Num 4) (Num 1) = Num 1.
Proof.
  split; [discriminate |]. split; [discriminate |].
  apply (proj2 (corner_radius_only_shrinks 10 4 1)); discriminate.
Defined.

(** ** Which shapes draw *)

(** X14. A shape draws exactly when it carries the payload its type tag
    announces (a non-empty path string for [SHAPE], an ellipse for
    [ELLIPSE], a rect for [RECT]); otherwise, and for [KEEP], nothing at
    all is issued.  What a shape draws is one [save] ... [restore] block. *)
Theorem shape_draws_iff_payload shape :
  (has_payload shape = false -> drawShape shape = ([], inr tt)) /\
  (has_payload shape = true ->
   exists inner, calls (drawShape shape) = Ctx.save :: inner ++ [Ctx.restore]).
Proof.
  unfold has_payload. split.
  - intros H. unfold drawShape.
    destruct (ShapeEntity.type shape),
             (ShapeEntity.shape shape) as [[[[| ? ?] |]] |],
             (ShapeEntity.ellipse shape), (ShapeEntity.rect shape);
      try discriminate H; reflexivity.
  - intros H.
    destruct (drawShape_block shape) as [E | (st & tr & body & _ & ->)].
    + exfalso. unfold drawShape in E.
      destruct (ShapeEntity.type shape); try discriminate H.
      * destruct (ShapeEntity.shape shape) as [[[[| ? ?] |]] |]; try discriminate H.
        now rewrite drawBezier_eq in E.
      * destruct (ShapeEntity.rect shape); try discriminate H.
        destruct (ShapeEntity.shape shape) as [[[[| ? ?] |]] |],
                 (ShapeEntity.ellipse shape);
          now rewrite drawRect_eq in E.
      * destruct (ShapeEntity.ellipse shape) as [e |]; try discriminate H.
        destruct (ShapeEntity.shape shape) as [[[[| ? ?] |]] |];
          match type of E with
          | drawEllipse ?o = _ => destruct (drawEllipse_eq o) as (b & _ & Eb)
          end; rewrite Eb in E; discriminate E.
    + cbn [calls fst]. eexists. f_equal.
      rewrite !app_assoc. rewrite app_comm_cons. rewrite !app_assoc. reflexivity.
Qed.

(** X14 on the sample square. *)
Lemma shape_draws_iff_payload_witness :
  has_payload Sample.square = true /\
  exists inner, calls (drawShape Sample.square) = Ctx.save :: inner ++ [Ctx.restore].
Proof.
  split; [reflexivity |].
  apply (proj2 (shape_draws_iff_payload Sample.square)). reflexivity.
Defined.

(** ** What reaches the surface *)

(** A property of every kind of call [render] can make holds of every
    call of a [render]. *)
Section Every_call.

Variable P : Ctx.call -> bool.
Hypothesis P_other : forall c,
  sets_style c = false ->
  match c with Ctx.set_globalAlpha _ | Ctx.transform _ _ _ _ _ _ => False | _ => True end ->
  P c = true.
Hypothesis P_style : forall st,
  Forall (fun c => P c = true) (calls (resetShapeStyles st)).
Hypothesis P_transform : forall t,
  Forall (fun c => P c = true) (calls (context_transform t)).
Hypothesis P_alpha : forall v,
  (v < Num 0.05) = false -> P (Ctx.set_globalAlpha v) = true.

Lemma every_builds_path cs :
  Forall (fun c => Surface.builds_path c = true) cs ->
  Forall (fun c => P c = true) cs.
Proof.
  intros H. eapply Forall_impl; [exact H |].
  intros c Hc. apply P_other; destruct c; try discriminate Hc; easy.
Qed.

Lemma every_paint_call st : Forall (fun c => P c = true) (paint_calls st).
Proof.
  rewrite paint_calls_cases. destruct st as [s |]; [| constructor].
  destruct (Styles.fill s), (Styles.stroke s); repeat constructor;
    now apply P_other.
Qed.

Lemma every_block st tr body :
  Forall (fun c => Surface.builds_path c = true) body ->
  Forall (fun c => P c = true)
         (Ctx.save :: calls (resetShapeStyles_if st) ++ transform_calls tr
            ++ Ctx.beginPath :: body ++ paint_calls st ++ [Ctx.restore]).
Proof.
  intros Hb. constructor; [now apply P_other |].
  apply Forall_app; split; [destruct st; [apply P_style | constructor] |].
  apply Forall_app; split; [destruct tr; [apply P_transform | constructor] |].
  constructor; [now apply P_other |].
  apply Forall_app; split; [now apply every_builds_path |].
  apply Forall_app; split; [apply every_paint_call |].
  constructor; [now apply P_other | constructor].
Qed.

Lemma every_drawShape shape : Forall (fun c => P c = true) (calls (drawShape shape)).
Proof.
  destruct (drawShape_block shape) as [-> | (st & tr & body & Hb & ->)];
    [constructor | now apply every_block].
Qed.

Lemma every_bitmap_call bc sprite frameItem :
  Forall (fun c => P c = true) (bitmap_calls bc sprite frameItem).
Proof.
  unfold bitmap_calls.
  destruct (lookup_key (SpriteEntity.imageKey sprite) bc) as [img |]; [| constructor].
  cbn [drawBitmap].
  apply Forall_calls_bind; [| intros _; constructor; [now apply P_other | constructor]].
  destruct (FrameEntity.clipPath frameItem) as [[| c r] |]; try constructor.
  apply Forall_calls_bind; [| intros _; constructor; [now apply P_other | constructor]].
  rewrite drawBezier_eq. apply (every_block None None), path_calls_builds_path.
Qed.

Lemma every_override_call de sprite frameItem :
  Forall (fun c => P c = true) (override_calls de sprite frameItem).
Proof.
  unfold override_calls. destruct (lookup_key _ de) as [d |]; [| constructor].
  unfold drawDynamicElement.
  destruct (source_and_fit d) as [source fit], (source_size source) as [sw sh].
  repeat match goal with
         | |- context [if ?b then _ else _] => destruct b
         end; constructor; try constructor; now apply P_other.
Qed.

Lemma every_render_call bc de video cf :
  Forall (fun c => P c = true) (render_calls bc de video cf).
Proof.
  unfold render_calls. apply Forall_calls_forEach. intros sprite.
  destruct (nth_error (SpriteEntity.frames sprite) cf) as [frameItem |] eqn:Hf;
    [| unfold renderSprite; rewrite Hf; constructor].
  destruct (FrameEntity.alpha frameItem < Num 0.05) eqn:Ha.
  - rewrite (renderSprite_invisible _ _ _ _ _ Hf Ha). constructor.
  - rewrite (renderSprite_visible _ _ _ _ _ Hf Ha). cbn [calls fst].
    constructor; [now apply P_other |].
    constructor; [now apply P_alpha |].
    apply Forall_app; split; [apply P_transform |].
    apply Forall_app; split; [apply every_bitmap_call |].
    apply Forall_app; split; [apply every_override_call |].
    apply Forall_app; split; [| constructor; [now apply P_other | constructor]].
    unfold shapes_calls. destruct (FrameEntity.shapes frameItem); [| constructor].
    apply Forall_calls_forEach, every_drawShape.
Qed.

End Every_call.






(** X16. The global alpha is only ever set to a value that passed the
    visibility test: no call of [render] sets an alpha below [0.05]. *)
Theorem render_never_sets_low_alpha bc de video cf :
  Forall (fun c => alpha_ok c = true) (render_calls bc de video cf).
Proof.
  apply every_render_call.
  - intros c _ Hc. now destruct c.
  - intros st. eapply Forall_impl; [apply (resetShapeStyles_if_sets_style (Some st)) |].
    now intros [].
  - intros t. repeat constructor.
  - intros v Hv. cbn. now rewrite Hv.
Qed.

(** ** The path tokenizer *)

Lemma valid_method_is_letter c :
  indexOf_ge_0 validMethods c = true -> JS.is_letter c = true.
Proof.
  destruct c as [b0 b1 b2 b3 b4 b5 b6 b7].
  destruct b0, b1, b2, b3, b4, b5, b6, b7; vm_compute; intros H;
    first [reflexivity | discriminate H].
Qed.

Lemma letter_is_no_separator c :
  JS.is_letter c = true ->
  Ascii.eqb c "," = false /\ Ascii.eqb c "|" = false.
Proof.
  intros H. split.
  - destruct (Ascii.eqb_spec c ","); [subst; discriminate H | reflexivity].
  - destruct (Ascii.eqb_spec c "|"); [subst; discriminate H | reflexivity].
Qed.

Lemma comma_to_space_is_letter c :
  JS.is_letter (if Ascii.eqb c "," then " "%char else c) = JS.is_letter c.
Proof. destruct (Ascii.eqb_spec c ","); [now subst | reflexivity]. Qed.

Lemma mark_letters_letter_free s : letter_free s = true -> mark_letters s = s.
Proof.
  induction s as [| c r IH]; [reflexivity |]. cbn [letter_free mark_letters].
  destruct (JS.is_letter c); [discriminate |]. cbn. intros H. now rewrite IH.
Qed.

Lemma commas_to_spaces_letter_free s :
  letter_free (commas_to_spaces s) = letter_free s.
Proof.
  induction s as [| c r IH]; [reflexivity |]. cbn [letter_free commas_to_spaces].
  now rewrite comma_to_space_is_letter, IH.
Qed.

Lemma str_rev_onto_letter_free s acc :
  letter_free (JS.str_rev_onto s acc) = letter_free s && letter_free acc.
Proof.
  revert acc. induction s as [| c r IH]; intros acc; [reflexivity |].
  cbn [JS.str_rev_onto letter_free]. rewrite IH. cbn [letter_free].
  now destruct (JS.is_letter c), (letter_free r), (letter_free acc).
Qed.

Lemma split_go_letter_free sep s : forall skip cur,
  letter_free s = true -> letter_free cur = true ->
  Forall (fun segment => letter_free segment = true) (JS.split_go sep s skip cur).
Proof.
  induction s as [| c r IH]; intros skip cur Hs Hc; cbn [JS.split_go].
  - constructor; [| constructor]. unfold JS.str_rev.
    now rewrite str_rev_onto_letter_free, Hc.
  - cbn [letter_free] in Hs. apply andb_prop in Hs as [Hc' Hr].
    destruct skip as [| k]; [| now apply IH].
    destruct (String.prefix sep (String c r)).
    + constructor; [| now apply IH]. unfold JS.str_rev.
      now rewrite str_rev_onto_letter_free, Hc.
    + apply IH; [exact Hr |]. cbn [letter_free]. now rewrite Hc', Hc.
Qed.

Lemma drawSegment_letter_free p segment :
  letter_free segment = true -> drawSegment p segment = ([], inr p).
Proof.
  destruct segment as [| c rest]; [reflexivity |]. cbn [letter_free drawSegment].
  intros H. apply andb_prop in H as [Hc _].
  destruct (indexOf_ge_0 validMethods c) eqn:E; [| reflexivity].
  apply valid_method_is_letter in E. rewrite E in Hc. discriminate Hc.
Qed.

Lemma drawSegments_letter_free segments : forall p,
  Forall (fun segment => letter_free segment = true) segments ->
  drawSegments p segments = ([], inr p).
Proof.
  induction segments as [| segment rest IH]; intros p H; [reflexivity |].
  inversion H as [| ? ? Hs Hr]; subst. cbn [drawSegments].
  rewrite (drawSegment_letter_free p segment Hs). cbn. now rewrite (IH p Hr).
Qed.

(** X17. Path data without a single letter (the empty string, numbers
    alone, punctuation) builds no path at all. *)
Theorem path_without_letters_is_empty d :
  letter_free d = true -> path_calls d = [].
Proof.
  intros H. unfold path_calls.
  rewrite (mark_letters_letter_free d H).
  rewrite drawSegments_letter_free; [reflexivity |].
  apply split_go_letter_free; [| reflexivity].
  now rewrite commas_to_spaces_letter_free.
Qed.

(** X17 on a string of numbers. *)
Lemma path_without_letters_is_empty_witness :
  letter_free "10 20, 30|||40" = true /\ path_calls "10 20, 30|||40" = [].
Proof.
  split; [reflexivity |].
  apply (path_without_letters_is_empty "10 20, 30|||40"). reflexivity.
Defined.

Lemma tokens_commas_then_marks d :
  commas_to_spaces (mark_letters (commas_to_spaces d)) =
  commas_to_spaces (mark_letters d).
Proof.
  induction d as [| c r IH]; [reflexivity |].
  cbn [commas_to_spaces mark_letters]. rewrite comma_to_space_is_letter.
  destruct (JS.is_letter c) eqn:E.
  - destruct (letter_is_no_separator c E) as [Ec _]. rewrite Ec.
    cbn [commas_to_spaces]. rewrite Ec. cbn. now rewrite IH.
  - cbn [commas_to_spaces]. rewrite IH. f_equal.
    destruct (Ascii.eqb_spec c ",") as [-> | Hne]; [reflexivity |].
    now destruct (Ascii.eqb_spec c ",").
Qed.

(** X18. In path data a comma separates exactly like a space: replacing
    every comma by a space gives the same path. *)
Theorem commas_separate_like_spaces d :
  path_calls (commas_to_spaces d) = path_calls d.
Proof. unfold path_calls. now rewrite tokens_commas_then_marks. Qed.

Section Tokens.

Local Open Scope string_scope.

Lemma append_cons c r b : String c r ++ b = String c (r ++ b).
Proof. reflexivity. Qed.

Lemma mark_letters_app a b :
  mark_letters (a ++ b) = mark_letters a ++ mark_letters b.
Proof.
  induction a as [| c r IH]; [reflexivity |].
  rewrite append_cons. cbn [mark_letters]. rewrite IH.
  destruct (JS.is_letter c); now rewrite ?append_cons.
Qed.

Lemma commas_to_spaces_app a b :
  commas_to_spaces (a ++ b) = commas_to_spaces a ++ commas_to_spaces b.
Proof.
  induction a as [| c r IH]; [reflexivity |].
  rewrite append_cons. cbn [commas_to_spaces]. now rewrite IH, append_cons.
Qed.

Lemma commas_to_spaces_pipe_free s :
  pipe_free (commas_to_spaces s) = pipe_free s.
Proof.
  induction s as [| c r IH]; [reflexivity |]. cbn [pipe_free commas_to_spaces].
  rewrite IH. f_equal. f_equal.
  destruct (Ascii.eqb_spec c ",") as [-> | _]; reflexivity.
Qed.

Lemma str_rev_onto_twice p : forall a b,
  JS.str_rev_onto (JS.str_rev_onto p a) b = JS.str_rev_onto a (p ++ b).
Proof.
  induction p as [| c r IH]; intros a b; [reflexivity |].
  rewrite append_cons. cbn [JS.str_rev_onto]. rewrite IH. reflexivity.
Qed.

Lemma append_empty_r s : s ++ "" = s.
Proof.
  induction s as [| c r IH]; [reflexivity |]. now rewrite append_cons, IH.
Qed.

Lemma str_rev_of_reversed p : JS.str_rev (JS.str_rev_onto p "") = p.
Proof.
  unfold JS.str_rev. rewrite str_rev_onto_twice. cbn [JS.str_rev_onto].
  apply append_empty_r.
Qed.

(** Text without a vertical bar holds no separator: it is read into the
    current piece. *)
Lemma split_go_pipe_free p : forall rest cur,
  pipe_free p = true ->
  JS.split_go "|||" (p ++ rest) 0 cur = JS.split_go "|||" rest 0 (JS.str_rev_onto p cur).
Proof.
  induction p as [| c r IH]; intros rest cur H; [reflexivity |].
  cbn [pipe_free] in H. apply andb_prop in H as [Hc Hr].
  rewrite append_cons. cbn [JS.split_go JS.str_rev_onto].
  assert (E : String.prefix "|||" (String c (r ++ rest)) = false).
  { cbn [String.prefix].
    destruct (ascii_dec "|" c) as [<- |]; [discriminate Hc | reflexivity]. }
  rewrite E. now apply IH.
Qed.

Lemma split_go_separator rest cur :
  JS.split_go "|||" ("|||" ++ rest) 0 cur =
  JS.str_rev cur :: JS.split_go "|||" rest 0 "".
Proof.
  change ("|||" ++ rest) with (String "|" (String "|" (String "|" rest))).
  cbn [JS.split_go].
  assert (E : String.prefix "|||" (String "|" (String "|" (String "|" rest))) = true).
  { cbn. now destruct rest. }
  rewrite E. reflexivity.
Qed.

(** The segment that a command becomes. *)
Lemma tokens_of_command c a rest :
  JS.is_letter c = true -> letter_free a = true ->
  commas_to_spaces (mark_letters (String c (a ++ rest))) =
  "|||" ++ String c (String " " (commas_to_spaces a))
        ++ commas_to_spaces (mark_letters rest).
Proof.
  intros Hc Ha. cbn [mark_letters]. rewrite Hc.
  destruct (letter_is_no_separator c Hc) as [Ec _].
  cbn [commas_to_spaces]. rewrite Ec.
  rewrite mark_letters_app, commas_to_spaces_app.
  rewrite (mark_letters_letter_free a Ha). reflexivity.
Qed.

Lemma split_path_text commands : forall cur,
  forallb command_ok commands = true ->
  JS.split_go "|||" (commas_to_spaces (mark_letters (path_text commands))) 0 cur =
  JS.str_rev cur
    :: map (fun command => String (fst command)
                             (String " " (commas_to_spaces (snd command))))
           commands.
Proof.
  induction commands as [| [c a] rest IH]; intros cur H; [reflexivity |].
  cbn [forallb] in H. apply andb_prop in H as [Hok Hrest].
  unfold command_ok in Hok. cbn [fst snd] in Hok.
  apply andb_prop in Hok as [Hok Hp]. apply andb_prop in Hok as [Hc Ha].
  cbn [path_text map fst snd].
  rewrite (tokens_of_command c a _ Hc Ha), split_go_separator. f_equal.
  rewrite split_go_pipe_free.
  - rewrite (IH _ Hrest). now rewrite str_rev_of_reversed.
  - cbn [pipe_free]. destruct (letter_is_no_separator c Hc) as [_ ->].
    cbn. now rewrite commas_to_spaces_pipe_free.
Qed.

Lemma trim_leading_space s : JS.trim (String " " s) = JS.trim s.
Proof. reflexivity. Qed.

Lemma drawSegments_of_commands commands : forall p,
  drawSegments p
    (map (fun command => String (fst command)
                           (String " " (commas_to_spaces (snd command))))
         commands) =
  interpret_commands p commands.
Proof.
  induction commands as [| [c a] rest IH]; intros p; [reflexivity |].
  cbn [map fst snd drawSegments interpret_commands drawSegment].
  rewrite trim_leading_space.
  destruct (indexOf_ge_0 validMethods c).
  - destruct (drawBezierElement p c _) as [t [e | p']]; cbn; [reflexivity |].
    now rewrite IH.
  - cbn. now rewrite IH.
Qed.

Lemma path_calls_of_commands lead commands :
  letter_free lead = true -> pipe_free lead = true ->
  forallb command_ok commands = true ->
  path_calls (lead ++ path_text commands) =
  calls (interpret_commands CurrentPoint.zero commands).
Proof.
  intros Hl Hp Hc. unfold path_calls, JS.split.
  rewrite mark_letters_app, commas_to_spaces_app.
  rewrite (mark_letters_letter_free lead Hl).
  rewrite split_go_pipe_free by now rewrite commas_to_spaces_pipe_free.
  rewrite (split_path_text commands _ Hc), str_rev_of_reversed.
  cbn [drawSegments].
  rewrite drawSegment_letter_free by now rewrite commas_to_spaces_letter_free.
  cbn. rewrite drawSegments_of_commands.
  now destruct (interpret_commands CurrentPoint.zero commands).
Qed.



Lemma interpret_commands_app commands1 : forall p commands2,
  interpret_commands p (commands1 ++ commands2)%list =
  (p' ← interpret_commands p commands1; interpret_commands p' commands2).
Proof.
  induction commands1 as [| [c a] rest IH]; intros p commands2.
  - cbn. now destruct (interpret_commands p commands2).
  - cbn [app interpret_commands].
    destruct (if indexOf_ge_0 validMethods c then _ else _) as [t [e | p']];
      cbn; [reflexivity |].
    rewrite IH. destruct (interpret_commands p' rest) as [t1 [e1 | p1]];
      cbn; [reflexivity |].
    destruct (interpret_commands p1 commands2). now rewrite app_assoc.
Qed.

(** A command other than [C], [c], [S], [s], [Q] and [q] leaves the stored
    control points alone. *)
Lemma drawBezierElement_keeps_control_points p c args :
  writes_control_point c = false ->
  exists x y,
    completion (drawBezierElement p c args) =
    inr (CurrentPoint.mk x y (CurrentPoint.x1 p) (CurrentPoint.y1 p)
                         (CurrentPoint.x2 p) (CurrentPoint.y2 p)).
Proof.
  intros H. unfold writes_control_point in H. cbn [indexOf_ge_0] in H.
  repeat (apply orb_false_elim in H as [?E H]).
  rewrite Ascii.eqb_sym in E, E0, E1, E2, E3, E4.
  destruct p as [x y x1 y1 x2 y2]. unfold drawBezierElement.
  rewrite E, E0, E1, E2, E3, E4.
  repeat match goal with
         | |- context [if ?b then _ else _] => destruct b
         end; cbn; eauto.
Qed.

Lemma interpret_commands_keeps_control_points commands : forall p,
  forallb (fun command => negb (writes_control_point (fst command))) commands = true ->
  exists x y,
    completion (interpret_commands p commands) =
    inr (CurrentPoint.mk x y (CurrentPoint.x1 p) (CurrentPoint.y1 p)
                         (CurrentPoint.x2 p) (CurrentPoint.y2 p)).
Proof.
  induction commands as [| [c a] rest IH]; intros p H.
  - destruct p. cbn. eauto.
  - cbn [forallb fst] in H. apply andb_prop in H as [Hc Hrest].
    apply negb_true_iff in Hc. cbn [interpret_commands].
    rewrite completion_bind.
    destruct (indexOf_ge_0 validMethods c).
    + destruct (drawBezierElement_keeps_control_points p c
                  (JS.split " " (JS.trim (commas_to_spaces a))) Hc) as (x & y & ->).
      destruct (IH (CurrentPoint.mk x y (CurrentPoint.x1 p) (CurrentPoint.y1 p)
                                    (CurrentPoint.x2 p) (CurrentPoint.y2 p)) Hrest)
        as (x' & y' & ->).
      cbn. eauto.
    + cbn [completion snd mret Draw_ret]. apply (IH p Hrest).
Qed.

Lemma interpret_commands_returns commands : forall p,
  exists p', completion (interpret_commands p commands) = inr p'.
Proof.
  induction commands as [| [c a] rest IH]; intros p; [now exists p |].
  cbn [interpret_commands]. rewrite completion_bind.
  destruct (indexOf_ge_0 validMethods c).
  - destruct (drawBezierElement_returns p c
                (JS.split " " (JS.trim (commas_to_spaces a)))) as [p' ->].
    apply IH.
  - cbn [completion snd mret Draw_ret]. apply IH.
Qed.

Lemma command_ok_snoc commands c a :
  forallb command_ok commands = true -> JS.is_letter c = true ->
  letter_free a = true -> pipe_free a = true ->
  forallb command_ok (commands ++ [(c, a)])%list = true.
Proof.
  intros Hc Hcl Ha Hpa. rewrite forallb_app, Hc. cbn [forallb andb].
  unfold command_ok. cbn [fst snd]. now rewrite Hcl, Ha, Hpa.
Qed.

(** The calls of path data that ends in one more command. *)
Lemma path_calls_snoc lead commands c a p :
  letter_free lead = true -> pipe_free lead = true ->
  forallb command_ok commands = true -> JS.is_letter c = true ->
  letter_free a = true -> pipe_free a = true ->
  indexOf_ge_0 validMethods c = true ->
  completion (interpret_commands CurrentPoint.zero commands) = inr p ->
  path_calls (lead ++ path_text (commands ++ [(c, a)])%list) =
  (calls (interpret_commands CurrentPoint.zero commands)
     ++ calls (drawBezierElement p c
                 (JS.split " " (JS.trim (commas_to_spaces a)))))%list.
Proof.
  intros Hl Hp Hc Hcl Ha Hpa Hv Hcompl.
  rewrite (path_calls_of_commands lead _ Hl Hp (command_ok_snoc _ c a Hc Hcl Ha Hpa)).
  rewrite interpret_commands_app, calls_bind, Hcompl.
  cbn [interpret_commands]. rewrite Hv, calls_bind.
  destruct (drawBezierElement_returns p c
              (JS.split " " (JS.trim (commas_to_spaces a)))) as [p' ->].
  cbn. now rewrite app_nil_r.
Qed.

(** The calls of path data around one of its commands. *)
Lemma path_calls_at lead pre c a after p :
  letter_free lead = true -> pipe_free lead = true ->
  forallb command_ok pre = true -> JS.is_letter c = true ->
  letter_free a = true -> pipe_free a = true ->
  forallb command_ok after = true ->
  indexOf_ge_0 validMethods c = true ->
  completion (interpret_commands CurrentPoint.zero pre) = inr p ->
  exists p',
    completion (drawBezierElement p c
                  (JS.split " " (JS.trim (commas_to_spaces a)))) = inr p' /\
    path_calls (lead ++ path_text (pre ++ (c, a) :: after)%list) =
    (calls (interpret_commands CurrentPoint.zero pre)
       ++ calls (drawBezierElement p c
                   (JS.split " " (JS.trim (commas_to_spaces a))))
       ++ calls (interpret_commands p' after))%list.
Proof.
  intros Hl Hp Hc Hcl Ha Hpa Hafter Hv Hcompl.
  destruct (drawBezierElement_returns p c
              (JS.split " " (JS.trim (commas_to_spaces a)))) as [p' Hp'].
  exists p'. split; [exact Hp' |].
  assert (Hok : forallb command_ok (pre ++ (c, a) :: after)%list = true).
  { rewrite forallb_app, Hc. cbn [forallb andb]. rewrite Hafter.
    unfold command_ok. cbn [fst snd]. now rewrite Hcl, Ha, Hpa. }
  rewrite (path_calls_of_commands lead _ Hl Hp Hok).
  rewrite interpret_commands_app, calls_bind, Hcompl.
  cbn [interpret_commands]. now rewrite Hv, calls_bind, Hp'.
Qed.

(** Every string without a vertical bar is path data made of commands. *)
Lemma path_decomposition d :
  pipe_free d = true ->
  exists lead commands,
    d = lead ++ path_text commands /\
    letter_free lead = true /\ pipe_free lead = true /\
    forallb command_ok commands = true.
Proof.
  induction d as [| c r IH]; intros Hp; [now exists "", [] |].
  cbn [pipe_free] in Hp. apply andb_prop in Hp as [Hc Hr].
  destruct (IH Hr) as (lead & commands & E & Hl & Hpl & Hok).
  destruct (JS.is_letter c) eqn:Hletter.
  - exists "", ((c, lead) :: commands). cbn [path_text forallb].
    rewrite Hok. unfold command_ok. cbn [fst snd].
    rewrite Hletter, Hl, Hpl. repeat split. cbn. now rewrite E.
  - exists (String c lead), commands. rewrite append_cons, <- E.
    cbn [letter_free pipe_free]. now rewrite Hletter, Hl, Hc, Hpl.
Qed.

(** X20. In path data made of commands, an [S] or [s] that no [C], [c],
    [S], [s], [Q] or [q] precedes finds no control point and is drawn as a
    quadratic curve: its first coordinate pair is the control point, its
    second the end point, both taken relative to the current point [(x, y)]
    that the preceding commands have left for [s], and as they are written
    for [S]. *)
Theorem first_smooth_curve_is_quadratic lead commands a :
  letter_free lead = true -> pipe_free lead = true ->
  forallb command_ok commands = true ->
  forallb (fun command => negb (writes_control_point (fst command))) commands = true ->
  letter_free a = true -> pipe_free a = true ->
  let n := JS.arg (JS.split " " (JS.trim (commas_to_spaces a))) in
  exists x y,
    completion (interpret_commands CurrentPoint.zero commands) =
      inr (CurrentPoint.mk x y (Num 0) (Num 0) (Num 0) (Num 0)) /\
    path_calls (lead ++ path_text (commands ++ [("S"%char, a)])%list) =
      (calls (interpret_commands CurrentPoint.zero commands)
         ++ [Ctx.quadraticCurveTo (n 0%nat) (n 1%nat) (n 2%nat) (n 3%nat)])%list /\
    path_calls (lead ++ path_text (commands ++ [("s"%char, a)])%list) =
      (calls (interpret_commands CurrentPoint.zero commands)
         ++ [Ctx.quadraticCurveTo (x + n 0%nat)%js (y + n 1%nat)%js
                                  (x + n 2%nat)%js (y + n 3%nat)%js])%list.
Proof.
  intros Hl Hp Hc Hk Ha Hpa n.
  destruct (interpret_commands_keeps_control_points commands CurrentPoint.zero Hk)
    as (x & y & Hxy).
  cbn [CurrentPoint.zero CurrentPoint.x1 CurrentPoint.y1 CurrentPoint.x2 CurrentPoint.y2]
    in Hxy.
  exists x, y. split; [exact Hxy |]. split.
  - now rewrite (path_calls_snoc lead commands "S"%char a _ Hl Hp Hc eq_refl Ha Hpa
                   eq_refl Hxy).
  - now rewrite (path_calls_snoc lead commands "s"%char a _ Hl Hp Hc eq_refl Ha Hpa
                   eq_refl Hxy).
Qed.

(** C3, amended.  An [S] or [s] command reflects the stored second control
    point (and emits a cubic curve) exactly when all four stored control
    coordinates [x1], [y1], [x2], [y2] are numbers other than zero;
    otherwise it emits a quadratic curve whose control point is the
    command's first coordinate pair (taken relative to the current point
    for [s]).  The stored coordinates are those last written by [C], [c],
    [S], [s], [Q] or [q], initially [0]:
    - [C] and [c] store both control points of their curve; [Q] and [q]
      store their control point as [(x1, y1)] and leave [(x2, y2)]; a
      reflecting [S] or [s] stores the reflected point as [(x1, y1)] and
      its own first pair as [(x2, y2)]; an [S] or [s] drawn as a quadratic
      stores its first pair as [(x1, y1)] and leaves [(x2, y2)];
    - every other command leaves the four coordinates alone;
    - a string without a vertical bar is path data made of commands: some
      text without letters, then letters, each followed by text without
      letters;
    - in such a path, after the commands [before] and then commands
      [between] among which there is no [C], [c], [S], [s], [Q] or [q],
      an [S] or [s] tests and reflects the coordinates that [before] left,
      and the commands after it go on from what it stores;
    - what a path leaves is what its last command stores, starting from
      what the path before that command has left.
    The path [M0 0 S10 10 20 0] emits a quadratic curve with control
    point [(10, 10)] and end point [(20, 0)]. *)
Theorem smooth_cubic_guard :
  (forall x y x1 y1 x2 y2 args,
      let n := JS.arg args in
      let reflects := JS.truthy x1 && JS.truthy y1 && JS.truthy x2 && JS.truthy y2 in
      calls (drawBezierElement (CurrentPoint.mk x y x1 y1 x2 y2) "S" args) =
        (if reflects
         then [Ctx.bezierCurveTo (x - x2 + x)%js (y - y2 + y)%js
                                 (n 0%nat) (n 1%nat) (n 2%nat) (n 3%nat)]
         else [Ctx.quadraticCurveTo (n 0%nat) (n 1%nat) (n 2%nat) (n 3%nat)]) /\
      calls (drawBezierElement (CurrentPoint.mk x y x1 y1 x2 y2) "s" args) =
        (if reflects
         then [Ctx.bezierCurveTo (x - x2 + x)%js (y - y2 + y)%js
                                 (x + n 0%nat)%js (y + n 1%nat)%js
                                 (x + n 2%nat)%js (y + n 3%nat)%js]
         else [Ctx.quadraticCurveTo (x + n 0%nat)%js (y + n 1%nat)%js
                                    (x + n 2%nat)%js (y + n 3%nat)%js])) /\
  (forall x y x1 y1 x2 y2 args,
      let n := JS.arg args in
      let p := CurrentPoint.mk x y x1 y1 x2 y2 in
      let reflects := JS.truthy x1 && JS.truthy y1 && JS.truthy x2 && JS.truthy y2 in
      completion (drawBezierElement p "C" args) =
        inr (CurrentPoint.mk (n 4%nat) (n 5%nat)
                             (n 0%nat) (n 1%nat) (n 2%nat) (n 3%nat)) /\
      completion (drawBezierElement p "c" args) =
        inr (CurrentPoint.mk (x + n 4%nat)%js (y + n 5%nat)%js
                             (x + n 0%nat)%js (y + n 1%nat)%js
                             (x + n 2%nat)%js (y + n 3%nat)%js) /\
      completion (drawBezierElement p "Q" args) =
        inr (CurrentPoint.mk (n 2%nat) (n 3%nat) (n 0%nat) (n 1%nat) x2 y2) /\
      completion (drawBezierElement p "q" args) =
        inr (CurrentPoint.mk (x + n 2%nat)%js (y + n 3%nat)%js
                             (x + n 0%nat)%js (y + n 1%nat)%js x2 y2) /\
      completion (drawBezierElement p "S" args) =
        inr (if reflects
             then CurrentPoint.mk (n 2%nat) (n 3%nat)
                                  (x - x2 + x)%js (y - y2 + y)%js (n 0%nat) (n 1%nat)
             else CurrentPoint.mk (n 2%nat) (n 3%nat) (n 0%nat) (n 1%nat) x2 y2) /\
      completion (drawBezierElement p "s" args) =
        inr (if reflects
             then CurrentPoint.mk (x + n 2%nat)%js (y + n 3%nat)%js
                                  (x - x2 + x)%js (y - y2 + y)%js
                                  (x + n 0%nat)%js (y + n 1%nat)%js
             else CurrentPoint.mk (x + n 2%nat)%js (y + n 3%nat)%js
                                  (x + n 0%nat)%js (y + n 1%nat)%js x2 y2)) /\
  (forall p c args,
      writes_control_point c = false ->
      exists x y,
        completion (drawBezierElement p c args) =
        inr (CurrentPoint.mk x y (CurrentPoint.x1 p) (CurrentPoint.y1 p)
                             (CurrentPoint.x2 p) (CurrentPoint.y2 p))) /\
  (forall d, pipe_free d = true ->
      exists lead commands,
        d = lead ++ path_text commands /\
        letter_free lead = true /\ pipe_free lead = true /\
        forallb command_ok commands = true) /\
  (forall lead before between a after,
      letter_free lead = true -> pipe_free lead = true ->
      forallb command_ok (before ++ between)%list = true ->
      forallb (fun command => negb (writes_control_point (fst command))) between = true ->
      letter_free a = true -> pipe_free a = true ->
      forallb command_ok after = true ->
      let n := JS.arg (JS.split " " (JS.trim (commas_to_spaces a))) in
      exists x0 y0 x y x1 y1 x2 y2,
        completion (interpret_commands CurrentPoint.zero before) =
          inr (CurrentPoint.mk x0 y0 x1 y1 x2 y2) /\
        completion (interpret_commands CurrentPoint.zero (before ++ between)%list) =
          inr (CurrentPoint.mk x y x1 y1 x2 y2) /\
        path_calls (lead ++ path_text ((before ++ between) ++ ("S"%char, a) :: after)%list) =
          (calls (interpret_commands CurrentPoint.zero (before ++ between)%list)
             ++ (if JS.truthy x1 && JS.truthy y1 && JS.truthy x2 && JS.truthy y2
                 then [Ctx.bezierCurveTo (x - x2 + x)%js (y - y2 + y)%js
                                         (n 0%nat) (n 1%nat) (n 2%nat) (n 3%nat)]
                 else [Ctx.quadraticCurveTo (n 0%nat) (n 1%nat)
                                            (n 2%nat) (n 3%nat)])
             ++ calls (interpret_commands
                         (if JS.truthy x1 && JS.truthy y1 && JS.truthy x2 && JS.truthy y2
                          then CurrentPoint.mk (n 2%nat) (n 3%nat)
                                 (x - x2 + x)%js (y - y2 + y)%js (n 0%nat) (n 1%nat)
                          else CurrentPoint.mk (n 2%nat) (n 3%nat)
                                 (n 0%nat) (n 1%nat) x2 y2)
                         after))%list /\
        path_calls (lead ++ path_text ((before ++ between) ++ ("s"%char, a) :: after)%list) =
          (calls (interpret_commands CurrentPoint.zero (before ++ between)%list)
             ++ (if JS.truthy x1 && JS.truthy y1 && JS.truthy x2 && JS.truthy y2
                 then [Ctx.bezierCurveTo (x - x2 + x)%js (y - y2 + y)%js
                                         (x + n 0%nat)%js (y + n 1%nat)%js
                                         (x + n 2%nat)%js (y + n 3%nat)%js]
                 else [Ctx.quadraticCurveTo (x + n 0%nat)%js (y + n 1%nat)%js
                                            (x + n 2%nat)%js (y + n 3%nat)%js])
             ++ calls (interpret_commands
                         (if JS.truthy x1 && JS.truthy y1 && JS.truthy x2 && JS.truthy y2
                          then CurrentPoint.mk (x + n 2%nat)%js (y + n 3%nat)%js
                                 (x - x2 + x)%js (y - y2 + y)%js
                                 (x + n 0%nat)%js (y + n 1%nat)%js
                          else CurrentPoint.mk (x + n 2%nat)%js (y + n 3%nat)%js
                                 (x + n 0%nat)%js (y + n 1%nat)%js x2 y2)
                         after))%list) /\
  (forall before c a,
      indexOf_ge_0 validMethods c = true ->
      exists p,
        completion (interpret_commands CurrentPoint.zero before) = inr p /\
        completion (interpret_commands CurrentPoint.zero (before ++ [(c, a)])%list) =
          completion (drawBezierElement p c
                        (JS.split " " (JS.trim (commas_to_spaces a))))) /\
  calls (drawBezier (BezierPath.mk "M0 0 S10 10 20 0" None None)) =
    [Ctx.save; Ctx.beginPath; Ctx.moveTo (Num 0) (Num 0);
     Ctx.quadraticCurveTo (Num 10) (Num 10) (Num 20) (Num 0);
     Ctx.restore].
Proof.
  assert (Hguard : forall x y x1 y1 x2 y2 args c,
             c = "S"%char \/ c = "s"%char ->
             drawBezierElement (CurrentPoint.mk x y x1 y1 x2 y2) c args =
             (let n := JS.arg args in
              let dx := if Ascii.eqb c "s" then x else Num 0 in
              let dy := if Ascii.eqb c "s" then y else Num 0 in
              let rel v d := if Ascii.eqb c "s" then (d + v)%js else v in
              if JS.truthy x1 && JS.truthy y1 && JS.truthy x2 && JS.truthy y2
              then ([Ctx.bezierCurveTo (x - x2 + x)%js (y - y2 + y)%js
                       (rel (n 0%nat) x) (rel (n 1%nat) y)
                       (rel (n 2%nat) x) (rel (n 3%nat) y)],
                    inr (CurrentPoint.mk (rel (n 2%nat) x) (rel (n 3%nat) y)
                           (x - x2 + x)%js (y - y2 + y)%js
                           (rel (n 0%nat) x) (rel (n 1%nat) y)))
              else ([Ctx.quadraticCurveTo (rel (n 0%nat) x) (rel (n 1%nat) y)
                       (rel (n 2%nat) x) (rel (n 3%nat) y)],
                    inr (CurrentPoint.mk (rel (n 2%nat) x) (rel (n 3%nat) y)
                           (rel (n 0%nat) x) (rel (n 1%nat) y) x2 y2)))).
  { intros x y x1 y1 x2 y2 args c [-> | ->];
      unfold drawBezierElement; cbn [Ascii.eqb Bool.eqb];
      unfold has_control_points;
      cbn [CurrentPoint.x1 CurrentPoint.y1 CurrentPoint.x2 CurrentPoint.y2];
      now destruct (JS.truthy x1 && JS.truthy y1 && JS.truthy x2 && JS.truthy y2). }
  split; [| split; [| split; [| split; [| split; [| split; [| vm_compute; reflexivity]]]]]].
  - intros x y x1 y1 x2 y2 args n reflects.
    rewrite (Hguard x y x1 y1 x2 y2 args "S"%char) by now left.
    rewrite (Hguard x y x1 y1 x2 y2 args "s"%char) by now right.
    cbn [Ascii.eqb Bool.eqb]. fold n. fold reflects. split; now destruct reflects.
  - intros x y x1 y1 x2 y2 args n p reflects. unfold p.
    rewrite (Hguard x y x1 y1 x2 y2 args "S"%char) by now left.
    rewrite (Hguard x y x1 y1 x2 y2 args "s"%char) by now right.
    cbn [Ascii.eqb Bool.eqb]. fold n. fold reflects.
    repeat split; try reflexivity; now destruct reflects.
  - exact drawBezierElement_keeps_control_points.
  - exact path_decomposition.
  - intros lead before between a after Hl Hp Hc Hk Ha Hpa Hafter n.
    destruct (interpret_commands_returns before CurrentPoint.zero)
      as [[x0 y0 x1 y1 x2 y2] Hb].
    destruct (interpret_commands_keeps_control_points between
                (CurrentPoint.mk x0 y0 x1 y1 x2 y2) Hk) as (x & y & Hbt).
    cbn [CurrentPoint.x1 CurrentPoint.y1 CurrentPoint.x2 CurrentPoint.y2] in Hbt.
    assert (Hall : completion (interpret_commands CurrentPoint.zero
                                 (before ++ between)%list) =
                   inr (CurrentPoint.mk x y x1 y1 x2 y2)).
    { now rewrite interpret_commands_app, completion_bind, Hb. }
    exists x0, y0, x, y, x1, y1, x2, y2.
    split; [exact Hb |]. split; [exact Hall |]. split.
    + destruct (path_calls_at lead _ "S"%char a after _ Hl Hp Hc eq_refl Ha Hpa
                  Hafter eq_refl Hall) as (p' & Hp' & ->).
      rewrite (Hguard x y x1 y1 x2 y2 _ "S"%char) in * by now left.
      cbn [Ascii.eqb Bool.eqb] in *. fold n in Hp' |- *.
      destruct (JS.truthy x1 && JS.truthy y1 && JS.truthy x2 && JS.truthy y2);
        cbn [completion snd calls fst] in *; injection Hp' as <-; reflexivity.
    + destruct (path_calls_at lead _ "s"%char a after _ Hl Hp Hc eq_refl Ha Hpa
                  Hafter eq_refl Hall) as (p' & Hp' & ->).
      rewrite (Hguard x y x1 y1 x2 y2 _ "s"%char) in * by now right.
      cbn [Ascii.eqb Bool.eqb] in *. fold n in Hp' |- *.
      destruct (JS.truthy x1 && JS.truthy y1 && JS.truthy x2 && JS.truthy y2);
        cbn [completion snd calls fst] in *; injection Hp' as <-; reflexivity.
  - intros before c a Hv.
    destruct (interpret_commands_returns before CurrentPoint.zero) as [p Hp].
    exists p. split; [exact Hp |].
    rewrite interpret_commands_app, completion_bind, Hp.
    cbn [interpret_commands]. rewrite Hv, completion_bind.
    now destruct (completion (drawBezierElement p c _)).
Qed.

End Tokens.


(** ** Plain objects, and a context that throws *)

Lemma find_key_lookup {V} inherited key (dict : gmap string V) :
  lookup_key key dict =
  match find_key inherited key dict with Own v => Some v | _ => None end.
Proof.
  destruct key as [[| c r] |]; try reflexivity. cbn [lookup_key find_key].
  destruct (dict !! String c r); [reflexivity |]. now destruct (inherited _).
Qed.

Lemma bind_throws {A B} (m : Draw A) (f : A -> Draw B) e :
  completion m = inl e -> m ≫= f = (calls m, inl e).
Proof. destruct m as [t [e' | x]]; cbn; intros H; congruence. Qed.

(** *** Nesting of [save] and [restore] *)

Lemma step_stack_free s c :
  stack_free c = true -> Surface.saved (Surface.step s c) = Surface.saved s.
Proof. destruct c; cbn; intros H; try reflexivity; discriminate H. Qed.

Lemma run_cons s c cs : Surface.run s (c :: cs) = Surface.run (Surface.step s c) cs.
Proof. reflexivity. Qed.

Lemma nested_app cs1 cs2 : nested cs1 -> nested cs2 -> nested (cs1 ++ cs2).
Proof.
  intros H1 H2. induction H1 as [| c cs Hc _ IH | inner cs Hi _ _ IH]; [exact H2 | |].
  - cbn [app]. now constructor.
  - cbn [app]. rewrite <- app_assoc. cbn [app]. now constructor.
Qed.

Lemma nested_stack_free cs :
  Forall (fun c => stack_free c = true) cs -> nested cs.
Proof. induction 1; now constructor. Qed.

Lemma nested_flat cs :
  Forall (fun c => Surface.flat c = true) cs -> nested cs.
Proof.
  intros H. apply nested_stack_free. eapply Forall_impl; [exact H |]. now intros [].
Qed.

Lemma nested_flat_block cs :
  Forall (fun c => Surface.flat c = true) cs -> nested (Ctx.save :: cs ++ [Ctx.restore]).
Proof. intros H. apply nested_block; [now apply nested_flat | constructor]. Qed.

Lemma nested_keeps_stack cs : nested cs -> keeps_stack cs.
Proof.
  induction 1 as [| c cs Hc _ IH | inner cs _ IHi _ IHc]; intros s; [reflexivity | |].
  - rewrite run_cons, IH. now apply step_stack_free.
  - rewrite run_cons, run_app, run_cons, IHc. cbn [Surface.step].
    now rewrite IHi.
Qed.

(** Whatever part of nested calls has been made, the saved states found
    at the start are still there. *)
Lemma nested_prefix cs :
  nested cs ->
  forall p q s, cs = p ++ q ->
    exists extra, Surface.saved (Surface.run s p) = extra ++ Surface.saved s.
Proof.
  induction 1 as [| c cs Hc _ IH | inner cs Hi IHi _ IHc]; intros p q s E.
  - symmetry in E. apply app_eq_nil in E as [-> _]. now exists [].
  - destruct p as [| c' p]; [now exists [] |].
    cbn [app] in E. injection E as <- E.
    destruct (IH p q (Surface.step s c) E) as [extra Hx].
    exists extra. now rewrite run_cons, Hx, step_stack_free.
  - destruct p as [| c' p]; [now exists [] |].
    cbn [app] in E. injection E as <- E. rewrite run_cons.
    apply app_eq_app in E as [l [[E1 E2] | [E1 E2]]].
    + destruct (IHi p l (Surface.step s Ctx.save) E1) as [extra Hx].
      exists (extra ++ [Surface.clips s]). rewrite Hx. cbn [Surface.step Surface.saved].
      now rewrite <- app_assoc.
    + destruct l as [| c' l].
      * rewrite app_nil_r in E1. subst p.
        exists [Surface.clips s].
        now rewrite (nested_keeps_stack inner Hi).
      * cbn [app] in E2. injection E2 as <- E2. subst p.
        rewrite run_app, run_cons.
        destruct (IHc l q
                    (Surface.step (Surface.run (Surface.step s Ctx.save) inner) Ctx.restore)
                    E2) as [extra Hx].
        exists extra. rewrite Hx. cbn [Surface.step].
        now rewrite (nested_keeps_stack inner Hi).
Qed.

Lemma blocks_app cs1 cs2 : blocks cs1 -> blocks cs2 -> blocks (cs1 ++ cs2).
Proof.
  intros H1 H2. induction H1 as [| inner rest Hi _ IH]; [exact H2 |].
  cbn [app]. rewrite <- app_assoc. cbn [app]. now constructor.
Qed.

Lemma blocks_restore_state cs : blocks cs -> restores_state cs.
Proof.
  induction 1 as [| inner rest Hi _ IH]; [now intros s |].
  change (Ctx.save :: inner ++ Ctx.restore :: rest)
    with (Ctx.save :: inner ++ [Ctx.restore] ++ rest).
  rewrite app_assoc, app_comm_cons.
  apply restores_state_app; [| exact IH].
  now apply restores_state_block, nested_keeps_stack.
Qed.

(** Before any call of a sequence of blocks other than the [save] that
    opens a block, a saved state is on the stack that was not there at the
    start. *)
Lemma blocks_inside cs :
  blocks cs ->
  forall p c q s, cs = p ++ c :: q -> c <> Ctx.save ->
    exists extra top,
      Surface.saved (Surface.run s p) = extra ++ top :: Surface.saved s.
Proof.
  induction 1 as [| inner rest Hi _ IH]; intros p c q s E Hc.
  - now destruct p.
  - destruct p as [| c' p]; cbn [app] in E; injection E as E0 E;
      [now subst c |].
    subst c'. rewrite run_cons.
    apply app_eq_app in E as [l [[E1 E2] | [E1 E2]]].
    + destruct (nested_prefix inner Hi p l (Surface.step s Ctx.save) E1) as [extra Hx].
      exists extra, (Surface.clips s). now rewrite Hx.
    + destruct l as [| c' l].
      * rewrite app_nil_r in E1. subst p.
        exists [], (Surface.clips s).
        now rewrite (nested_keeps_stack inner Hi).
      * cbn [app] in E2. injection E2 as <- E2. subst p.
        rewrite run_app, run_cons.
        destruct (IH l c q
                    (Surface.step (Surface.run (Surface.step s Ctx.save) inner) Ctx.restore)
                    E2 Hc) as (extra & top & Hx).
        exists extra, top. rewrite Hx. cbn [Surface.step].
        now rewrite (nested_keeps_stack inner Hi).
Qed.

(** *** The calls of a sprite are nested *)

Lemma drawBezier_nested obj : nested (calls (drawBezier obj)).
Proof.
  rewrite drawBezier_eq. cbn [calls fst].
  replace (calls (resetShapeStyles_if (BezierPath._styles obj))
             ++ transform_calls (BezierPath._transform obj)
             ++ Ctx.beginPath :: path_calls (BezierPath._d obj)
             ++ paint_calls (BezierPath._styles obj) ++ [Ctx.restore])
    with ((calls (resetShapeStyles_if (BezierPath._styles obj))
             ++ transform_calls (BezierPath._transform obj)
             ++ Ctx.beginPath :: path_calls (BezierPath._d obj)
             ++ paint_calls (BezierPath._styles obj)) ++ [Ctx.restore])
    by (rewrite <- !app_assoc; cbn [app]; now rewrite <- !app_assoc).
  apply nested_flat_block.
  apply Forall_app; split;
    [apply sets_style_flat, resetShapeStyles_if_sets_style |].
  apply Forall_app; split;
    [destruct (BezierPath._transform obj); repeat constructor |].
  constructor; [reflexivity |].
  apply Forall_app; split; [apply builds_path_flat, path_calls_builds_path |].
  rewrite paint_calls_cases. destruct (BezierPath._styles obj) as [st |]; [| constructor].
  destruct (Styles.fill st), (Styles.stroke st); repeat constructor.
Qed.

Lemma drawShape_nested shape : nested (calls (drawShape shape)).
Proof.
  destruct (drawShape_block shape) as [-> | (st & tr & body & Hb & ->)];
    [constructor |].
  cbn [calls fst].
  replace (calls (resetShapeStyles_if st) ++ transform_calls tr
             ++ Ctx.beginPath :: body ++ paint_calls st ++ [Ctx.restore])
    with ((calls (resetShapeStyles_if st) ++ transform_calls tr
             ++ Ctx.beginPath :: body ++ paint_calls st) ++ [Ctx.restore])
    by (rewrite <- !app_assoc; cbn [app]; now rewrite <- !app_assoc).
  apply nested_flat_block.
  apply Forall_app; split;
    [apply sets_style_flat, resetShapeStyles_if_sets_style |].
  apply Forall_app; split; [destruct tr; repeat constructor |].
  constructor; [reflexivity |].
  apply Forall_app; split; [now apply builds_path_flat |].
  rewrite paint_calls_cases. destruct st as [s |]; [| constructor].
  destruct (Styles.fill s), (Styles.stroke s); repeat constructor.
Qed.

Lemma shapes_calls_nested frameItem : nested (shapes_calls frameItem).
Proof.
  unfold shapes_calls. destruct (FrameEntity.shapes frameItem) as [shapes |];
    [| constructor].
  rewrite forEach_returns by (intros; apply drawShape_returns). cbn [calls fst].
  induction shapes as [| shape shapes IH]; cbn [map concat]; [constructor |].
  apply nested_app; [apply drawShape_nested | exact IH].
Qed.

Lemma drawDynamicElement_nested layout d : nested (calls (drawDynamicElement layout d)).
Proof.
  apply nested_flat. unfold drawDynamicElement.
  destruct (source_and_fit d) as [source fit], (source_size source) as [sw sh].
  repeat match goal with
         | |- context [if ?b then _ else _] => destruct b
         end; repeat constructor.
Qed.

Lemma drawDynamicElement_no_clip layout d :
  Forall (fun c => is_clip c = false) (calls (drawDynamicElement layout d)).
Proof.
  unfold drawDynamicElement.
  destruct (source_and_fit d) as [source fit], (source_size source) as [sw sh].
  repeat match goal with
         | |- context [if ?b then _ else _] => destruct b
         end; repeat constructor.
Qed.

Lemma drawClip_returns frameItem : completion (drawClip frameItem) = inr tt.
Proof.
  unfold drawClip. destruct (FrameEntity.clipPath frameItem) as [[| c r] |];
    try reflexivity.
  now rewrite completion_bind, drawBezier_returns.
Qed.

Lemma drawClip_calls frameItem :
  calls (drawClip frameItem) =
  match FrameEntity.clipPath frameItem with
  | Some (String c r) =>
      calls (drawBezier (BezierPath.mk (String c r) None None)) ++ [Ctx.clip]
  | _ => []
  end.
Proof.
  unfold drawClip. destruct (FrameEntity.clipPath frameItem) as [[| c r] |];
    try reflexivity.
  now rewrite calls_bind, drawBezier_returns.
Qed.

Lemma drawClip_nested frameItem : nested (calls (drawClip frameItem)).
Proof.
  rewrite drawClip_calls. destruct (FrameEntity.clipPath frameItem) as [[| c r] |];
    try constructor.
  apply nested_app; [apply drawBezier_nested | now repeat constructor].
Qed.

Lemma drawBitmap_nested frameItem img : nested (calls (drawBitmap frameItem img)).
Proof.
  destruct img as [img |]; [| constructor].
  change (drawBitmap frameItem (Some img))
    with (drawClip frameItem ;; emit (Ctx.drawImage3 img (Num 0) (Num 0))).
  rewrite calls_bind, drawClip_returns.
  apply nested_app; [apply drawClip_nested | now repeat constructor].
Qed.

Lemma override_calls_nested de sprite frameItem :
  nested (override_calls de sprite frameItem).
Proof.
  unfold override_calls. destruct (lookup_key _ de);
    [apply drawDynamicElement_nested | constructor].
Qed.

Lemma renderSprite_blocks bc de cf sprite :
  blocks (calls (renderSprite bc de cf sprite)).
Proof.
  destruct (nth_error (SpriteEntity.frames sprite) cf) as [frameItem |] eqn:Hf;
    [| unfold renderSprite; rewrite Hf; constructor].
  destruct (FrameEntity.alpha frameItem < Num 0.05) eqn:Ha.
  - rewrite (renderSprite_invisible _ _ _ _ _ Hf Ha). constructor.
  - rewrite (renderSprite_visible _ _ _ _ _ Hf Ha). cbn [calls fst].
    replace (Ctx.set_globalAlpha (FrameEntity.alpha frameItem)
               :: calls (context_transform (FrameEntity.transform frameItem))
               ++ bitmap_calls bc sprite frameItem
               ++ override_calls de sprite frameItem
               ++ shapes_calls frameItem ++ [Ctx.restore])
      with ((Ctx.set_globalAlpha (FrameEntity.alpha frameItem)
               :: calls (context_transform (FrameEntity.transform frameItem))
               ++ bitmap_calls bc sprite frameItem
               ++ override_calls de sprite frameItem
               ++ shapes_calls frameItem) ++ Ctx.restore :: [])
      by (cbn [app]; now rewrite <- !app_assoc).
    apply blocks_cons; [| constructor].
    constructor; [reflexivity |].
    apply nested_app; [now repeat constructor |].
    apply nested_app; [apply drawBitmap_nested |].
    apply nested_app; [apply override_calls_nested | apply shapes_calls_nested].
Qed.

(** *** A sprite on plain objects *)

Lemma renderSprite_plain_accepted inherited bc de cf sprite :
  refused inherited bc de cf sprite = false ->
  renderSprite_plain inherited bc de cf sprite = renderSprite bc de cf sprite.
Proof.
  unfold refused, visible, stray_key, renderSprite_plain, renderSprite.
  destruct (nth_error (SpriteEntity.frames sprite) cf) as [frameItem |]; [| reflexivity].
  destruct (FrameEntity.alpha frameItem < Num 0.05); [reflexivity |]. cbn [negb andb].
  rewrite (find_key_lookup inherited _ bc), (find_key_lookup inherited _ de).
  destruct (find_key inherited _ bc), (find_key inherited _ de);
    intros H; try discriminate H; reflexivity.
Qed.

Lemma renderSprite_plain_refused inherited bc de cf sprite :
  refused inherited bc de cf sprite = true ->
  exists inner,
    nested inner /\
    renderSprite_plain inherited bc de cf sprite =
    (Ctx.save :: inner, inl (TypeError not_an_image)).
Proof.
  unfold refused, visible, stray_key, renderSprite_plain.
  destruct (nth_error (SpriteEntity.frames sprite) cf) as [frameItem |];
    [| discriminate].
  destruct (FrameEntity.alpha frameItem < Num 0.05); [discriminate |].
  cbn [negb andb]. intros H.
  rewrite !bind_emit. cbn [calls completion fst snd].
  rewrite (bind_returns _ _ tt) by reflexivity.
  destruct (find_key inherited (SpriteEntity.imageKey sprite) bc) as [img | |] eqn:Hb.
  - destruct (find_key inherited (SpriteEntity.imageKey sprite) de) as [d | |];
      try discriminate H.
    rewrite (bind_returns _ _ tt) by apply drawBitmap_returns.
    rewrite (bind_throws _ _ (TypeError not_an_image)) by reflexivity.
    cbn [calls completion fst snd mthrow Draw_throw]. rewrite app_nil_r.
    eexists. split; [| reflexivity].
    constructor; [reflexivity |].
    apply nested_app; [now repeat constructor | apply drawBitmap_nested].
  - rewrite (bind_throws _ _ (TypeError not_an_image))
      by (now rewrite completion_bind, drawClip_returns).
    rewrite calls_bind, drawClip_returns.
    cbn [calls completion fst snd mthrow Draw_throw]. rewrite app_nil_r.
    eexists. split; [| reflexivity].
    constructor; [reflexivity |].
    apply nested_app; [now repeat constructor | apply drawClip_nested].
  - destruct (find_key inherited (SpriteEntity.imageKey sprite) de) as [d | |];
      try discriminate H.
    rewrite (bind_returns _ _ tt) by reflexivity.
    rewrite (bind_throws _ _ (TypeError not_an_image)) by reflexivity.
    cbn [calls completion fst snd mthrow Draw_throw skip mret Draw_ret app].
    rewrite app_nil_r.
    eexists. split; [| reflexivity].
    constructor; [reflexivity |]. now repeat constructor.
Qed.

Lemma plain_run_agrees inherited bc de cf sprites :
  forallb (fun sprite => negb (refused inherited bc de cf sprite)) sprites = true ->
  forEach sprites (renderSprite_plain inherited bc de cf) =
  forEach sprites (renderSprite bc de cf).
Proof.
  intros H. apply forEach_ext. apply List.Forall_forall. intros sprite Hin.
  rewrite forallb_forall in H. apply renderSprite_plain_accepted.
  apply negb_true_iff. now apply H.
Qed.

Lemma plain_run_returns inherited bc de cf sprites :
  completion (forEach sprites (renderSprite_plain inherited bc de cf)) = inr tt ->
  forallb (has_frame cf) sprites = true /\
  forallb (fun sprite => negb (refused inherited bc de cf sprite)) sprites = true.
Proof.
  induction sprites as [| sprite l IH]; [now split |].
  cbn [forEach forallb]. rewrite completion_bind.
  destruct (refused inherited bc de cf sprite) eqn:Hr.
  - destruct (renderSprite_plain_refused _ _ _ _ _ Hr) as (inner & _ & ->).
    discriminate.
  - rewrite (renderSprite_plain_accepted _ _ _ _ _ Hr), renderSprite_completion.
    destruct (has_frame cf sprite); [| discriminate].
    intros H. destruct (IH H) as [-> ->]. now split.
Qed.

(** What the sprites have issued when the loop ends, by the way it ends. *)
Lemma plain_run_shape inherited bc de cf sprites :
  let run := forEach sprites (renderSprite_plain inherited bc de cf) in
  (completion run = inr tt /\ blocks (calls run)) \/
  (completion run =
     inl (TypeError "Cannot read properties of undefined (reading 'alpha')") /\
   blocks (calls run)) \/
  (completion run = inl (TypeError not_an_image) /\
   exists done inner,
     blocks done /\ nested inner /\ calls run = done ++ Ctx.save :: inner).
Proof.
  induction sprites as [| sprite l IH]; [left; split; [reflexivity | constructor] |].
  cbn zeta in *. cbn [forEach].
  destruct (refused inherited bc de cf sprite) eqn:Hr.
  - destruct (renderSprite_plain_refused _ _ _ _ _ Hr) as (inner & Hn & ->).
    right. right. split; [reflexivity |].
    exists [], inner. repeat split; [constructor | exact Hn].
  - rewrite (renderSprite_plain_accepted _ _ _ _ _ Hr).
    pose proof (renderSprite_blocks bc de cf sprite) as Hb.
    pose proof (renderSprite_completion bc de cf sprite) as Hc.
    destruct (has_frame cf sprite).
    + rewrite (bind_returns _ _ tt) by exact Hc. cbn [calls completion fst snd].
      destruct IH as [[Hd Hbl] | [[Hd Hbl] | (Hd & done & inner & Hbd & Hn & E)]].
      * left. split; [exact Hd | now apply blocks_app].
      * right. left. split; [exact Hd | now apply blocks_app].
      * right. right. split; [exact Hd |].
        exists (calls (renderSprite bc de cf sprite) ++ done), inner.
        split; [now apply blocks_app |]. split; [exact Hn |].
        now rewrite E, app_assoc.
    + rewrite (bind_throws _ _ _ Hc).
      right. left. split; [reflexivity | exact Hb].
Qed.

(** *** The calls that take effect *)

Lemma executed_split rejects cs :
  match first_rejected rejects cs with
  | Some c => exists q, cs = executed rejects cs ++ c :: q
  | None =>
      executed rejects cs = cs /\ forallb (fun c => negb (rejects c)) cs = true
  end.
Proof.
  induction cs as [| c cs IH]; [now split |].
  cbn [first_rejected executed forallb].
  destruct (rejects c) eqn:Hc; [now exists cs |].
  destruct (first_rejected rejects cs) as [c' |].
  - destruct IH as [q Hq]. exists q. cbn [app]. now rewrite <- Hq.
  - destruct IH as [-> ->]. now split.
Qed.

Lemma none_rejected rejects cs :
  forallb (fun c => negb (rejects c)) cs = true ->
  first_rejected rejects cs = None /\ executed rejects cs = cs.
Proof.
  induction cs as [| c cs IH]; [now split |].
  cbn [first_rejected executed forallb]. intros H.
  apply andb_prop in H as [Hc Hcs]. apply negb_true_iff in Hc. rewrite Hc.
  destruct (IH Hcs) as [-> ->]. now split.
Qed.

(** X1. [render], with the dictionaries read as plain objects and a
    context that may throw, and the drawing state of the surface.  When
    [render] returns, or throws because a sprite has no frame at the
    index, the calls it has made leave the clipping region and the stack
    of saved states as they were: every [save] is matched, and no sprite's
    clip outlives the sprite.  When it throws because [drawImage] is
    handed a value that is no image, or because the context throws on a
    call other than [save], that is not so: the [save] of the sprite that
    was being drawn is left without its [restore] (there is no [finally]),
    and the stack of saved states is deeper than it was. *)
Theorem render_restores_drawing_state inherited rejects received bc de video cf :
  let result :=
    render_plain inherited rejects (Canvas.mk (Some received)) bc de video cf in
  exists drawn,
    RenderedPlain.canvas result = Canvas.mk (Some (received ++ drawn)) /\
    ((exists canvas, RenderedPlain.returned result = inr canvas) \/
     RenderedPlain.returned result =
       inl (Script (TypeError "Cannot read properties of undefined (reading 'alpha')")) ->
     restores_state drawn) /\
    (RenderedPlain.returned result = inl (Script (TypeError not_an_image)) \/
     (exists c, RenderedPlain.returned result = inl (Context c) /\ c <> Ctx.save) ->
     forall s, exists extra top,
       Surface.saved (Surface.run s drawn) = extra ++ top :: Surface.saved s).
Proof.
  intros result. subst result. unfold render_plain.
  cbn [Canvas.context2d RenderedPlain.canvas RenderedPlain.returned].
  set (run := forEach (VideoEntity.sprites video)
                      (renderSprite_plain inherited bc de cf)).
  exists (executed rejects (calls run)). split; [reflexivity |].
  pose proof (executed_split rejects (calls run)) as Hx.
  pose proof (plain_run_shape inherited bc de cf (VideoEntity.sprites video)) as Hshape.
  cbn zeta in Hshape. fold run in Hshape.
  destruct (first_rejected rejects (calls run)) as [c |].
  - destruct Hx as [q Hq]. split.
    + intros [[canvas H] | H]; discriminate H.
    + intros [H | (c' & H & Hc')]; [discriminate H |].
      injection H as <-. intros s.
      destruct Hshape as [[_ Hbl] | [[_ Hbl] | (_ & done & inner & Hbd & Hn & E)]].
      * exact (blocks_inside _ Hbl _ c q s Hq Hc').
      * exact (blocks_inside _ Hbl _ c q s Hq Hc').
      * apply (blocks_inside ((done ++ Ctx.save :: inner) ++ [Ctx.restore])) with
          (c := c) (q := (q ++ [Ctx.restore])%list); [| | exact Hc'].
        -- rewrite <- app_assoc. cbn [app]. apply blocks_app; [exact Hbd |].
           apply blocks_cons; [exact Hn | constructor].
        -- rewrite <- E, app_comm_cons, app_assoc. now rewrite <- Hq.
  - destruct Hx as [-> _]. split.
    + intros H.
      destruct Hshape as [[_ Hbl] | [[_ Hbl] | (Hd & _)]];
        try (now apply blocks_restore_state).
      rewrite Hd in H. destruct H as [[canvas H] | H]; discriminate H.
    + intros [H | (c' & H & _)].
      * destruct Hshape as [[Hd _] | [[Hd _] | (_ & done & inner & Hbd & Hn & E)]];
          try (rewrite Hd in H; discriminate H).
        intros s. rewrite E.
        apply (blocks_inside (done ++ Ctx.save :: inner ++ [Ctx.restore])) with
          (c := Ctx.restore) (q := []); [| | discriminate].
        -- apply blocks_app; [exact Hbd |].
           apply blocks_cons; [exact Hn | constructor].
        -- rewrite <- app_assoc. reflexivity.
      * destruct (completion run); discriminate H.
Qed.

(** X3. [render], with the dictionaries read as plain objects and a
    context that may throw, returns normally exactly when every sprite
    has a frame at the index, no sprite drawn at the index has an image key
    that only names an inherited property, and the context throws on none
    of the calls of the sprites; it then returns the canvas it has drawn
    on, and what it has drawn is the calls of the sprites one after the
    other, in list order. *)
Theorem render_returns_iff_all_frames inherited rejects received bc de sprites cf :
  let result :=
    render_plain inherited rejects (Canvas.mk (Some received)) bc de
                 (VideoEntity.mk sprites) cf in
  let drawn :=
    Canvas.mk (Some (received
                       ++ concat (map (fun sprite => calls (renderSprite bc de cf sprite))
                                      sprites))) in
  let accepted :=
    forallb (has_frame cf) sprites
    && forallb (fun sprite => negb (refused inherited bc de cf sprite)) sprites
    && forallb (fun c => negb (rejects c))
               (render_calls bc de (VideoEntity.mk sprites) cf) in
  (accepted = true <-> exists canvas, RenderedPlain.returned result = inr canvas) /\
  (accepted = true -> result = RenderedPlain.mk (inr drawn) drawn []).
Proof.
  intros result drawn accepted.
  assert (Hall : accepted = true -> result = RenderedPlain.mk (inr drawn) drawn []).
  { intros H. subst result drawn accepted.
    apply andb_prop in H as [H Hj]. apply andb_prop in H as [Hf Hr].
    unfold render_plain, render_calls in *.
    cbn [Canvas.context2d VideoEntity.sprites] in *.
    rewrite (plain_run_agrees _ _ _ _ _ Hr) in *.
    destruct (none_rejected _ _ Hj) as [-> ->].
    now rewrite (forEach_sprites_with_frames _ _ _ _ Hf). }
  split; [| exact Hall]. split.
  - intros H. rewrite (Hall H). now eexists.
  - intros [canvas Hc]. subst result accepted. unfold render_plain, render_calls in *.
    cbn [Canvas.context2d VideoEntity.sprites RenderedPlain.returned] in *.
    pose proof (executed_split rejects
                  (calls (forEach sprites (renderSprite_plain inherited bc de cf))))
      as Hx.
    destruct (first_rejected rejects _) as [c |]; [discriminate Hc |].
    destruct Hx as [_ Hj].
    destruct (completion (forEach sprites (renderSprite_plain inherited bc de cf)))
      as [e | []] eqn:Hd; [discriminate Hc |].
    destruct (plain_run_returns _ _ _ _ _ Hd) as [Hf Hr].
    rewrite (plain_run_agrees _ _ _ _ _ Hr) in Hj.
    now rewrite Hf, Hr, Hj.
Qed.

(** X5. The clip path of a frame takes effect only when the image key of
    the sprite finds something in the bitmap cache.  For a key that finds
    nothing, neither an entry nor an inherited property, no [clip] call is
    issued, and the sprite is rendered exactly as if its frame declared no
    clip path (its dynamic element and its shapes are drawn unclipped).
    A key that names an inherited property of the cache (such as
    [constructor] on a plain object) does pass the test of line 45: the
    clip path is drawn and [clip] is called although no bitmap is cached,
    and [drawImage] then refuses what was found, so that the sprite ends
    there, with its [save] and its clip in place. *)
Theorem clip_path_needs_bitmap inherited bc de cf sprite sprite' frameItem :
  nth_error (SpriteEntity.frames sprite) cf = Some frameItem ->
  nth_error (SpriteEntity.frames sprite') cf = Some (without_clipPath frameItem) ->
  SpriteEntity.imageKey sprite' = SpriteEntity.imageKey sprite ->
  (find_key inherited (SpriteEntity.imageKey sprite) bc = Missing ->
   renderSprite_plain inherited bc de cf sprite =
     renderSprite_plain inherited bc de cf sprite' /\
   Forall (fun c => is_clip c = false)
          (calls (renderSprite_plain inherited bc de cf sprite))) /\
  (find_key inherited (SpriteEntity.imageKey sprite) bc = Inherited ->
   (FrameEntity.alpha frameItem < Num 0.05) = false ->
   forall c r, FrameEntity.clipPath frameItem = Some (String c r) ->
   renderSprite_plain inherited bc de cf sprite =
     (Ctx.save :: Ctx.set_globalAlpha (FrameEntity.alpha frameItem)
        :: calls (context_transform (FrameEntity.transform frameItem))
        ++ calls (drawBezier (BezierPath.mk (String c r) None None)) ++ [Ctx.clip],
      inl (TypeError not_an_image))).
Proof.
  intros Hf Hf' Hk. split.
  - intros Hb. unfold renderSprite_plain. rewrite Hf, Hf', Hk, Hb.
    cbn [without_clipPath FrameEntity.alpha FrameEntity.transform FrameEntity.layout
         FrameEntity.shapes].
    split; [reflexivity |].
    destruct (FrameEntity.alpha frameItem < Num 0.05); [constructor |].
    apply Forall_calls_bind; [repeat constructor | intros _].
    apply Forall_calls_bind; [repeat constructor | intros _].
    apply Forall_calls_bind; [repeat constructor | intros _].
    apply Forall_calls_bind; [constructor | intros _].
    apply Forall_calls_bind; [| intros _].
    { destruct (find_key inherited _ de) as [d | |]; try constructor.
      apply drawDynamicElement_no_clip. }
    apply Forall_calls_bind; [| intros _; repeat constructor].
    destruct (FrameEntity.shapes frameItem); [| constructor].
    apply Forall_calls_forEach, drawShape_no_clip.
  - intros Hb Ha c r Hclip. unfold renderSprite_plain. rewrite Hf, Ha, Hb.
    rewrite !bind_emit. cbn [calls completion fst snd].
    rewrite (bind_returns _ _ tt) by reflexivity.
    rewrite (bind_throws _ _ (TypeError not_an_image))
      by (now rewrite completion_bind, drawClip_returns).
    rewrite calls_bind, drawClip_returns, drawClip_calls, Hclip.
    cbn [calls completion fst snd mthrow Draw_throw]. now rewrite app_nil_r.
Qed.

(** X21. The reading of the dictionaries as finite maps and of the
    context as one that accepts every call loses nothing where neither
    matters: when no sprite drawn at the index has an image key that only
    names an inherited property, and the context throws on none of the
    calls, [render] on plain objects and a context that may throw returns,
    throws and draws as [render] does. *)
Theorem render_plain_agrees inherited rejects canvas bc de video cf :
  forallb (fun sprite => negb (refused inherited bc de cf sprite))
          (VideoEntity.sprites video) = true ->
  forallb (fun c => negb (rejects c)) (render_calls bc de video cf) = true ->
  let result := render canvas bc de video cf in
  render_plain inherited rejects canvas bc de video cf =
  RenderedPlain.mk
    (match Rendered.returned result with
     | inl e => inl (Script e)
     | inr returned => inr returned
     end)
    (Rendered.canvas result) (Rendered.console_error result).
Proof.
  intros Hr Hj result. subst result. unfold render_plain, render, render_calls in *.
  destruct (Canvas.context2d canvas) as [received |]; [| reflexivity].
  rewrite (plain_run_agrees _ _ _ _ _ Hr).
  destruct (none_rejected _ _ Hj) as [-> ->].
  cbn [Rendered.returned Rendered.canvas Rendered.console_error].
  now destruct (completion _).
Qed.

(** ** The further properties at sample inputs *)


(** X1 on a sprite whose rectangle has a negative corner radius: the
    context throws on the first [arcTo], inside the [save] of the sprite
    and the [save] of [drawRect], and the clip of the sprite stays in
    force. *)
Lemma render_restores_drawing_state_witness :
  let result :=
    render_plain object_prototype_name html_rejects (Canvas.mk (Some []))
                 Sample.bitmaps ∅ (VideoEntity.mk [dented_sprite]) 0 in
  let triangle :=
    [Ctx.moveTo (Num 0) (Num 0); Ctx.lineTo (Num 4) (Num 0);
     Ctx.lineTo (Num 4) (Num 4); Ctx.closePath] in
  RenderedPlain.returned result =
    inl (Context (Ctx.arcTo (Num 10) (Num 0) (Num 10) (Num 4) (Num (-3)))) /\
  exists drawn,
    RenderedPlain.canvas result = Canvas.mk (Some drawn) /\
    (forall s, exists extra top,
        Surface.saved (Surface.run s drawn) = extra ++ top :: Surface.saved s) /\
    Surface.clips (Surface.run Surface.init drawn) = [triangle] /\
    Surface.saved (Surface.run Surface.init drawn) = [[triangle]; []].
Proof.
  intros result triangle. split; [vm_compute; reflexivity |].
  pose proof (render_restores_drawing_state object_prototype_name html_rejects []
                Sample.bitmaps ∅ (VideoEntity.mk [dented_sprite]) 0) as H.
  cbv zeta in H. destruct H as (drawn & Hc & _ & Hdeep).
  exists drawn. split; [exact Hc |]. split.
  - apply Hdeep. right. eexists. split; [vm_compute; reflexivity | discriminate].
  - vm_compute in Hc. injection Hc as <-. split; vm_compute; reflexivity.
Defined.

(** X3 on two sprites that both have a frame and whose keys are entries
    of the dictionaries. *)
Lemma render_returns_iff_all_frames_witness :
  forallb (has_frame 0) [Sample.plain_sprite; Sample.banner_sprite]
  && forallb (fun sprite =>
                negb (refused object_prototype_name Sample.bitmaps Sample.overrides
                              0 sprite))
             [Sample.plain_sprite; Sample.banner_sprite]
  && forallb (fun c => negb (html_rejects c))
             (render_calls Sample.bitmaps Sample.overrides
                (VideoEntity.mk [Sample.plain_sprite; Sample.banner_sprite]) 0) = true /\
  exists canvas,
    RenderedPlain.returned
      (render_plain object_prototype_name html_rejects (Canvas.mk (Some []))
         Sample.bitmaps Sample.overrides
         (VideoEntity.mk [Sample.plain_sprite; Sample.banner_sprite]) 0) =
    inr canvas.
Proof.
  split; [vm_compute; reflexivity |].
  apply (proj1 (proj1 (render_returns_iff_all_frames object_prototype_name html_rejects
                         [] Sample.bitmaps Sample.overrides
                         [Sample.plain_sprite; Sample.banner_sprite] 0))).
  vm_compute. reflexivity.
Defined.

(** X5 with an empty bitmap cache: on the clipped sample sprite, whose
    key finds nothing, and on a sprite whose key is [constructor]. *)
Lemma clip_path_needs_bitmap_witness :
  (find_key object_prototype_name (SpriteEntity.imageKey Sample.clipped_sprite)
            (∅ : gmap string CanvasImageSource) = Missing /\
   renderSprite_plain object_prototype_name ∅ Sample.overrides 0 Sample.clipped_sprite =
     renderSprite_plain object_prototype_name ∅ Sample.overrides 0
                        Sample.unclipped_sprite /\
   Forall (fun c => is_clip c = false)
          (calls (renderSprite_plain object_prototype_name ∅ Sample.overrides 0
                                     Sample.clipped_sprite))) /\
  (find_key object_prototype_name (SpriteEntity.imageKey constructor_sprite)
            (∅ : gmap string CanvasImageSource) = Inherited /\
   renderSprite_plain object_prototype_name ∅ ∅ 0 constructor_sprite =
     (Ctx.save :: Ctx.set_globalAlpha (Num 1)
        :: calls (context_transform Sample.no_fields)
        ++ calls (drawBezier (BezierPath.mk "M0 0 L4 0 L4 4 Z" None None))
        ++ [Ctx.clip],
      inl (TypeError not_an_image))).
Proof.
  split; (split; [reflexivity |]).
  - destruct (clip_path_needs_bitmap object_prototype_name ∅ Sample.overrides 0
                Sample.clipped_sprite Sample.unclipped_sprite Sample.clipped_frame
                eq_refl eq_refl eq_refl) as [H _].
    exact (H eq_refl).
  - destruct (clip_path_needs_bitmap object_prototype_name ∅ ∅ 0
                constructor_sprite
                (SpriteEntity.mk (Some "constructor")
                                 [without_clipPath Sample.clipped_frame])
                Sample.clipped_frame eq_refl eq_refl eq_refl) as [_ H].
    exact (H eq_refl eq_refl "M"%char "0 0 L4 0 L4 4 Z"%string eq_refl).
Defined.

(** X21 on the clipped sample sprite and the sprite without a key. *)
Lemma render_plain_agrees_witness :
  render_plain object_prototype_name html_rejects (Canvas.mk (Some []))
               Sample.bitmaps Sample.overrides
               (VideoEntity.mk [Sample.clipped_sprite; Sample.plain_sprite]) 0 =
  RenderedPlain.mk
    (match Rendered.returned
             (render (Canvas.mk (Some [])) Sample.bitmaps Sample.overrides
                     (VideoEntity.mk [Sample.clipped_sprite; Sample.plain_sprite]) 0)
     with
     | inl e => inl (Script e)
     | inr returned => inr returned
     end)
    (Rendered.canvas
       (render (Canvas.mk (Some [])) Sample.bitmaps Sample.overrides
               (VideoEntity.mk [Sample.clipped_sprite; Sample.plain_sprite]) 0))
    (Rendered.console_error
       (render (Canvas.mk (Some [])) Sample.bitmaps Sample.overrides
               (VideoEntity.mk [Sample.clipped_sprite; Sample.plain_sprite]) 0)).
Proof.
  apply (render_plain_agrees object_prototype_name html_rejects (Canvas.mk (Some []))
           Sample.bitmaps Sample.overrides
           (VideoEntity.mk [Sample.clipped_sprite; Sample.plain_sprite]) 0);
    vm_compute; reflexivity.
Defined.

(** X6 on the banner sprite and an entry under another key. *)
Lemma render_ignores_unused_keys_witness :
  Forall (fun sprite => SpriteEntity.imageKey sprite <> Some "avatar")
         [Sample.banner_sprite] /\
  render (Canvas.mk (Some [])) (<["avatar" := Sample.avatar]> Sample.bitmaps)
         (<["avatar" := Bare Sample.fontCanvas]> Sample.overrides)
         (VideoEntity.mk [Sample.banner_sprite]) 0 =
  render (Canvas.mk (Some [])) Sample.bitmaps Sample.overrides
         (VideoEntity.mk [Sample.banner_sprite]) 0.
Proof.
  assert (H : Forall (fun sprite => SpriteEntity.imageKey sprite <> Some "avatar")
                     [Sample.banner_sprite])
    by (constructor; [discriminate | constructor]).
  split; [exact H |].
  apply (render_ignores_unused_keys (Canvas.mk (Some [])) Sample.bitmaps Sample.overrides
           (VideoEntity.mk [Sample.banner_sprite]) 0 "avatar"). exact H.
Defined.

(** X7 on the sample sprite without an image key. *)
Lemma keyless_sprite_draws_shapes_only_witness :
  keyless Sample.plain_sprite = true /\
  renderSprite Sample.bitmaps Sample.overrides 0 Sample.plain_sprite =
  (Ctx.save :: Ctx.set_globalAlpha (Num 1)
     :: calls (context_transform Sample.squashed)
     ++ shapes_calls (Sample.frame (Num 1) Sample.squashed) ++ [Ctx.restore],
   inr tt).
Proof.
  split; [reflexivity |].
  apply (keyless_sprite_draws_shapes_only Sample.bitmaps Sample.overrides 0
           Sample.plain_sprite (Sample.frame (Num 1) Sample.squashed));
    reflexivity.
Defined.

(** X8 on a 200 by 30 canvas fitted into the layout of 100 by 50 at
    [(10, 20)]: the picture, 100 by 15 at [(0, 35/2)], lies inside the box
    at the origin, and not inside the layout rectangle. *)
Lemma contain_fits_inside_witness :
  source_size Sample.fontCanvas = (Num 200, Num 30) /\ (0 < 200)%Q /\ (0 < 30)%Q /\
  exists dx dy dw dh,
    calls (drawDynamicElement offset_layout (WithFit Sample.fontCanvas (Some "contain"))) =
      [Ctx.drawImage5 Sample.fontCanvas (Num dx) (Num dy) (Num dw) (Num dh)] /\
    (dw <= 100)%Q /\ (dh <= 50)%Q /\ (dw == 100 \/ dh == 50) /\
    dw * 30 == dh * 200 /\
    dx + dw + dx == 100 /\ dy + dh + dy == 50 /\
    ((0 <= dx)%Q /\ (dx + dw <= 100)%Q /\ (0 <= dy)%Q /\ (dy + dh <= 50)%Q) /\
    (((10 <= dx)%Q /\ (dx + dw <= 10 + 100)%Q /\ (20 <= dy)%Q /\ (dy + dh <= 20 + 50)%Q)
     <-> ((- dx <= 10)%Q /\ (10 <= dx)%Q /\ (- dy <= 20)%Q /\ (20 <= dy)%Q)) /\
    (10 == 0 -> 20 == 0 ->
     (10 <= dx)%Q /\ (dx + dw <= 10 + 100)%Q /\ (20 <= dy)%Q /\ (dy + dh <= 20 + 50)%Q).
Proof.
  split; [reflexivity |]. split; [reflexivity |]. split; [reflexivity |].
  apply (contain_fits_inside offset_layout Sample.fontCanvas 200 30 10 20 100 50);
    reflexivity.
Defined.

(** X9 on the same canvas and layout. *)
Lemma cover_covers_layout_witness :
  source_size Sample.fontCanvas = (Num 200, Num 30) /\ (0 < 200)%Q /\ (0 < 30)%Q /\
  exists dx dy dw dh,
    calls (drawDynamicElement offset_layout (WithFit Sample.fontCanvas (Some "cover"))) =
      [Ctx.drawImage5 Sample.fontCanvas (Num dx) (Num dy) (Num dw) (Num dh)] /\
    (100 <= dw)%Q /\ (50 <= dh)%Q /\ (dw == 100 \/ dh == 50) /\
    dw * 30 == dh * 200 /\
    dx + dw + dx == 100 /\ dy + dh + dy == 50 /\
    ((dx <= 0)%Q /\ (100 <= dx + dw)%Q /\ (dy <= 0)%Q /\ (50 <= dy + dh)%Q) /\
    (((dx <= 10)%Q /\ (10 + 100 <= dx + dw)%Q /\ (dy <= 20)%Q /\ (20 + 50 <= dy + dh)%Q)
     <-> ((dx <= 10)%Q /\ (10 <= - dx)%Q /\ (dy <= 20)%Q /\ (20 <= - dy)%Q)) /\
    (10 == 0 -> 20 == 0 ->
     (dx <= 10)%Q /\ (10 + 100 <= dx + dw)%Q /\ (dy <= 20)%Q /\ (20 + 50 <= dy + dh)%Q).
Proof.
  split; [reflexivity |]. split; [reflexivity |]. split; [reflexivity |].
  apply (cover_covers_layout offset_layout Sample.fontCanvas 200 30 10 20 100 50);
    reflexivity.
Defined.

(** X10 on an image that has not loaded. *)
Lemma zero_sized_source_is_drawn_at_NaN_witness :
  source_size pending_image = (Num 0, Num 0) /\
  calls (drawDynamicElement Sample.layout (WithFit pending_image (Some "cover"))) =
    [Ctx.drawImage5 pending_image NaN NaN NaN NaN].
Proof.
  split; [reflexivity |].
  apply (zero_sized_source_is_drawn_at_NaN Sample.layout pending_image 0 0 100 50 "cover");
    try reflexivity.
  now right.
Defined.


(** X20 on the paths [M5 7 S10 10 20 0] and [M5 7 s10 10 20 0]. *)
Lemma first_smooth_curve_is_quadratic_witness :
  forallb command_ok [("M"%char, "5 7 ")] = true /\
  forallb (fun command => negb (writes_control_point (fst command)))
          [("M"%char, "5 7 ")] = true /\
  exists x y,
    completion (interpret_commands CurrentPoint.zero [("M"%char, "5 7 ")]) =
      inr (CurrentPoint.mk x y (Num 0) (Num 0) (Num 0) (Num 0)) /\
    path_calls (String.append "" (path_text ([("M"%char, "5 7 ")] ++ [("S"%char, "10 10 20 0")]))) =
      calls (interpret_commands CurrentPoint.zero [("M"%char, "5 7 ")])
        ++ [Ctx.quadraticCurveTo (JS.arg ["10"; "10"; "20"; "0"] 0)
                                 (JS.arg ["10"; "10"; "20"; "0"] 1)
                                 (JS.arg ["10"; "10"; "20"; "0"] 2)
                                 (JS.arg ["10"; "10"; "20"; "0"] 3)] /\
    path_calls (String.append "" (path_text ([("M"%char, "5 7 ")] ++ [("s"%char, "10 10 20 0")]))) =
      calls (interpret_commands CurrentPoint.zero [("M"%char, "5 7 ")])
        ++ [Ctx.quadraticCurveTo (x + JS.arg ["10"; "10"; "20"; "0"] 0)
                                 (y + JS.arg ["10"; "10"; "20"; "0"] 1)
                                 (x + JS.arg ["10"; "10"; "20"; "0"] 2)
                                 (y + JS.arg ["10"; "10"; "20"; "0"] 3)].
Proof.
  split; [reflexivity |]. split; [reflexivity |].
  apply (first_smooth_curve_is_quadratic "" [("M"%char, "5 7 ")] "10 10 20 0");
    reflexivity.
Defined.

(** C3 on the path [M0 0 C1 5 10 10 20 0 L25 5 S30 10 40 0 S50 10 60 0]:
    the line between the cubic curve and the first smooth one leaves the
    control points [(1, 5)] and [(10, 10)] in place, the first [S]
    reflects [(10, 10)] about the current point [(25, 5)] and stores the
    reflected point [(40, 0)] as [(x1, y1)]; the second [S] finds [y1 = 0]
    and is drawn as a quadratic curve. *)
Lemma smooth_cubic_guard_witness :
  forallb command_ok
    ([("M"%char, "0 0 "); ("C"%char, "1 5 10 10 20 0 ")] ++ [("L"%char, "25 5 ")]) = true /\
  forallb (fun command => negb (writes_control_point (fst command)))
    [("L"%char, "25 5 ")] = true /\
  forallb command_ok [("S"%char, "50 10 60 0")] = true /\
  path_calls "M0 0 C1 5 10 10 20 0 L25 5 S30 10 40 0 S50 10 60 0" =
    [Ctx.moveTo (Num 0) (Num 0);
     Ctx.bezierCurveTo (Num 1) (Num 5) (Num 10) (Num 10) (Num 20) (Num 0);
     Ctx.lineTo (Num 25) (Num 5);
     Ctx.bezierCurveTo (Num 40) (Num 0) (Num 30) (Num 10) (Num 40) (Num 0);
     Ctx.quadraticCurveTo (Num 50) (Num 10) (Num 60) (Num 0)].
Proof.
  split; [reflexivity |]. split; [reflexivity |]. split; [reflexivity |].
  destruct smooth_cubic_guard as (_ & _ & _ & _ & Hpath & _).
  destruct (Hpath ""%string
              [("M"%char, "0 0 "%string); ("C"%char, "1 5 10 10 20 0 "%string)]
              [("L"%char, "25 5 "%string)] "30 10 40 0 "%string
              [("S"%char, "50 10 60 0"%string)]
              eq_refl eq_refl eq_refl eq_refl eq_refl eq_refl eq_refl)
    as (x0 & y0 & x & y & x1 & y1 & x2 & y2 & Hb & Hall & HS & _).
  vm_compute in Hall. injection Hall as <- <- <- <- <- <-.
  vm_compute in HS. vm_compute. exact HS.
Defined.
